(** * Module ingestion core of pkgsite: fetch.go and the fetch-and-poll
    coordinator, embedded in Rocq.

    The development follows internal/fetch/fetch.go function by function.
    Go values are modelled as follows:
    - strings and byte slices as [string];
    - Go maps as stdpp's [gmap] and [gset], with the order of a [range]
      over a map left to an oracle;
    - [error] values as a small inductive type that keeps the [%w] chain
      which [errors.Is] and [errors.As] follow;
    - a panic as a second outcome of a computation (type [go]);
    - everything that lives outside the files at hand (limits, the
      go/parser, go/doc and dochtml packages, the proxy client, the
      license detector) as the fields of one record, [World]. *)

From Stdlib Require Import ZArith Lia Bool List Ascii String DecimalString.
From stdpp Require Import base option gmap strings list fin_maps fin_sets sorting.

Open Scope string_scope.
Open Scope list_scope.
Open Scope Z_scope.

(** ** Go's [strings] package, the functions fetch.go calls *)
Module strings.

Definition HasPrefix (s p : string) : bool := String.prefix p s.

Definition drop (n : nat) (s : string) : string :=
  String.substring n (String.length s - n) s.

Definition HasSuffix (s suf : string) : bool :=
  let n := String.length s in
  let m := String.length suf in
  (m <=? n)%nat && String.eqb (drop (n - m) s) suf.

Definition TrimPrefix (s p : string) : string :=
  if HasPrefix s p then drop (String.length p) s else s.

Definition TrimSuffix (s suf : string) : string :=
  if HasSuffix s suf
  then String.substring 0 (String.length s - String.length suf) s
  else s.

Definition Contains (s sub : string) : bool :=
  match String.index 0 sub s with Some _ => true | None => false end.

(** [strings.Split(s, sep)] for a one-byte separator: never empty. *)
Fixpoint split_go (sep : ascii) (cur : string) (s : string) : list string :=
  match s with
  | EmptyString => [String.rev cur]
  | String c s' =>
      if Ascii.eqb c sep then String.rev cur :: split_go sep EmptyString s'
      else split_go sep (String c cur) s'
  end.

Definition Split (s : string) (sep : ascii) : list string :=
  split_go sep EmptyString s.

(** [strings.Join(elems, sep)]. *)
Fixpoint Join (elems : list string) (sep : string) : string :=
  match elems with
  | [] => ""
  | [e] => e
  | e :: rest => e +:+ sep +:+ Join rest sep
  end.

(** ASCII lower-casing.  [strings.EqualFold] compares under Unicode simple
    case folding; fetch.go only compares with the constant [README], none
    of whose letters has a non-ASCII fold partner, so on that use folding
    is ASCII case-insensitivity. *)
Definition lower (c : ascii) : ascii :=
  let n := nat_of_ascii c in
  if ((65 <=? n) && (n <=? 90))%nat then ascii_of_nat (n + 32) else c.

Fixpoint EqualFold (s t : string) : bool :=
  match s, t with
  | EmptyString, EmptyString => true
  | String a s', String b t' => Ascii.eqb (lower a) (lower b) && EqualFold s' t'
  | _, _ => false
  end.

(** Index of the last byte equal to [c]. *)
Fixpoint LastIndexByte_go (c : ascii) (i : nat) (s : string) (acc : option nat)
  : option nat :=
  match s with
  | EmptyString => acc
  | String a s' =>
      LastIndexByte_go c (S i) s' (if Ascii.eqb a c then Some i else acc)
  end.

Definition LastIndexByte (s : string) (c : ascii) : option nat :=
  LastIndexByte_go c 0%nat s None.

(** First [n] bytes of [s], what reading through an [io.LimitReader] of
    limit [n] returns. *)
Fixpoint take (n : N) (s : string) : string :=
  match s with
  | EmptyString => EmptyString
  | String c s' => if (n =? 0)%N then EmptyString else String c (take (N.pred n) s')
  end.

End strings.

(** ** Go's [path] package *)
Module path.

Definition slash : ascii := "/"%char.

(** One step of [Clean] over the stack of elements kept so far (top first). *)
Definition clean_step (rooted : bool) (stack : list string) (el : string)
  : list string :=
  if String.eqb el "" then stack
  else if String.eqb el "." then stack
  else if String.eqb el ".." then
    match stack with
    | top :: rest =>
        if String.eqb top ".." then el :: stack else rest
    | [] => if rooted then [] else [el]
    end
  else el :: stack.

Definition Clean (p : string) : string :=
  if String.eqb p "" then "."
  else
    let rooted := strings.HasPrefix p "/" in
    let stack := fold_left (clean_step rooted) (strings.Split p slash) [] in
    let body := strings.Join (rev stack) "/" in
    if rooted then "/" +:+ body
    else if String.eqb body "" then "." else body.

Definition Split (p : string) : string * string :=
  match strings.LastIndexByte p slash with
  | Some i => (String.substring 0 (S i) p, strings.drop (S i) p)
  | None => ("", p)
  end.

Definition Dir (p : string) : string := Clean (fst (Split p)).

Fixpoint join_buf (buf : string) (elem : list string) : string :=
  match elem with
  | [] => buf
  | e :: rest =>
      if negb (String.eqb buf "") then join_buf (buf +:+ "/" +:+ e) rest
      else if negb (String.eqb e "") then join_buf e rest
      else join_buf buf rest
  end.

Definition Join (elem : list string) : string :=
  if forallb (fun e => String.eqb e "") elem then ""
  else Clean (join_buf "" elem).

(** Strip trailing slashes. *)
Fixpoint strip_trailing_rev (r : string) : string :=
  match r with
  | String c r' => if Ascii.eqb c slash then strip_trailing_rev r' else r
  | EmptyString => EmptyString
  end.

Definition Base (p : string) : string :=
  if String.eqb p "" then "."
  else
    let p1 := String.rev (strip_trailing_rev (String.rev p)) in
    let p2 := match strings.LastIndexByte p1 slash with
              | Some i => strings.drop (S i) p1
              | None => p1
              end in
    if String.eqb p2 "" then "/" else p2.

(** [Ext]: scan backwards to the last dot of the final element. *)
Fixpoint ext_rev (r : string) (acc : string) : string :=
  match r with
  | EmptyString => ""
  | String c r' =>
      if Ascii.eqb c slash then ""
      else if Ascii.eqb c "."%char then String c acc
      else ext_rev r' (String c acc)
  end.

Definition Ext (p : string) : string := ext_rev (String.rev p) "".

End path.

(** ** Errors

    [sentinel] lists the error values created once with [errors.New] and
    compared by identity: the two of fetch.go, [dochtml.ErrTooLarge], and
    the kinds of package derrors that fetch.go and the spec's status table
    name. *)
Inductive sentinel : Type :=
  | errModuleContainsNoPackages
  | errMalformedZip
  | ErrTooLarge
  | NotFound
  | BadRequest
  | ProxyTimedOut
  | BadModule
  | AlternativeModule
  | HasIncompletePackages
  | PackageBadImportPath
  | PackageInvalidContents
  | PackageBuildContextNotSupported
  | PackageMaxFileSizeLimitExceeded
  | PackageDocumentationHTMLTooLarge.

#[global] Instance sentinel_eq_dec : EqDecision sentinel.
Proof. solve_decision. Defined.

(** An [error] value.  [fmt_Errorf msg w] is the result of [fmt.Errorf]:
    [msg] is the formatted text and [w] the operand of [%w], if the format
    has one ([%v] formats the operand into the text and drops the link).
    [BadPackageError] has an [Error] method and no [Unwrap] method.
    [foreign] stands for the error values of other libraries. *)
#[warnings="-register-all"]
Inductive error : Type :=
  | errors_New (s : sentinel)
  | fmt_Errorf (msg : string) (w : option error)
  | BadPackageError (Err : error)
  | MultiplePackageError (Dir : string) (Packages Files : list string)
  | foreign (msg : string).

(** [errors.Is(err, target)] for a sentinel target. *)
Fixpoint errors_Is (err : error) (target : sentinel) : bool :=
  match err with
  | errors_New s => bool_decide (s = target)
  | fmt_Errorf _ (Some e) => errors_Is e target
  | _ => false
  end.

(** [errors.As(err, &bpe)] with [bpe] of type [*BadPackageError]. *)
Fixpoint errors_As_BadPackageError (err : error) : bool :=
  match err with
  | BadPackageError _ => true
  | fmt_Errorf _ (Some e) => errors_As_BadPackageError e
  | _ => false
  end.

(** The sentinel at the end of the [%w] chain, if the chain ends in one. *)
Fixpoint innermost (err : error) : option sentinel :=
  match err with
  | errors_New s => Some s
  | fmt_Errorf _ (Some e) => innermost e
  | _ => None
  end.

(** ** Computations that may panic *)
Inductive go (A : Type) : Type :=
  | Ret (a : A)
  | Panic (v : string).
Arguments Ret {A} a.
Arguments Panic {A} v.

#[global] Instance go_ret : MRet go := fun A a => Ret a.
#[global] Instance go_bind : MBind go := fun A B k m =>
  match m with
  | Ret a => k a
  | Panic v => Panic v
  end.

(** ** Data *)

(** An entry of a [zip.Reader]: the header fields fetch.go reads and what
    opening and reading the entry gives. *)
Inductive zipBody : Type :=
  | OpenFails (e : error)
  | ReadFails (e : error)
  | CloseFails (b : string) (e : error)
  | Contents (b : string).

Record zipFile : Type := {
  Name : string;
  IsDir : bool;                (* f.Mode().IsDir() *)
  UncompressedSize64 : Z;
  body : zipBody
}.

(** [internal.PackageVersionState] *)
Record PackageVersionState : Type := {
  pvs_ModulePath : string;
  pvs_PackagePath : string;
  pvs_Version : string;
  pvs_Status : Z;
  pvs_Error : string
}.

(** [internal.Readme] *)
Record Readme : Type := {
  Filepath : string;
  readme_Contents : string
}.

(** [licenses.Metadata], opaque here. *)
Definition licenseMetadata : Type := string.

(** [internal.LegacyPackage] *)
Record LegacyPackage : Type := {
  Path : string;
  pkg_Name : string;
  Synopsis : string;
  V1Path : string;
  Imports : list string;
  DocumentationHTML : string;
  GOOS : string;
  GOARCH : string;
  IsRedistributable : bool;
  Licenses : list licenseMetadata
}.

(** [ast.File]: the package clause and the text it was parsed from. *)
Record astFile : Type := {
  ast_Name : string;           (* pf.Name.Name *)
  ast_src : string
}.

(** [doc.Package] of the go/doc fork, the fields fetch.go touches. *)
Record docFunc : Type := { func_Name : string; func_decl : string }.
Record docType : Type := {
  type_decl : string;
  type_Consts : list string;
  type_Vars : list string;
  type_Funcs : list docFunc
}.
Record docPackage : Type := {
  doc_ImportPath : string;
  doc_Name : string;
  doc_Doc : string;
  doc_Imports : list string;
  doc_Consts : list string;
  doc_Vars : list string;
  doc_Funcs : list docFunc;
  doc_Types : list docType
}.

(** [dochtml.ModuleInfo] *)
Record dochtmlModuleInfo : Type := {
  mi_ModulePath : string;
  mi_ResolvedVersion : string;
  ModulePackages : gset string
}.

(** What [parser.ParseFile] returns: a file, or an error together with
    the partial file, if any. *)
Inductive parseResult : Type :=
  | parsed (pf : astFile)
  | parseError (pf : option astFile) (err : error).

(** [licenses.License] and the queries of a [licenses.Detector]. *)
Record License : Type := {
  Metadata : licenseMetadata;
  license_Contents : string
}.

Record Detector : Type := {
  AllLicenses : list License;
  ModuleIsRedistributable : bool;
  PackageInfo : string -> bool * list License
}.

(** [internal.Unit], opaque here. *)
Definition Unit : Type := string.

(** [internal.Module] without its SourceInfo. *)
Record Module : Type := {
  m_ModulePath : string;
  m_Version : string;
  m_CommitTime : Z;
  m_IsRedistributable : bool;
  HasGoMod : bool;
  LegacyReadmeFilePath : string;
  LegacyReadmeContents : string;
  LegacyPackages : list LegacyPackage;
  m_Licenses : list License;
  Units : list Unit
}.

(** [fetch.ModuleInfo] *)
Record ModuleInfo : Type := {
  ModulePath : string;
  RequestedVersion : string;
  ResolvedVersion : string;
  CommitTime : Z;
  ZipSize : Z;
  info_Error : option error
}.

(** [fetch.FetchResult] *)
Record FetchResult : Type := {
  fr_ModulePath : string;
  fr_RequestedVersion : string;
  fr_ResolvedVersion : string;
  GoModPath : string;
  fr_Status : Z;
  fr_Error : option error;
  fr_Module : option Module;
  fr_PackageVersionStates : list PackageVersionState
}.


(** ** The world outside fetch.go

    The limits are package-level constants and variables of package fetch
    declared in a file that is not at hand; tests change them.  The other
    fields are the functions of other packages that fetch.go calls. *)
Class World : Type := {
  (* limits *)
  MaxFileSize : Z;
  maxPackagesPerModule : nat;
  maxImportsPerPackage : nat;
  MaxDocumentationHTML : Z;
  (* golang.org/x/pkgsite/internal/stdlib *)
  stdlib_ModulePath : string;
  stdlib_Zip : string -> (list zipFile * Z) + error;
  (* golang.org/x/pkgsite/internal/proxy *)
  proxy_GetMod : string -> string -> string + error;
  proxy_GetZip : string -> string -> list zipFile + error;
  (* golang.org/x/pkgsite/internal/derrors: texts of the sentinels, and the
     status codes of the per-package kinds *)
  sentinel_text : sentinel -> string;
  package_code : sentinel -> Z;
  (* golang.org/x/mod *)
  module_CheckImportPath : string -> option error;
  modfile_ModulePath : string -> string;
  (* go/build: bctx.MatchFile(".", name) on the file contents, for a
     build context with the given GOOS and GOARCH *)
  MatchFile : string -> string -> string -> string -> go (bool * option error);
  (* go/parser: ParseFile(fset, name, b, ParseComments) *)
  parser_ParseFile : string -> string -> go parseResult;
  (* fork of go/doc: NewFromFiles(fset, files, importPath, mode), the last
     argument telling whether mode has AllDecls; and Synopsis *)
  doc_NewFromFiles : list astFile -> string -> bool -> go (docPackage + error);
  doc_Synopsis : string -> string;
  (* sort.Slice on d.Funcs by name; not a stable sort *)
  sort_Funcs : list docFunc -> list docFunc;
  (* dochtml.Render(ctx, fset, d, opts) with opts.ModInfo and opts.Limit;
     the first argument is the directory, which fixes the link functions *)
  dochtml_Render : string -> docPackage -> dochtmlModuleInfo -> Z -> go (string * option error);
  (* internal.V1Path *)
  internal_V1Path : string -> string -> string;
  (* licenses.NewDetector(modulePath, version, zipReader, logf) *)
  licenses_NewDetector : string -> string -> list zipFile -> Detector;
  (* moduleUnits of package fetch *)
  moduleUnits : string -> string -> list LegacyPackage -> list Readme -> Detector -> list Unit;
  (* runtime/debug.Stack() *)
  debug_Stack : string;
  (* renderings of values that fmt prints with %v and %+v *)
  show_licenses : string;
  show_sourceInfo : string;
  (* the order in which a range statement visits a map; the first argument
     tells the range statements apart *)
  rangeOrder : forall A : Type, nat -> list (string * A) -> list (string * A)
}.

(** ** fetch.go *)
Section fetch.
Context {W : World}.

Definition http_StatusOK : Z := 200.

(** [%q] of a string without characters that need escaping. *)
Definition dquote : string := String (ascii_of_nat 34) EmptyString.
Definition fmt_q (s : string) : string := dquote +:+ s +:+ dquote.

(** [%d] *)
Definition fmt_d (z : Z) : string := NilZero.string_of_int (Z.to_int z).

(** [err.Error()] *)
Fixpoint Error (err : error) : string :=
  match err with
  | errors_New errModuleContainsNoPackages => "module contains 0 packages"
  | errors_New errMalformedZip => "module zip is malformed"
  | errors_New s => sentinel_text s
  | fmt_Errorf msg _ => msg
  | BadPackageError e => Error e
  | MultiplePackageError dir pkgs files =>
      "found packages " +:+ nth 0 pkgs "" +:+ " (" +:+ nth 0 files "" +:+ ") and "
        +:+ nth 1 pkgs "" +:+ " (" +:+ nth 1 files "" +:+ ") in " +:+ dir
  | foreign msg => msg
  end.

(** Modelled from the spec: [derrors.Wrap] (package derrors is not at
    hand).  Section 7: a wrapped error is prefixed with a context string
    and keeps the innermost kind. *)
Definition derrors_Wrap (context : string) (err : option error) : option error :=
  match err with
  | Some e => Some (fmt_Errorf (context +:+ ": " +:+ Error e) (Some e))
  | None => None
  end.

(** Modelled from the spec: [derrors.Add], taken to wrap as
    [derrors.Wrap] does. *)
Definition derrors_Add (context : string) (err : option error) : option error :=
  derrors_Wrap context err.

(** Modelled from the spec: [derrors.ToStatus] (package derrors is not at
    hand), by the status table of section 6; the table gives no number for
    the per-package kinds, which are read from the world; an error of no
    kind is an internal failure. *)
Definition ToStatus (err : error) : Z :=
  match innermost err with
  | Some NotFound => 404
  | Some BadRequest => 400
  | Some ProxyTimedOut => 408
  | Some BadModule => 490
  | Some AlternativeModule => 491
  | Some HasIncompletePackages => 290
  | Some PackageBadImportPath => package_code PackageBadImportPath
  | Some PackageInvalidContents => package_code PackageInvalidContents
  | Some PackageBuildContextNotSupported =>
      package_code PackageBuildContextNotSupported
  | Some PackageMaxFileSizeLimitExceeded =>
      package_code PackageMaxFileSizeLimitExceeded
  | Some PackageDocumentationHTMLTooLarge =>
      package_code PackageDocumentationHTMLTooLarge
  | _ => 500
  end.

(** moduleVersionDir formats the content subdirectory for the given
    modulePath and version. *)
Definition moduleVersionDir (modulePath version : string) : string :=
  modulePath +:+ "@" +:+ version.

(** readZipFile decompresses zip file f and returns its uncompressed
    contents; limit is the maximum number of bytes to read. *)
Definition readZipFile (f : zipFile) (limit : Z) : string + error :=
  let add (e : error) : string + error :=
    match derrors_Add ("readZipFile(" +:+ fmt_q (Name f) +:+ ")") (Some e) with
    | Some e' => inr e'
    | None => inr e
    end in
  match body f with
  | OpenFails e => add (fmt_Errorf ("f.Open(): " +:+ Error e) None)
  | ReadFails e => add (fmt_Errorf ("ioutil.ReadAll(r): " +:+ Error e) None)
  | CloseFails _ e => add (fmt_Errorf ("closing: " +:+ Error e) None)
  | Contents b => inl (strings.take (Z.to_N limit) b)
  end.

Definition excludedReadmeExts : gmap string bool :=
  {[ ".go" := true; ".vendor" := true ]}.

(** isReadme reports whether file is README or if the base name of file,
    with or without the extension, is equal to expectedFile. *)
Definition isReadme (file : string) : bool :=
  let expectedFile := "README" in
  let base := path.Base file in
  let ext := path.Ext base in
  negb (default false (excludedReadmeExts !! ext))
    && strings.EqualFold (strings.TrimSuffix base ext) expectedFile.

(** extractReadmesFromZip returns the file path and contents of all files
    from r that are README files. *)
Fixpoint extractReadmes_loop (modulePath resolvedVersion : string)
    (files : list zipFile) (readmes : list Readme) : list Readme + error :=
  match files with
  | [] => inl readmes
  | zipFile :: rest =>
      if isReadme (Name zipFile) then
        if MaxFileSize <? UncompressedSize64 zipFile then
          inr (fmt_Errorf ("file size " +:+ fmt_d (UncompressedSize64 zipFile)
                             +:+ " exceeds max limit " +:+ fmt_d MaxFileSize) None)
        else
          match readZipFile zipFile MaxFileSize with
          | inr err => inr err
          | inl c =>
              extractReadmes_loop modulePath resolvedVersion rest
                (readmes ++ [ {| Filepath :=
                                   strings.TrimPrefix (Name zipFile)
                                     (moduleVersionDir modulePath resolvedVersion +:+ "/");
                                 readme_Contents := c |} ])
          end
      else extractReadmes_loop modulePath resolvedVersion rest readmes
  end.

Definition extractReadmesFromZip (modulePath resolvedVersion : string)
    (r : list zipFile) : list Readme + error :=
  extractReadmes_loop modulePath resolvedVersion r [].

(** ignoredByGoTool reports whether the given import path corresponds to a
    directory that would be ignored by the go tool. *)
Definition ignoredByGoTool (importPath : string) : bool :=
  existsb (fun el => strings.HasPrefix el "." || strings.HasPrefix el "_"
                     || String.eqb el "testdata")
          (strings.Split importPath path.slash).

(** isVendored reports whether the given import path corresponds to a Go
    package that is inside a vendor directory. *)
Definition isVendored (importPath : string) : bool :=
  strings.HasPrefix importPath "vendor/" || strings.Contains importPath "/vendor/".

(** zipContainsFilename reports whether there is a file with the given
    name in the zip. *)
Definition zipContainsFilename (r : list zipFile) (name : string) : bool :=
  existsb (fun f => String.eqb (Name f) name) r.

(** *** extractPackagesFromZip, phase 1

    The three variables the loop over [r.File] updates. *)
Record phase1State : Type := {
  dirs : gmap string (list zipFile);
  incompleteDirs : gset string;
  packageVersionStates : list PackageVersionState
}.

Definition phase1Init : phase1State :=
  {| dirs := ∅; incompleteDirs := ∅; packageVersionStates := [] |}.

(** The body of the phase-1 loop for one entry: [inl] is the state with
    which the loop goes on, [inr] the error the function returns. *)
Definition phase1File (modulePath resolvedVersion : string)
    (st : phase1State) (f : zipFile) : phase1State + error :=
  let modulePrefix := moduleVersionDir modulePath resolvedVersion +:+ "/" in
  if IsDir f then inl st
  else if negb (strings.HasPrefix (Name f) modulePrefix) then
    inr (fmt_Errorf ("expected file to have prefix " +:+ fmt_q modulePrefix
                       +:+ "; got = " +:+ fmt_q (Name f) +:+ ": "
                       +:+ Error (errors_New errMalformedZip))
                    (Some (errors_New errMalformedZip)))
  else
    let innerPath := path.Dir (strings.drop (String.length modulePrefix) (Name f)) in
    if bool_decide (innerPath ∈ incompleteDirs st) then inl st
    else
      let importPath := path.Join [modulePath; innerPath] in
      if ignoredByGoTool importPath || isVendored importPath then inl st
      else if negb (strings.HasSuffix (Name f) ".go") then inl st
      else
        match module_CheckImportPath importPath with
        | Some err =>
            inl {| dirs := dirs st;
                   incompleteDirs := {[ innerPath ]} ∪ incompleteDirs st;
                   packageVersionStates :=
                     packageVersionStates st ++
                     [ {| pvs_ModulePath := modulePath;
                          pvs_PackagePath := importPath;
                          pvs_Version := resolvedVersion;
                          pvs_Status := ToStatus (errors_New PackageBadImportPath);
                          pvs_Error := Error err |} ] |}
        | None =>
            if MaxFileSize <? UncompressedSize64 f then
              let status := ToStatus (errors_New PackageMaxFileSizeLimitExceeded) in
              let err := "Unable to process " +:+ Name f +:+ ": file size "
                           +:+ fmt_d (UncompressedSize64 f)
                           +:+ " exceeds max limit " +:+ fmt_d MaxFileSize in
              inl {| dirs := dirs st;
                     incompleteDirs := {[ innerPath ]} ∪ incompleteDirs st;
                     packageVersionStates :=
                       packageVersionStates st ++
                       [ {| pvs_ModulePath := modulePath;
                            pvs_PackagePath := importPath;
                            pvs_Version := resolvedVersion;
                            pvs_Status := status;
                            pvs_Error := err |} ] |}
            else
              let dirs' :=
                <[ innerPath := default [] (dirs st !! innerPath) ++ [f] ]> (dirs st) in
              if (maxPackagesPerModule <? size dirs')%nat then
                inr (fmt_Errorf (fmt_d (Z.of_nat (size dirs')) +:+ " packages found in "
                                   +:+ fmt_q modulePath +:+ "; exceeds limit "
                                   +:+ fmt_d (Z.of_nat maxPackagesPerModule)
                                   +:+ " for maxPackagePerModule") None)
              else
                inl {| dirs := dirs';
                       incompleteDirs := incompleteDirs st;
                       packageVersionStates := packageVersionStates st |}
        end.

(** The phase-1 loop. *)
Fixpoint phase1 (modulePath resolvedVersion : string)
    (files : list zipFile) (st : phase1State) : phase1State + error :=
  match files with
  | [] => inl st
  | f :: rest =>
      match phase1File modulePath resolvedVersion st f with
      | inl st' => phase1 modulePath resolvedVersion rest st'
      | inr err => inr err
      end
  end.

(** *** Loading one package *)

(** Go environments used to construct build contexts in loadPackage. *)
Definition goEnvs : list (string * string) :=
  [ ("linux", "amd64");
    ("windows", "amd64");
    ("darwin", "amd64");
    ("js", "wasm");
    ("linux", "js") ].

Definition docTooLargeReplacement : string :=
  "<p>Documentation is too large to display.</p>".

Definition newline : string := String (ascii_of_nat 10) EmptyString.

(** matchingFiles, first loop: populate the map with all the zip files. *)
Fixpoint readFiles (zipGoFiles : list zipFile) (files : gmap string string)
  : gmap string string + error :=
  match zipGoFiles with
  | [] => inl files
  | f :: rest =>
      let name := snd (path.Split (Name f)) in
      match readZipFile f MaxFileSize with
      | inr err => inr err
      | inl b => readFiles rest (<[ name := b ]> files)
      end
  end.

(** matchingFiles, second loop: drop the files that the build context
    excludes.  [names] is the order in which the range visits the map. *)
Fixpoint matchFiles (goos goarch : string) (names : list (string * string))
    (files : gmap string string) : go (gmap string string + error) :=
  match names with
  | [] => Ret (inl files)
  | (name, _) :: rest =>
      '(match_, err) ← MatchFile goos goarch name (default "" (files !! name));
      match err with
      | Some e =>
          Ret (inr (BadPackageError
                      (fmt_Errorf ("bctx.MatchFile(" +:+ fmt_q "." +:+ ", "
                                     +:+ fmt_q name +:+ "): " +:+ Error e)
                                  (Some e))))
      | None =>
          if negb match_ then matchFiles goos goarch rest (delete name files)
          else matchFiles goos goarch rest files
      end
  end.

(** matchingFiles returns a map from file names to their contents, read
    from zipGoFiles.  It includes only those files that match the build
    context determined by goos and goarch. *)
Definition matchingFiles (goos goarch : string) (zipGoFiles : list zipFile)
  : go (gmap string string + error) :=
  let wrap (err : error) : error :=
    default err
      (derrors_Wrap ("matchingFiles(" +:+ fmt_q goos +:+ ", " +:+ fmt_q goarch
                       +:+ ", zipGoFiles)") (Some err)) in
  match readFiles zipGoFiles ∅ with
  | inr err => Ret (inr (wrap err))
  | inl files =>
      r ← matchFiles goos goarch (rangeOrder _ 3%nat (map_to_list files)) files;
      match r with
      | inr err => Ret (inr (wrap err))
      | inl files' => Ret (inl files')
      end
  end.

(** The variables of the parsing loop of loadPackageWithBuildContext. *)
Record parseState : Type := {
  goFiles : gmap string astFile;
  allGoFiles : list astFile;
  packageName : string;
  packageNameFile : string
}.

Definition parseInit : parseState :=
  {| goFiles := ∅; allGoFiles := []; packageName := ""; packageNameFile := "" |}.

(** Parse .go files and add them to the goFiles slice. *)
Fixpoint parseFiles (innerPath : string) (files : list (string * string))
    (ps : parseState) : go (parseState + error) :=
  match files with
  | [] => Ret (inl ps)
  | (name, b) :: rest =>
      r ← parser_ParseFile name b;
      match r with
      | parseError None err =>
          Ret (inr (fmt_Errorf ("internal error: the source couldn't be read: "
                                  +:+ Error err) None))
      | parseError (Some _) err => Ret (inr (BadPackageError err))
      | parsed pf =>
          let all := allGoFiles ps ++ [pf] in
          if strings.HasSuffix name "_test.go" then
            parseFiles innerPath rest
              {| goFiles := goFiles ps; allGoFiles := all;
                 packageName := packageName ps;
                 packageNameFile := packageNameFile ps |}
          else
            let goFiles' := <[ name := pf ]> (goFiles ps) in
            if (size goFiles' =? 1)%nat then
              parseFiles innerPath rest
                {| goFiles := goFiles'; allGoFiles := all;
                   packageName := ast_Name pf; packageNameFile := name |}
            else if negb (String.eqb (ast_Name pf) (packageName ps)) then
              Ret (inr (BadPackageError
                          (MultiplePackageError innerPath
                             [packageName ps; ast_Name pf]
                             [packageNameFile ps; name])))
            else
              parseFiles innerPath rest
                {| goFiles := goFiles'; allGoFiles := all;
                   packageName := packageName ps;
                   packageNameFile := packageNameFile ps |}
      end
  end.

(** The treatment of the "builtin" package: move the constants, variables
    and functions of every type to the package, then sort the functions. *)
Definition unassociate (d : docPackage) : docPackage :=
  let moved :=
    fold_left
      (fun (acc : list string * list string * list docFunc) (t : docType) =>
         let '(cs, vs, fs) := acc in
         (cs ++ type_Consts t, vs ++ type_Vars t, fs ++ type_Funcs t))
      (doc_Types d) (doc_Consts d, doc_Vars d, doc_Funcs d) in
  let '(cs, vs, fs) := moved in
  {| doc_ImportPath := doc_ImportPath d;
     doc_Name := doc_Name d;
     doc_Doc := doc_Doc d;
     doc_Imports := doc_Imports d;
     doc_Consts := cs;
     doc_Vars := vs;
     doc_Funcs := sort_Funcs fs;
     doc_Types :=
       map (fun t => {| type_decl := type_decl t; type_Consts := [];
                        type_Vars := []; type_Funcs := [] |}) (doc_Types d) |}.

(** The first part of loadPackageWithBuildContext, up to the check of the
    number of imports: the documentation of the package and its name, or
    what the function returns without rendering. *)
Definition loadPackageDoc (goos goarch : string)
    (zipGoFiles : list zipFile) (innerPath : string)
    (modInfo : dochtmlModuleInfo)
  : go ((docPackage * string) + (option LegacyPackage * option error)) :=
  let modulePath := mi_ModulePath modInfo in
  files ← matchingFiles goos goarch zipGoFiles;
  match files with
  | inr err => Ret (inr (None, Some err))
  | inl files =>
  parsedFiles ← parseFiles innerPath (rangeOrder _ 4%nat (map_to_list files)) parseInit;
  match parsedFiles with
  | inr err => Ret (inr (None, Some err))
  | inl ps =>
  if (size (goFiles ps) =? 0)%nat then Ret (inr (None, None))
  else
    let builtin := String.eqb modulePath stdlib_ModulePath
                   && String.eqb innerPath "builtin" in
    let noFiltering := builtin in
    let noTypeAssociation := builtin in
    let importPath := path.Join [modulePath; innerPath] in
    d ← doc_NewFromFiles (allGoFiles ps) importPath noFiltering;
    match d with
    | inr err =>
        Ret (inr (None, Some (fmt_Errorf ("doc.NewFromFiles: " +:+ Error err) None)))
    | inl d =>
    if negb (String.eqb (doc_ImportPath d) importPath)
       || negb (String.eqb (doc_Name d) (packageName ps)) then
      Panic ("internal error: *doc.Package has an unexpected import path ("
               +:+ fmt_q (doc_ImportPath d) +:+ " != " +:+ fmt_q importPath
               +:+ ") or package name (" +:+ fmt_q (doc_Name d) +:+ " != "
               +:+ fmt_q (packageName ps) +:+ ")")
    else
      let d := if noTypeAssociation then unassociate d else d in
      if (maxImportsPerPackage <? length (doc_Imports d))%nat then
        Ret (inr (None,
             Some (fmt_Errorf (fmt_d (Z.of_nat (length (doc_Imports d)))
                                 +:+ " imports found package " +:+ fmt_q importPath
                                 +:+ "; exceeds limit "
                                 +:+ fmt_d (Z.of_nat maxImportsPerPackage)
                                 +:+ " for maxImportsPerPackage") None)))
      else Ret (inl (d, packageName ps))
    end
  end
  end.

(** loadPackageWithBuildContext before the deferred [derrors.Wrap]: the
    part above, then the rendering of the documentation. *)
Definition loadPackageWithBuildContext_body (goos goarch : string)
    (zipGoFiles : list zipFile) (innerPath : string)
    (modInfo : dochtmlModuleInfo) : go (option LegacyPackage * option error) :=
  let modulePath := mi_ModulePath modInfo in
  r ← loadPackageDoc goos goarch zipGoFiles innerPath modInfo;
  match r with
  | inr early => Ret early
  | inl (d, packageName) =>
      let result (docHTML : string) (err : option error) :=
        let importPath :=
          if String.eqb modulePath stdlib_ModulePath then innerPath
          else path.Join [modulePath; innerPath] in
        let v1path := internal_V1Path importPath modulePath in
        (Some {| Path := importPath;
                 pkg_Name := packageName;
                 Synopsis := doc_Synopsis (doc_Doc d);
                 V1Path := v1path;
                 Imports := doc_Imports d;
                 DocumentationHTML := docHTML;
                 GOOS := goos;
                 GOARCH := goarch;
                 IsRedistributable := false;
                 Licenses := [] |},
         err) in
      '(docHTML, err) ← dochtml_Render innerPath d modInfo MaxDocumentationHTML;
      match err with
      | Some e =>
          if errors_Is e ErrTooLarge then Ret (result docTooLargeReplacement err)
          else Ret (None, Some (fmt_Errorf ("dochtml.Render: " +:+ Error e) None))
      | None => Ret (result docHTML None)
      end
  end.

(** loadPackageWithBuildContext loads a Go package made of .go files in
    zipGoFiles using a build context constructed from the given GOOS and
    GOARCH values. *)
Definition loadPackageWithBuildContext (goos goarch : string)
    (zipGoFiles : list zipFile) (innerPath : string)
    (modInfo : dochtmlModuleInfo) : go (option LegacyPackage * option error) :=
  '(pkg, err) ← loadPackageWithBuildContext_body goos goarch zipGoFiles innerPath modInfo;
  Ret (pkg,
       derrors_Wrap ("loadPackageWithBuildContext(" +:+ fmt_q goos +:+ ", "
                       +:+ fmt_q goarch +:+ ", zipGoFiles, " +:+ fmt_q innerPath
                       +:+ ", " +:+ fmt_q (mi_ModulePath modInfo) +:+ ", "
                       +:+ show_sourceInfo +:+ ")") err).

(** The loop of loadPackage over the environments still to try. *)
Fixpoint loadPackage_loop (envs : list (string * string))
    (zipGoFiles : list zipFile) (innerPath : string)
    (modInfo : dochtmlModuleInfo) : go (option LegacyPackage * option error) :=
  match envs with
  | [] => Ret (None, None)
  | env :: rest =>
      '(pkg, err) ← loadPackageWithBuildContext (fst env) (snd env)
                      zipGoFiles innerPath modInfo;
      match err with
      | Some e =>
          if negb (errors_Is e ErrTooLarge) then Ret (None, err)
          else match pkg with
               | Some _ => Ret (pkg, err)
               | None => loadPackage_loop rest zipGoFiles innerPath modInfo
               end
      | None =>
          match pkg with
          | Some _ => Ret (pkg, err)
          | None => loadPackage_loop rest zipGoFiles innerPath modInfo
          end
      end
  end.

(** loadPackage loads a Go package by calling loadPackageWithBuildContext,
    trying several build contexts in turn. *)
Definition loadPackage (zipGoFiles : list zipFile) (innerPath : string)
    (modInfo : dochtmlModuleInfo) : go (option LegacyPackage * option error) :=
  loadPackage_loop goEnvs zipGoFiles innerPath modInfo.

(** "Environment [env] yields nil": no package and no error. *)
Definition yieldsNil (l : list zipFile) (ip : string) (mi : dochtmlModuleInfo)
    (env : string * string) : Prop :=
  loadPackageWithBuildContext (fst env) (snd env) l ip mi = Ret (None, None).

(** *** extractPackagesFromZip, phase 2 *)
Record phase2State : Type := {
  p2_incompleteDirs : gset string;
  p2_packageVersionStates : list PackageVersionState;
  pkgs : list LegacyPackage
}.

(** The package with the license information of its directory. *)
Definition withLicenses (d : option Detector) (innerPath : string)
    (pkg : LegacyPackage) : LegacyPackage :=
  match d with
  | Some d =>
      let '(isRedist, lics) := PackageInfo d innerPath in
      {| Path := Path pkg;
         pkg_Name := pkg_Name pkg;
         Synopsis := Synopsis pkg;
         V1Path := V1Path pkg;
         Imports := Imports pkg;
         DocumentationHTML := DocumentationHTML pkg;
         GOOS := GOOS pkg;
         GOARCH := GOARCH pkg;
         IsRedistributable := isRedist;
         Licenses := Licenses pkg ++ map Metadata lics |}
  | None => pkg
  end.

(** The body of the phase-2 loop for one directory of [dirs]. *)
Definition phase2Dir (modulePath resolvedVersion : string) (d : option Detector)
    (modInfo : dochtmlModuleInfo) (st : phase2State)
    (entry : string * list zipFile) : go (phase2State + error) :=
  let '(innerPath, goFiles) := entry in
  if bool_decide (innerPath ∈ p2_incompleteDirs st) then Ret (inl st)
  else
    '(pkg, err) ← loadPackage goFiles innerPath modInfo;
    let classified : (gset string * option sentinel * string) + error :=
      match err with
      | Some e =>
          if errors_As_BadPackageError e then
            inl ({[ innerPath ]} ∪ p2_incompleteDirs st,
                 Some PackageInvalidContents, Error e)
          else if errors_Is e ErrTooLarge then
            inl (p2_incompleteDirs st,
                 Some PackageDocumentationHTMLTooLarge, Error e)
          else
            inr (fmt_Errorf ("unexpected error loading package: " +:+ Error e) None)
      | None => inl (p2_incompleteDirs st, None, "")
      end in
    match classified with
    | inr e => Ret (inr e)
    | inl (incomplete, status, errMsg) =>
        let emit (incomplete : gset string) (status : option sentinel)
                 (pkgs : list LegacyPackage) (pkgPath : string) : phase2State :=
          let code := match status with
                      | Some s => ToStatus (errors_New s)
                      | None => http_StatusOK
                      end in
          {| p2_incompleteDirs := incomplete;
             p2_packageVersionStates :=
               p2_packageVersionStates st ++
               [ {| pvs_ModulePath := modulePath;
                    pvs_PackagePath := pkgPath;
                    pvs_Version := resolvedVersion;
                    pvs_Status := code;
                    pvs_Error := errMsg |} ];
             pkgs := pkgs |} in
        match pkg with
        | None =>
            let pkgPath := path.Join [modulePath; innerPath] in
            if (0 <? length goFiles)%nat then
              Ret (inl (emit ({[ innerPath ]} ∪ incomplete)
                             (Some PackageBuildContextNotSupported)
                             (pkgs st) pkgPath))
            else Ret (inl (emit incomplete status (pkgs st) pkgPath))
        | Some pkg =>
            let pkg := withLicenses d innerPath pkg in
            Ret (inl (emit incomplete status (pkgs st ++ [pkg]) (Path pkg)))
        end
    end.

(** The phase-2 loop; [entries] is the order in which the range visits
    [dirs]. *)
Fixpoint phase2 (modulePath resolvedVersion : string) (d : option Detector)
    (modInfo : dochtmlModuleInfo) (entries : list (string * list zipFile))
    (st : phase2State) : go (phase2State + error) :=
  match entries with
  | [] => Ret (inl st)
  | entry :: rest =>
      r ← phase2Dir modulePath resolvedVersion d modInfo st entry;
      match r with
      | inl st' => phase2 modulePath resolvedVersion d modInfo rest st'
      | inr err => Ret (inr err)
      end
  end.

(** modInfo, all the module information a package in the module needs to
    render its documentation: populated from [dirs] after phase 1. *)
Definition moduleInfoOf (modulePath resolvedVersion : string)
    (dirs : gmap string (list zipFile)) : dochtmlModuleInfo :=
  {| mi_ModulePath := modulePath;
     mi_ResolvedVersion := resolvedVersion;
     ModulePackages :=
       set_map (fun pkgName => path.Join [modulePath; pkgName]) (dom dirs) |}.

(** The variables with which phase 2 starts. *)
Definition phase2Init (st1 : phase1State) : phase2State :=
  {| p2_incompleteDirs := incompleteDirs st1;
     p2_packageVersionStates := packageVersionStates st1;
     pkgs := [] |}.

(** extractPackagesFromZip without its deferred recovery: a panic of the
    package processing code is the outcome [Panic]. *)
Definition extractPackagesFromZip_body (modulePath resolvedVersion : string)
    (r : list zipFile) (d : option Detector)
  : go (list LegacyPackage * list PackageVersionState * option error) :=
  match phase1 modulePath resolvedVersion r phase1Init with
  | inr err => Ret ([], [], Some err)
  | inl st1 =>
      let modInfo := moduleInfoOf modulePath resolvedVersion (dirs st1) in
      r2 ← phase2 modulePath resolvedVersion d modInfo
             (rangeOrder _ 2%nat (map_to_list (dirs st1)))
             (phase2Init st1);
      match r2 with
      | inr err =>
          Ret ([], [], Some err)
      | inl st2 =>
          if (length (pkgs st2) =? 0)%nat then
            Ret ([], p2_packageVersionStates st2,
                 Some (errors_New errModuleContainsNoPackages))
          else Ret (pkgs st2, p2_packageVersionStates st2, None)
      end
  end.

(** extractPackagesFromZip returns a slice of packages from the module zip
    r.  The deferred function recovers a panic and turns it into the
    returned error. *)
Definition extractPackagesFromZip (modulePath resolvedVersion : string)
    (r : list zipFile) (d : option Detector)
  : go (list LegacyPackage * list PackageVersionState * option error) :=
  match extractPackagesFromZip_body modulePath resolvedVersion r d with
  | Panic e =>
      Ret ([], [],
           Some (fmt_Errorf ("internal panic: " +:+ e +:+ newline +:+ newline
                               +:+ debug_Stack) None))
  | Ret result => Ret result
  end.

(** processZipFile extracts information from the module version zip. *)
Definition processZipFile (modulePath resolvedVersion : string) (commitTime : Z)
    (zipReader : list zipFile)
  : go (option Module * list PackageVersionState * option error) :=
  let fail (err : error) : go (option Module * list PackageVersionState * option error) :=
    Ret (None, [],
         derrors_Wrap ("processZipFile(" +:+ fmt_q modulePath +:+ ", "
                         +:+ fmt_q resolvedVersion +:+ ")") (Some err)) in
  match extractReadmesFromZip modulePath resolvedVersion zipReader with
  | inr err =>
      fail (fmt_Errorf ("extractReadmesFromZip(" +:+ fmt_q modulePath +:+ ", "
                          +:+ fmt_q resolvedVersion +:+ ", zipReader): "
                          +:+ Error err) None)
  | inl readmes =>
      let d := licenses_NewDetector modulePath resolvedVersion zipReader in
      let allLicenses := AllLicenses d in
      '(packages, packageVersionStates, err) ←
        extractPackagesFromZip modulePath resolvedVersion zipReader (Some d);
      match err with
      | Some e =>
          if errors_Is e errModuleContainsNoPackages || errors_Is e errMalformedZip
          then fail (fmt_Errorf (Error e +:+ ": " +:+ Error (errors_New BadModule))
                                (Some (errors_New BadModule)))
          else fail (fmt_Errorf ("extractPackagesFromZip(" +:+ fmt_q modulePath
                                   +:+ ", " +:+ fmt_q resolvedVersion
                                   +:+ ", zipReader, " +:+ show_licenses +:+ "): "
                                   +:+ Error e) None)
      | None =>
          let hasGoMod :=
            zipContainsFilename zipReader
              (path.Join [moduleVersionDir modulePath resolvedVersion; "go.mod"]) in
          let '(readmeFilePath, readmeContents) :=
            match filter (fun r => path.Dir (Filepath r) = ".") readmes with
            | r :: _ => (Filepath r, readme_Contents r)
            | [] => ("", "")
            end in
          Ret (Some {| m_ModulePath := modulePath;
                       m_Version := resolvedVersion;
                       m_CommitTime := commitTime;
                       m_IsRedistributable := ModuleIsRedistributable d;
                       HasGoMod := hasGoMod;
                       LegacyReadmeFilePath := readmeFilePath;
                       LegacyReadmeContents := readmeContents;
                       LegacyPackages := packages;
                       m_Licenses := allLicenses;
                       Units := moduleUnits modulePath resolvedVersion packages readmes d |},
               packageVersionStates, None)
      end
  end.

(** The deferred function of FetchModule. *)
Definition FetchModule_deferred (mi : ModuleInfo) (fr : FetchResult) : FetchResult :=
  let '(err, status) :=
    match fr_Error fr with
    | Some e =>
        let err := derrors_Wrap ("FetchModule(" +:+ fmt_q (ModulePath mi) +:+ ", "
                                   +:+ fmt_q (RequestedVersion mi) +:+ ")") (Some e) in
        (err, match err with Some e' => ToStatus e' | None => fr_Status fr end)
    | None => (None, fr_Status fr)
    end in
  {| fr_ModulePath := fr_ModulePath fr;
     fr_RequestedVersion := fr_RequestedVersion fr;
     fr_ResolvedVersion := fr_ResolvedVersion fr;
     GoModPath := GoModPath fr;
     fr_Status := if status =? 0 then http_StatusOK else status;
     fr_Error := err;
     fr_Module := fr_Module fr;
     fr_PackageVersionStates := fr_PackageVersionStates fr |}.

(** FetchModule queries the proxy or the Go repo using the ModuleInfo
    obtained from GetModuleInfo.  It then downloads the module zip, and
    processes the contents to return an *internal.Module and related
    information. *)
Definition FetchModule (mi : ModuleInfo) : go FetchResult :=
  let result (resolved goModPath : string) (status : Z) (err : option error)
             (m : option Module) (pvs : list PackageVersionState) : FetchResult :=
    FetchModule_deferred mi
      {| fr_ModulePath := ModulePath mi;
         fr_RequestedVersion := RequestedVersion mi;
         fr_ResolvedVersion := resolved;
         GoModPath := goModPath;
         fr_Status := status;
         fr_Error := err;
         fr_Module := m;
         fr_PackageVersionStates := pvs |} in
  match info_Error mi with
  | Some e => Ret (result "" "" 0 (Some e) None [])
  | None =>
      let resolved := ResolvedVersion mi in
      let opened : (list zipFile * Z * string) + (string * error) :=
        if String.eqb (ModulePath mi) stdlib_ModulePath then
          match stdlib_Zip resolved with
          | inr err => inr ("", err)
          | inl (zipReader, commitTime) => inl (zipReader, commitTime, stdlib_ModulePath)
          end
        else
          match proxy_GetMod (ModulePath mi) resolved with
          | inr err => inr ("", err)
          | inl goModBytes =>
              let goModPath := modfile_ModulePath goModBytes in
              if String.eqb goModPath "" then
                inr ("", fmt_Errorf ("go.mod has no module path: "
                                       +:+ Error (errors_New BadModule))
                                    (Some (errors_New BadModule)))
              else if negb (String.eqb goModPath (ModulePath mi)) then
                inr (goModPath,
                     fmt_Errorf ("module path=" +:+ ModulePath mi +:+ ", go.mod path="
                                   +:+ goModPath +:+ ": "
                                   +:+ Error (errors_New AlternativeModule))
                                (Some (errors_New AlternativeModule)))
              else
                match proxy_GetZip (ModulePath mi) resolved with
                | inr err => inr (goModPath, err)
                | inl zipReader => inl (zipReader, CommitTime mi, goModPath)
                end
          end in
      match opened with
      | inr (goModPath, err) => Ret (result resolved goModPath 0 (Some err) None [])
      | inl (zipReader, commitTime, goModPath) =>
          '(mod_, pvs, err) ← processZipFile (ModulePath mi) resolved commitTime zipReader;
          match err with
          | Some e => Ret (result resolved goModPath 0 (Some e) None [])
          | None =>
              let mod_ :=
                if String.eqb (ModulePath mi) stdlib_ModulePath then
                  (fun m => {| m_ModulePath := m_ModulePath m;
                               m_Version := m_Version m;
                               m_CommitTime := m_CommitTime m;
                               m_IsRedistributable := m_IsRedistributable m;
                               HasGoMod := true;
                               LegacyReadmeFilePath := LegacyReadmeFilePath m;
                               LegacyReadmeContents := LegacyReadmeContents m;
                               LegacyPackages := LegacyPackages m;
                               m_Licenses := m_Licenses m;
                               Units := Units m |}) <$> mod_
                else mod_ in
              let status :=
                if existsb (fun state => negb (pvs_Status state =? http_StatusOK)) pvs
                then ToStatus (errors_New HasIncompletePackages)
                else 0 in
              Ret (result resolved goModPath status None mod_ pvs)
          end
      end
  end.

(** *** Vocabulary for the statements about phase 1 *)

(** The directory of an entry inside the module, and its import path. *)
Definition innerPathOf (modulePath resolvedVersion : string) (f : zipFile) : string :=
  path.Dir (strings.drop
              (String.length (moduleVersionDir modulePath resolvedVersion +:+ "/"))
              (Name f)).

Definition importPathOf (modulePath resolvedVersion : string) (f : zipFile) : string :=
  path.Join [modulePath; innerPathOf modulePath resolvedVersion f].

(** The entries for which the phase-1 loop gets to the comparison with
    MaxFileSize: non-directory entries under the module prefix, with suffix
    .go, in a directory that is not yet incomplete, neither ignored by the
    go tool nor vendored, and with a valid import path. *)
Definition reachesSizeCheck (modulePath resolvedVersion : string)
    (st : phase1State) (f : zipFile) : bool :=
  let importPath := importPathOf modulePath resolvedVersion f in
  negb (IsDir f)
  && strings.HasPrefix (Name f) (moduleVersionDir modulePath resolvedVersion +:+ "/")
  && negb (bool_decide (innerPathOf modulePath resolvedVersion f ∈ incompleteDirs st))
  && negb (ignoredByGoTool importPath || isVendored importPath)
  && strings.HasSuffix (Name f) ".go"
  && match module_CheckImportPath importPath with None => true | Some _ => false end.

(** [dirs] after the entry has been appended to the list of its directory. *)
Definition dirsWith (modulePath resolvedVersion : string)
    (st : phase1State) (f : zipFile) : gmap string (list zipFile) :=
  let innerPath := innerPathOf modulePath resolvedVersion f in
  <[ innerPath := default [] (dirs st !! innerPath) ++ [f] ]> (dirs st).

(** The error of phase 1 when [n] directories are more than the limit. *)
Definition tooManyPackages (modulePath : string) (n : nat) : error :=
  fmt_Errorf (fmt_d (Z.of_nat n) +:+ " packages found in "
                +:+ fmt_q modulePath +:+ "; exceeds limit "
                +:+ fmt_d (Z.of_nat maxPackagesPerModule)
                +:+ " for maxPackagePerModule") None.

(** The state of a directory that an oversized .go file makes incomplete. *)
Definition fileTooLarge (modulePath resolvedVersion : string)
    (st : phase1State) (f : zipFile) : phase1State :=
  {| dirs := dirs st;
     incompleteDirs := {[ innerPathOf modulePath resolvedVersion f ]} ∪ incompleteDirs st;
     packageVersionStates :=
       packageVersionStates st ++
       [ {| pvs_ModulePath := modulePath;
            pvs_PackagePath := importPathOf modulePath resolvedVersion f;
            pvs_Version := resolvedVersion;
            pvs_Status := ToStatus (errors_New PackageMaxFileSizeLimitExceeded);
            pvs_Error := "Unable to process " +:+ Name f +:+ ": file size "
                           +:+ fmt_d (UncompressedSize64 f)
                           +:+ " exceeds max limit " +:+ fmt_d MaxFileSize |} ] |}.


(** A package state is explained when its status is 200, or is that of
    PackageBuildContextNotSupported, or when it has an error text. *)
Definition explained (state : PackageVersionState) : Prop :=
  pvs_Status state = http_StatusOK
  \/ pvs_Status state = ToStatus (errors_New PackageBuildContextNotSupported)
  \/ pvs_Error state <> "".


End fetch.


(** ** The fetch-and-poll coordinator

    Of [candidateModulePaths] and [fetchAndPoll], functions of
    internal/frontend/fetch.go, the tests in fetch_test.go are the only
    code at hand.  Both are modelled from the specification, sections 4.7
    and 4.9. *)

(** Modelled from the spec: [internal.VersionMap], a row of the version
    map (section 3). *)
Record VersionMap : Type := {
  vm_ModulePath : string;
  vm_RequestedVersion : string;
  vm_ResolvedVersion : string;
  vm_Status : Z
}.

(** Modelled from the spec: what the coordinator works on, the version map
    of the database and the ingestions started so far, as (module path,
    version) pairs. *)
Record frontendState : Type := {
  versionMap : gmap (string * string) VersionMap;
  started : list (string * string)
}.

(** [a] is a proper prefix of [b]: [b] is more specific than [a]. *)
Definition properPrefix (a b : string) : Prop :=
  strings.HasPrefix b a = true /\ (String.length a < String.length b)%nat.

(** The cases of TestCandidateModulePaths of fetch_test.go, which sets
    maxPathsToFetch to 7: the full path and the candidates wanted.
    [ModulePath] stands for sample.ModulePath, a constant of a file that
    is not at hand. *)
Definition TestCandidateModulePaths (ModulePath : string)
  : list (string * list string) :=
  [ ("my.module/foo", [ "my.module/foo"; "my.module" ]);
    (ModulePath, [ ModulePath ]);
    (ModulePath +:+ "/1/2/3/4/5/6/7/8/9",
     [ ModulePath +:+ "/1/2/3/4/5/6";
       ModulePath +:+ "/1/2/3/4/5";
       ModulePath +:+ "/1/2/3/4";
       ModulePath +:+ "/1/2/3";
       ModulePath +:+ "/1/2";
       ModulePath +:+ "/1";
       ModulePath ]) ].


Section frontend.

(** [maxPathsToFetch] is a package variable that the test sets to 7; the
    table of hosting domains and the version syntax check are not given by
    the specification.  [ingest c v] is the status an ingestion of [c] at
    [v] writes to the version map, [None] if the deadline passes first. *)
Variable maxPathsToFetch : nat.
Variable knownHosts : list string.
Variable validVersion : string -> bool.
Variable ingest : string -> string -> option Z.

(** Modelled from the spec: the prefixes of a path for step 2 of section
    4.9.  The leading segment lists of [parts], shortest first, joined
    with slashes; [acc] is the prefix built so far.  A prefix that ends in
    an empty segment is not a path and is left out. *)
Fixpoint prefixesFrom (acc : string) (parts : list string) : list string :=
  match parts with
  | [] => []
  | p :: rest =>
      let cur := if String.eqb acc "" then p else acc +:+ "/" +:+ p in
      if String.eqb p "" then prefixesFrom cur rest
      else cur :: prefixesFrom cur rest
  end.

(** Modelled from the spec: step 2 of section 4.9, the sequence
    [fullPath, dir(fullPath), dir(dir(fullPath)), ...] down to the first
    segment. *)
Definition pathSequence (fullPath : string) : list string :=
  rev (prefixesFrom "" (strings.Split fullPath path.slash)).

(** Modelled from the spec: step 3 of section 4.9, remove duplicates,
    keeping first occurrences in order. *)
Fixpoint dedup (seen : list string) (l : list string) : list string :=
  match l with
  | [] => []
  | x :: rest =>
      if existsb (String.eqb x) seen then dedup seen rest
      else x :: dedup (x :: seen) rest
  end.

(** Modelled from the spec: steps 1 to 3 of section 4.9, the candidate
    module paths before truncation. *)
Definition allCandidates (fullPath : string) : list string :=
  let parts := strings.Split fullPath path.slash in
  if existsb (String.eqb (hd "" parts)) knownHosts then
    [ strings.Join (firstn 3 parts) "/" ]
  else dedup [] (pathSequence fullPath).

(** Modelled from the spec: [candidateModulePaths] (internal/frontend/fetch.go
    is not at hand), by section 4.9.  Step 4 bounds the result by
    [maxPathsToFetch]; the end of the sequence that is kept is the one that
    TestCandidateModulePaths of fetch_test.go expects, the last entries. *)
Definition candidateModulePaths (fullPath : string) : list string :=
  let modulePaths := allCandidates fullPath in
  if (maxPathsToFetch <? length modulePaths)%nat
  then skipn (length modulePaths - maxPathsToFetch) modulePaths
  else modulePaths.

(** Modelled from the spec: step 4 of section 4.9 as the specification
    words it, keep the longest prefixes, those at the head of the
    sequence.  This is the reading that TestCandidateModulePaths refutes;
    it is here to be compared with [candidateModulePaths]. *)
Definition candidateModulePaths_longest (fullPath : string) : list string :=
  firstn maxPathsToFetch (allCandidates fullPath).

(** Modelled from the spec: the status [fetchAndPoll] reports for a status
    of the version map (sections 6 and 7): the site-internal codes collapse
    to standard ones. *)
Definition httpStatus (status : Z) : Z :=
  if status =? 200 then 200
  else if status =? 290 then 200
  else if status =? 404 then 404
  else if status =? 491 then 404
  else if status =? 490 then 404
  else if status =? 400 then 400
  else if status =? 408 then 408
  else 500.

(** Modelled from the spec: [UpsertVersionMap] sets the row of
    (modulePath, requestedVersion). *)
Definition UpsertVersionMap (vm : VersionMap)
    (m : gmap (string * string) VersionMap) : gmap (string * string) VersionMap :=
  <[ (vm_ModulePath vm, vm_RequestedVersion vm) := vm ]> m.

(** Modelled from the spec: the row an ingestion writes for the result of
    FetchModule (section 3, VersionMapEntry). *)
Definition versionMapOf (fr : FetchResult) : VersionMap :=
  {| vm_ModulePath := fr_ModulePath fr;
     vm_RequestedVersion := fr_RequestedVersion fr;
     vm_ResolvedVersion := fr_ResolvedVersion fr;
     vm_Status := fr_Status fr |}.

(** Modelled from the spec: step 3 of section 4.7, the answer once the
    candidates have reported, and step 4, the answer when one has not. *)
Definition pollResult (results : list (option Z)) : Z :=
  let codes := omap (fun r => httpStatus <$> r) results in
  if existsb (Z.eqb 200) codes then 200
  else if existsb (fun r => match r with None => true | Some _ => false end) results
  then 408
  else if existsb (Z.eqb 404) codes then 404
  else if existsb (Z.eqb 400) codes then 400
  else if existsb (Z.eqb 408) codes then 408
  else 500.

(** Modelled from the spec: [fetchAndPoll] (internal/frontend/fetch.go is
    not at hand), by section 4.7; the steps are taken in the order the
    section lists them. *)
Definition fetchAndPoll (st : frontendState) (modulePath fullPath version : string)
  : Z * frontendState :=
  match versionMap st !! (modulePath, version) with
  | Some vm => (httpStatus (vm_Status vm), st)
  | None =>
      if negb (validVersion version) then (400, st)
      else
        let candidates := candidateModulePaths fullPath in
        let results := map (fun c => ingest c version) candidates in
        let written :=
          fold_left
            (fun m c =>
               match ingest c version with
               | Some s =>
                   UpsertVersionMap {| vm_ModulePath := c;
                                       vm_RequestedVersion := version;
                                       vm_ResolvedVersion := version;
                                       vm_Status := s |} m
               | None => m
               end)
            candidates (versionMap st) in
        (pollResult results,
         {| versionMap := written;
            started := started st ++ map (fun c => (c, version)) candidates |})
  end.

End frontend.


(** ** A small world and sample archives, for running the definitions *)
Module sample.

(** The text after the last occurrence of [package ] in a source text. *)
Definition packageClause (b : string) : option string :=
  match String.index 0 "package " b with
  | Some i => Some (strings.drop (i + 8) b)
  | None => None
  end.

(** A toy build constraint: a text that starts with [+build X;] matches
    GOOS [X] only. *)
Definition matchFile (goos goarch name b : string) : go (bool * option error) :=
  if strings.HasPrefix b "+build !;" then Ret (false, Some (foreign "bad constraint"))
  else if strings.HasPrefix b "+build " then
    Ret (strings.HasPrefix b ("+build " +:+ goos +:+ ";"), None)
  else Ret (true, None).

Definition parseFile (name b : string) : go parseResult :=
  match packageClause b with
  | Some n => Ret (parsed {| ast_Name := n; ast_src := b |})
  | None =>
      if String.eqb b "" then Ret (parseError None (foreign "no source"))
      else Ret (parseError (Some {| ast_Name := ""; ast_src := b |})
                           (foreign (name +:+ ":1:1: expected 'package'")))
  end.

(** A documentation builder that loses the package name of a package
    called [odd]. *)
Definition newFromFiles (files : list astFile) (importPath : string) (all : bool)
  : go (docPackage + error) :=
  let n := match filter (fun f => ast_Name f ≠ "main_test") files with
           | f :: _ => ast_Name f
           | [] => ""
           end in
  Ret (inl {| doc_ImportPath := importPath;
              doc_Name := if String.eqb n "odd" then "" else n;
              doc_Doc := "Package " +:+ n;
              doc_Imports := [];
              doc_Consts := []; doc_Vars := []; doc_Funcs := []; doc_Types := [] |}).

Definition render (innerPath : string) (d : docPackage) (mi : dochtmlModuleInfo)
    (limit : Z) : go (string * option error) :=
  let html := "<h1>" +:+ doc_Name d +:+ "</h1>" in
  if limit <? Z.of_nat (String.length html)
  then Ret ("", Some (errors_New ErrTooLarge))
  else Ret (html, None).

Definition detector : Detector :=
  {| AllLicenses := [ {| Metadata := "MIT"; license_Contents := "MIT License" |} ];
     ModuleIsRedistributable := true;
     PackageInfo := fun _ =>
       (true, [ {| Metadata := "MIT"; license_Contents := "MIT License" |} ]) |}.

Definition file (name : string) (b : string) : zipFile :=
  {| Name := name; IsDir := false;
     UncompressedSize64 := Z.of_nat (String.length b); body := Contents b |}.

Definition sized (name : string) (size : Z) : zipFile :=
  {| Name := name; IsDir := false; UncompressedSize64 := size; body := Contents "" |}.

Definition directory (name : string) : zipFile :=
  {| Name := name; IsDir := true; UncompressedSize64 := 0; body := Contents "" |}.

(** The module that fetch_test.go serves from its proxy. *)
Definition testModule : list zipFile :=
  [ file "github.com/module@v1.5.2/bar/foo/foo.go" "package foo";
    file "github.com/module@v1.5.2/README.md" "This is a readme";
    file "github.com/module@v1.5.2/LICENSE" "MIT License" ].

(** A package, and a directory whose only file no environment matches. *)
Definition mixedModule : list zipFile :=
  [ file "example.com/mixed@v1.0.0/a/a.go" "package a";
    file "example.com/mixed@v1.0.0/b/b.go" "+build plan9;package b" ].

(** A package for which the documentation builder of the sample world
    returns a package of another name. *)
Definition oddModule : list zipFile :=
  [ file "example.com/odd@v1.0.0/odd.go" "package odd" ].

(** A package whose documentation is larger than the sample world allows. *)
Definition verboseModule : list zipFile :=
  [ file "example.com/verbose@v1.0.0/v.go" "package verbosepackagename" ].

(** Three package directories, one more than the sample world allows. *)
Definition bigModule : list zipFile :=
  [ file "example.com/big@v1.0.0/a/a.go" "package a";
    file "example.com/big@v1.0.0/b/b.go" "package b";
    file "example.com/big@v1.0.0/c/c.go" "package c" ].

Definition world : World :=
  {| MaxFileSize := 40;
     maxPackagesPerModule := 2;
     maxImportsPerPackage := 3;
     MaxDocumentationHTML := 20;
     stdlib_ModulePath := "std";
     stdlib_Zip := fun _ => inr (errors_New NotFound);
     proxy_GetMod := fun m _ =>
       if String.eqb m "github.com/fork" then inl "module github.com/module"
       else inl ("module " +:+ m);
     proxy_GetZip := fun m _ =>
       if String.eqb m "github.com/module" then inl testModule
       else if String.eqb m "example.com/big" then inl bigModule
       else if String.eqb m "example.com/mixed" then inl mixedModule
       else if String.eqb m "example.com/odd" then inl oddModule
       else if String.eqb m "example.com/verbose" then inl verboseModule
       else inr (errors_New NotFound);
     sentinel_text := fun _ => "derrors";
     package_code := fun s =>
       match s with
       | PackageBuildContextNotSupported => 600
       | PackageMaxFileSizeLimitExceeded => 602
       | PackageDocumentationHTMLTooLarge => 603
       | PackageBadImportPath => 604
       | PackageInvalidContents => 605
       | _ => 500
       end;
     module_CheckImportPath := fun p =>
       if strings.Contains p " "
       then Some (foreign ("malformed import path " +:+ p +:+ ": invalid char ' '"))
       else None;
     modfile_ModulePath := fun b => strings.TrimPrefix b "module ";
     MatchFile := matchFile;
     parser_ParseFile := parseFile;
     doc_NewFromFiles := newFromFiles;
     doc_Synopsis := fun s => s;
     sort_Funcs := fun l => l;
     dochtml_Render := render;
     internal_V1Path := fun p _ => p;
     licenses_NewDetector := fun _ _ _ => detector;
     moduleUnits := fun _ _ _ _ _ => [];
     debug_Stack := "goroutine 1 [running]";
     show_licenses := "[]";
     show_sourceInfo := "<nil>";
     rangeOrder := fun _ _ l => l |}.

End sample.


(** Whether the byte [c] occurs in [s]. *)
Fixpoint hasByte (c : ascii) (s : string) : bool :=
  match s with
  | EmptyString => false
  | String a s' => Ascii.eqb a c || hasByte c s'
  end.

(** ** Vocabulary for further statements about fetch.go *)
Section fetch_vocabulary.
Context {W : World}.

(** What the phase-1 loop has checked of a file by the time it appends it
    to [dirs] under the key [innerPath]. *)
Definition acceptedFile (modulePath resolvedVersion innerPath : string)
    (f : zipFile) : Prop :=
  IsDir f = false
  /\ strings.HasPrefix (Name f)
       (moduleVersionDir modulePath resolvedVersion +:+ "/") = true
  /\ strings.HasSuffix (Name f) ".go" = true
  /\ UncompressedSize64 f <= MaxFileSize
  /\ innerPathOf modulePath resolvedVersion f = innerPath
  /\ ignoredByGoTool (importPathOf modulePath resolvedVersion f) = false
  /\ isVendored (importPathOf modulePath resolvedVersion f) = false
  /\ module_CheckImportPath (importPathOf modulePath resolvedVersion f) = None.

(** The invariant of [dirs]: after the entries [seen], every list is
    non-empty, holds only accepted files of its directory, and holds them
    in the order of the archive. *)
Definition dirsInvariant (mp v : string) (seen : list zipFile)
    (m : gmap string (list zipFile)) : Prop :=
  forall ip l,
    m !! ip = Some l ->
    l <> [] /\ Forall (acceptedFile mp v ip) l /\ l `sublist_of` seen.

(** The state that phase 2 records for a package it returns: the state is
    about the package, of the module and version, and its status is 200
    with no error text, or PackageDocumentationHTMLTooLarge with an error
    text, and then the documentation of the package is the replacement. *)
Definition stateOfPackage (modulePath resolvedVersion : string)
    (p : LegacyPackage) (s : PackageVersionState) : Prop :=
  pvs_ModulePath s = modulePath
  /\ pvs_PackagePath s = Path p
  /\ pvs_Version s = resolvedVersion
  /\ ((pvs_Status s = http_StatusOK /\ pvs_Error s = "")
      \/ (pvs_Status s = ToStatus (errors_New PackageDocumentationHTMLTooLarge)
          /\ pvs_Error s <> ""
          /\ DocumentationHTML p = docTooLargeReplacement)).

(** The import path loadPackageWithBuildContext gives the package of the
    directory [innerPath]. *)
Definition packagePath (modulePath innerPath : string) : string :=
  if String.eqb modulePath stdlib_ModulePath then innerPath
  else path.Join [modulePath; innerPath].

(** What the detector says of the directory [innerPath]; without a detector
    the fields keep the values loadPackageWithBuildContext gave them. *)
Definition licenseInfo (d : option Detector) (innerPath : string)
  : bool * list licenseMetadata :=
  match d with
  | Some d => (fst (PackageInfo d innerPath), map Metadata (snd (PackageInfo d innerPath)))
  | None => (false, [])
  end.

(** What the parsing loop has done with a file when it ends without
    error: the file was parsed and is among allGoFiles; a test file is not
    in goFiles; another file is, and its package clause names the package. *)
Definition parsedAs (ps : parseState) (file : string * string) : Prop :=
  exists pf,
    parser_ParseFile file.1 file.2 = Ret (parsed pf)
    /\ pf ∈ allGoFiles ps
    /\ if strings.HasSuffix file.1 "_test.go" then goFiles ps !! file.1 = None
       else goFiles ps !! file.1 = Some pf /\ ast_Name pf = packageName ps.

(** The state of phase 2 after the directories [D] have been marked
    incomplete and the states [ss] and the packages [ps] appended. *)
Definition extend (st : phase2State) (D : gset string)
    (ss : list PackageVersionState) (ps : list LegacyPackage) : phase2State :=
  {| p2_incompleteDirs := D ∪ p2_incompleteDirs st;
     p2_packageVersionStates := p2_packageVersionStates st ++ ss;
     pkgs := pkgs st ++ ps |}.

(** Two states of phase 2 hold the same results: the same incomplete
    directories, and the same states and packages in some order. *)
Definition sameResults (st st' : phase2State) : Prop :=
  p2_incompleteDirs st = p2_incompleteDirs st'
  /\ p2_packageVersionStates st ≡ₚ p2_packageVersionStates st'
  /\ pkgs st ≡ₚ pkgs st'.

End fetch_vocabulary.


(** ** GetModuleInfo

    The endpoints GetModuleInfo queries: [stdlib.ZipInfo], which returns
    the resolved version and the size of the zip, and the .info endpoint
    ([Version] and [Time]) and the size of the zip of the proxy. *)
Class InfoSource : Type := {
  stdlib_ZipInfo : string -> (string * Z) + error;
  proxy_GetInfo : string -> string -> (string * Z) + error;
  proxy_GetZipSize : string -> string -> Z + error
}.

Section module_info.
Context {W : World} {S : InfoSource}.

(** GetModuleInfo returns preliminary information about a module, from
    the proxy's .info and .zip endpoints.  The commit time of the standard
    library is unknown and left at the zero value. *)
Definition GetModuleInfo (modulePath requestedVersion : string) : ModuleInfo :=
  let deferred (mi : ModuleInfo) : ModuleInfo :=
    {| ModulePath := ModulePath mi;
       RequestedVersion := RequestedVersion mi;
       ResolvedVersion := ResolvedVersion mi;
       CommitTime := CommitTime mi;
       ZipSize := ZipSize mi;
       info_Error :=
         derrors_Wrap ("GetModuleInfo(" +:+ fmt_q modulePath +:+ ", "
                         +:+ fmt_q requestedVersion +:+ ")") (info_Error mi) |} in
  let mi (resolvedVersion : string) (commitTime zipSize : Z) (err : option error) :=
    {| ModulePath := modulePath;
       RequestedVersion := requestedVersion;
       ResolvedVersion := resolvedVersion;
       CommitTime := commitTime;
       ZipSize := zipSize;
       info_Error := err |} in
  deferred
    (if String.eqb modulePath stdlib_ModulePath then
       match stdlib_ZipInfo requestedVersion with
       | inr err => mi "" 0 0 (Some err)
       | inl (resolvedVersion, zipSize) => mi resolvedVersion 0 zipSize None
       end
     else
       match proxy_GetInfo modulePath requestedVersion with
       | inr err => mi "" 0 0 (Some err)
       | inl (version, time) =>
           match proxy_GetZipSize modulePath version with
           | inr err => mi "" 0 0 (Some err)
           | inl zipSize => mi version time zipSize None
           end
       end).

End module_info.

(** ** requestlog.go

    The request log middleware of package middleware.  A request is its
    URL path and its X-Cloud-Trace-Context header; a log entry has the
    fields of [logging.Entry] that the file sets, with a string as payload
    (the file logs two string constants, which [fmt.Sprint] prints as they
    are).  What a handler does with its [http.ResponseWriter] is the list
    of the calls it makes. *)
Module middleware.

Record Request : Type := {
  URL_Path : string;
  X_Cloud_Trace_Context : string
}.

Record HTTPRequest : Type := {
  hr_Request : option Request;
  hr_Status : Z;
  hr_Latency : Z
}.

Inductive Severity : Type := Default | Info.

Record Entry : Type := {
  entry_HTTPRequest : option HTTPRequest;
  Payload : string;
  entry_Severity : Severity;
  Trace : string
}.

(** Logger is the interface used to write request logs. *)
Class Logger (L : Type) : Type := Log : Entry -> L -> L.

(** LocalLogger logs through the internal log package: its effect is the
    list of the messages given to [log.Info]. *)
Definition LocalLogger : Type := list string.

#[global] Instance LocalLogger_Log : Logger LocalLogger := fun entry messages =>
  let msg :=
    match entry_HTTPRequest entry with
    | Some hr =>
        (fmt_d (hr_Status hr) +:+ " ")
          +:+ match hr_Request hr with
              | Some r => URL_Path r +:+ " "
              | None => ""
              end
    | None => ""
    end in
  messages ++ [msg +:+ Payload entry].

(** The calls on an [http.ResponseWriter]. *)
Inductive writerCall : Type :=
  | call_WriteHeader (code : Z)
  | call_Write (b : string).

(** The wrapper around the writer: the calls the wrapped writer has
    received, and the status recorded. *)
Record responseWriter : Type := {
  ResponseWriter : list writerCall;
  status : Z
}.

Definition WriteHeader (rw : responseWriter) (code : Z) : responseWriter :=
  {| ResponseWriter := ResponseWriter rw ++ [call_WriteHeader code];
     status := code |}.

(** Write is promoted from the embedded writer. *)
Definition Write (rw : responseWriter) (b : string) : responseWriter :=
  {| ResponseWriter := ResponseWriter rw ++ [call_Write b];
     status := status rw |}.

Definition perform (rw : responseWriter) (c : writerCall) : responseWriter :=
  match c with
  | call_WriteHeader code => WriteHeader rw code
  | call_Write b => Write rw b
  end.

Definition translateStatus (code : Z) : Z :=
  if code =? 0 then http_StatusOK else code.

(** ServeHTTP of the handler RequestLog returns.  The delegate is given
    the trace identifier (in the context of the request) and the request,
    and makes its calls on the wrapper; [latency] is the time the clock
    shows to have passed. *)
Definition ServeHTTP {L : Type} `{Logger L}
    (delegate : string -> Request -> list writerCall) (logger : L)
    (w : list writerCall) (r : Request) (latency : Z) : L * list writerCall :=
  let traceID := X_Cloud_Trace_Context r in
  let logger :=
    Log {| entry_HTTPRequest :=
             Some {| hr_Request := Some r; hr_Status := 0; hr_Latency := 0 |};
           Payload := "request start";
           entry_Severity := Info;
           Trace := traceID |} logger in
  let w2 := fold_left perform (delegate traceID r)
              {| ResponseWriter := w; status := 0 |} in
  let logger :=
    Log {| entry_HTTPRequest :=
             Some {| hr_Request := Some r;
                     hr_Status := translateStatus (status w2);
                     hr_Latency := latency |};
           Payload := "request end";
           entry_Severity := Info;
           Trace := traceID |} logger in
  (logger, ResponseWriter w2).

(** The code of the last call of WriteHeader among [calls]. *)
Definition lastHeader (calls : list writerCall) : option Z :=
  last (omap (fun c => match c with
                       | call_WriteHeader code => Some code
                       | call_Write _ => None
                       end) calls).

End middleware.

(** The endpoints of a proxy that knows one module, for the instances of
    the statements about GetModuleInfo. *)
Module sample_proxy.

Definition info : InfoSource :=
  {| stdlib_ZipInfo := fun _ => inr (errors_New NotFound);
     proxy_GetInfo := fun m _ =>
       if String.eqb m "github.com/module" then inl ("v1.5.2", 1577836800)
       else inr (errors_New NotFound);
     proxy_GetZipSize := fun _ v =>
       if String.eqb v "v1.5.2" then inl 1024 else inr (errors_New NotFound) |}.

End sample_proxy.

(** * Properties *)

(** Reduce the binds of the [go] monad, and nothing else. *)
Tactic Notation "go_simpl" := cbn [mbind go_bind mret go_ret].
Tactic Notation "go_simpl" "in" hyp(H) := cbn [mbind go_bind mret go_ret] in H.

(** ** The path functions on sample inputs *)
Example Clean_ex1 : path.Clean "a//b/./c/../d/" = "a/b/d". Proof. reflexivity. Qed.
Example Clean_ex2 : path.Clean "../../a" = "../../a". Proof. reflexivity. Qed.
Example Clean_ex3 : path.Clean "/../a/.." = "/". Proof. reflexivity. Qed.
Example Dir_ex1 : path.Dir "foo.go" = ".". Proof. reflexivity. Qed.
Example Dir_ex2 : path.Dir "bar/foo/foo.go" = "bar/foo". Proof. reflexivity. Qed.
Example Join_ex1 : path.Join ["github.com/module"; "."] = "github.com/module".
Proof. reflexivity. Qed.
Example Join_ex2 : path.Join ["std"; "bar/foo"] = "std/bar/foo". Proof. reflexivity. Qed.
Example Base_ex1 : path.Base "m@v1/docs/README.md" = "README.md". Proof. reflexivity. Qed.
Example Base_ex2 : path.Base "m@v1/README/" = "README". Proof. reflexivity. Qed.
Example Ext_ex1 : path.Ext "README.md" = ".md". Proof. reflexivity. Qed.
Example Ext_ex2 : path.Ext "a.b/README" = "". Proof. reflexivity. Qed.
Example Split_ex1 : strings.Split "a/b//c" path.slash = ["a"; "b"; ""; "c"].
Proof. reflexivity. Qed.
Example Split_ex2 : strings.Split "" path.slash = [""]. Proof. reflexivity. Qed.


(** ** Phase 1 of extractPackagesFromZip *)
Section phase1_properties.
Context {W : World}.

(** What the loop body does with an entry that gets to the size check. *)
Lemma phase1File_size_check mp v st f :
  reachesSizeCheck mp v st f = true ->
  phase1File mp v st f =
    if MaxFileSize <? UncompressedSize64 f then inl (fileTooLarge mp v st f)
    else if (maxPackagesPerModule <? size (dirsWith mp v st f))%nat
         then inr (tooManyPackages mp (size (dirsWith mp v st f)))
         else inl {| dirs := dirsWith mp v st f;
                     incompleteDirs := incompleteDirs st;
                     packageVersionStates := packageVersionStates st |}.
Proof.
  unfold reachesSizeCheck, phase1File, importPathOf, innerPathOf.
  intros H.
  repeat (apply andb_prop in H; destruct H as [H ?]).
  apply negb_true_iff in H.
  rewrite H.
  match goal with Hp : strings.HasPrefix _ _ = true |- _ => rewrite Hp end.
  cbn [negb].
  match goal with Hi : negb (bool_decide _) = true |- _ =>
    apply negb_true_iff in Hi; rewrite Hi end.
  match goal with Hg : negb (_ || _) = true |- _ =>
    apply negb_true_iff in Hg; rewrite Hg end.
  match goal with Hs : strings.HasSuffix _ _ = true |- _ => rewrite Hs end.
  cbn [negb].
  destruct (module_CheckImportPath _); [discriminate|].
  destruct (MaxFileSize <? UncompressedSize64 f); [reflexivity|].
  reflexivity.
Qed.

(** C8.  In phase 1, for a .go file that gets to the size check, the strict
    comparison [UncompressedSize64 > MaxFileSize] decides.  A file of size
    at most MaxFileSize, so one of exactly MaxFileSize, is appended to the
    file list of its directory (after which the loop goes on, or stops on
    the number of directories).  A larger file, so one that is one byte
    larger, leaves [dirs] alone, marks the directory incomplete and emits
    for it a state with status PackageMaxFileSizeLimitExceeded. *)
Theorem go_file_size_boundary mp v st f :
  reachesSizeCheck mp v st f = true ->
  (UncompressedSize64 f <= MaxFileSize ->
     dirsWith mp v st f !! innerPathOf mp v f
       = Some (default [] (dirs st !! innerPathOf mp v f) ++ [f])
     /\ phase1File mp v st f =
          if (maxPackagesPerModule <? size (dirsWith mp v st f))%nat
          then inr (tooManyPackages mp (size (dirsWith mp v st f)))
          else inl {| dirs := dirsWith mp v st f;
                      incompleteDirs := incompleteDirs st;
                      packageVersionStates := packageVersionStates st |})
  /\ (MaxFileSize < UncompressedSize64 f ->
      exists st' state,
        phase1File mp v st f = inl st'
        /\ dirs st' = dirs st
        /\ incompleteDirs st' = {[ innerPathOf mp v f ]} ∪ incompleteDirs st
        /\ packageVersionStates st' = packageVersionStates st ++ [state]
        /\ pvs_PackagePath state = importPathOf mp v f
        /\ pvs_Status state = ToStatus (errors_New PackageMaxFileSizeLimitExceeded)
        /\ pvs_Error state <> "").
Proof.
  intros Hreach. pose proof (phase1File_size_check mp v st f Hreach) as Hstep.
  split.
  - intros Hle. split.
    + unfold dirsWith. apply lookup_insert_eq.
    + rewrite Hstep. replace (MaxFileSize <? UncompressedSize64 f) with false
        by (symmetry; apply Z.ltb_ge; lia). reflexivity.
  - intros Hgt. exists (fileTooLarge mp v st f). eexists.
    rewrite Hstep. replace (MaxFileSize <? UncompressedSize64 f) with true
      by (symmetry; apply Z.ltb_lt; lia).
    repeat split; reflexivity || (cbn; discriminate).
Qed.

(** The phase-1 loop over a concatenation. *)
Lemma phase1_app mp v l1 l2 st :
  phase1 mp v (l1 ++ l2) st =
    match phase1 mp v l1 st with
    | inl st' => phase1 mp v l2 st'
    | inr err => inr err
    end.
Proof.
  revert st. induction l1 as [|f l1 IH]; intros st; [reflexivity|].
  cbn [app phase1]. destruct (phase1File mp v st f); [apply IH | reflexivity].
Qed.

(** The two errors of the loop body: a name outside the module prefix,
    which wraps errMalformedZip, and too many directories, which wraps
    nothing. *)
Lemma phase1File_error mp v st f err :
  phase1File mp v st f = inr err ->
  (IsDir f = false
   /\ strings.HasPrefix (Name f) (moduleVersionDir mp v +:+ "/") = false
   /\ errors_Is err errMalformedZip = true)
  \/ (reachesSizeCheck mp v st f = true
      /\ UncompressedSize64 f <= MaxFileSize
      /\ (maxPackagesPerModule < size (dirsWith mp v st f))%nat
      /\ err = tooManyPackages mp (size (dirsWith mp v st f))).
Proof.
  unfold phase1File, reachesSizeCheck, dirsWith, importPathOf, innerPathOf,
    tooManyPackages.
  destruct (IsDir f); [discriminate|].
  destruct (strings.HasPrefix (Name f) _) eqn:Hp; cbn [negb andb].
  2: { intros [= <-]. left. repeat split. }
  destruct (bool_decide _); [discriminate|].
  destruct (_ || _); [discriminate|].
  destruct (strings.HasSuffix _ _); [|discriminate]. cbn [negb andb].
  destruct (module_CheckImportPath _); [discriminate|].
  destruct (MaxFileSize <? UncompressedSize64 f) eqn:Hsz; [discriminate|].
  destruct (_ <? _)%nat eqn:Hn; [|discriminate].
  intros [= <-]. right. repeat split.
  - apply Z.ltb_ge in Hsz. lia.
  - apply Nat.ltb_lt in Hn. lia.
Qed.

(** An error of phase 1 is what extractPackagesFromZip returns. *)
Lemma extractPackagesFromZip_phase1_error mp v r d err :
  phase1 mp v r phase1Init = inr err ->
  extractPackagesFromZip mp v r d = Ret ([], [], Some err).
Proof.
  intros H. unfold extractPackagesFromZip, extractPackagesFromZip_body.
  rewrite H. reflexivity.
Qed.

(** processZipFile turns errMalformedZip into BadModule ... *)
Lemma processZipFile_malformed mp v ct r readmes err :
  extractReadmesFromZip mp v r = inl readmes ->
  phase1 mp v r phase1Init = inr err ->
  errors_Is err errMalformedZip = true ->
  exists e, processZipFile mp v ct r = Ret (None, [], Some e)
            /\ errors_Is e BadModule = true.
Proof.
  intros Hr Hp His. unfold processZipFile. rewrite Hr.
  rewrite (extractPackagesFromZip_phase1_error _ _ _ _ _ Hp).
  cbn. rewrite His, orb_true_r. cbn. eexists. split; reflexivity.
Qed.

(** ... and leaves the error about the number of packages without a kind. *)
Lemma processZipFile_tooManyPackages mp v ct r readmes n :
  extractReadmesFromZip mp v r = inl readmes ->
  phase1 mp v r phase1Init = inr (tooManyPackages mp n) ->
  exists e, processZipFile mp v ct r = Ret (None, [], Some e)
            /\ (forall k, errors_Is e k = false)
            /\ ToStatus e = 500.
Proof.
  intros Hr Hp. unfold processZipFile. rewrite Hr.
  rewrite (extractPackagesFromZip_phase1_error _ _ _ _ _ Hp).
  cbn. eexists. split; [reflexivity|]. split; [intros k|]; reflexivity.
Qed.

(** C7.  An archive is taken that gets into phase 1 (its READMEs were
    extracted).  Every non-directory entry whose name does not begin with
    [<modulePath>@<resolvedVersion>/] makes processZipFile fail with an
    error of kind BadModule and no module; the loop reads the entries in
    order, so this is for the entries before which it has not stopped on
    the number of packages.  Directory entries are ignored whatever their
    names: with or without them extractPackagesFromZip returns the same. *)
Theorem ill_prefixed_entry_is_bad_module mp v :
  (forall ct pre f post readmes,
      extractReadmesFromZip mp v (pre ++ f :: post) = inl readmes ->
      (forall e, phase1 mp v pre phase1Init = inr e ->
                 errors_Is e errMalformedZip = true) ->
      IsDir f = false ->
      strings.HasPrefix (Name f) (moduleVersionDir mp v +:+ "/") = false ->
      exists e, processZipFile mp v ct (pre ++ f :: post) = Ret (None, [], Some e)
                /\ errors_Is e BadModule = true)
  /\ (forall pre f post d,
         IsDir f = true ->
         extractPackagesFromZip mp v (pre ++ f :: post) d
           = extractPackagesFromZip mp v (pre ++ post) d).
Proof.
  split.
  - intros ct pre f post readmes Hr Hpre Hdir Hpfx.
    assert (exists err, phase1 mp v (pre ++ f :: post) phase1Init = inr err
                        /\ errors_Is err errMalformedZip = true) as (err & Hp & His).
    { rewrite phase1_app. destruct (phase1 mp v pre phase1Init) as [st|e].
      - cbn [phase1]. unfold phase1File. rewrite Hdir, Hpfx. cbn.
        eexists. split; reflexivity.
      - exists e. split; [reflexivity | apply Hpre; reflexivity]. }
    eapply processZipFile_malformed; eassumption.
  - intros pre f post d Hdir.
    unfold extractPackagesFromZip, extractPackagesFromZip_body.
    rewrite !phase1_app.
    destruct (phase1 mp v pre phase1Init) as [st|e]; [|reflexivity].
    cbn [phase1]. unfold phase1File at 1. rewrite Hdir. reflexivity.
Qed.

(** C2, as the code has it.  A .go file that is accepted into [dirs] lets
    phase 1 go on when the number of directories is then at most
    maxPackagesPerModule, so also when it is exactly the limit.  With one
    directory more the module fetch fails: processZipFile returns no
    module and an error that is of no kind, not of kind BadModule, whose
    status is 500. *)
Theorem package_limit_error_is_unclassified mp v ct pre f post readmes st :
  extractReadmesFromZip mp v (pre ++ f :: post) = inl readmes ->
  phase1 mp v pre phase1Init = inl st ->
  reachesSizeCheck mp v st f = true ->
  UncompressedSize64 f <= MaxFileSize ->
  ((size (dirsWith mp v st f) <= maxPackagesPerModule)%nat ->
     phase1 mp v (pre ++ [f]) phase1Init
       = inl {| dirs := dirsWith mp v st f;
                incompleteDirs := incompleteDirs st;
                packageVersionStates := packageVersionStates st |})
  /\ ((maxPackagesPerModule < size (dirsWith mp v st f))%nat ->
      exists e, processZipFile mp v ct (pre ++ f :: post) = Ret (None, [], Some e)
                /\ (forall k, errors_Is e k = false)
                /\ ToStatus e = 500).
Proof.
  intros Hr Hpre Hreach Hsz.
  pose proof (phase1File_size_check mp v st f Hreach) as Hstep.
  replace (MaxFileSize <? UncompressedSize64 f) with false in Hstep
    by (symmetry; apply Z.ltb_ge; lia).
  split; intros Hn.
  - rewrite phase1_app, Hpre. cbn [phase1]. rewrite Hstep.
    replace (maxPackagesPerModule <? _)%nat with false
      by (symmetry; apply Nat.ltb_ge; lia).
    reflexivity.
  - eapply processZipFile_tooManyPackages; [eassumption|].
    rewrite phase1_app, Hpre. cbn [phase1]. rewrite Hstep.
    replace (maxPackagesPerModule <? _)%nat with true
      by (symmetry; apply Nat.ltb_lt; lia).
    reflexivity.
Qed.

(** The loop of extractReadmesFromZip stops with an error when a README
    among the entries is larger than MaxFileSize. *)
Lemma extractReadmes_loop_oversized mp v files f :
  In f files ->
  isReadme (Name f) = true ->
  MaxFileSize < UncompressedSize64 f ->
  forall readmes, exists err, extractReadmes_loop mp v files readmes = inr err.
Proof.
  intros Hin Hreadme Hsize.
  induction files as [|g files IH]; [destruct Hin|].
  intros readmes. cbn [extractReadmes_loop].
  destruct Hin as [->|Hin].
  - rewrite Hreadme.
    replace (MaxFileSize <? UncompressedSize64 f) with true
      by (symmetry; apply Z.ltb_lt; lia).
    eexists; reflexivity.
  - destruct (isReadme (Name g)); [|apply IH, Hin].
    destruct (MaxFileSize <? UncompressedSize64 g); [eexists; reflexivity|].
    destruct (readZipFile g MaxFileSize); [apply IH, Hin | eexists; reflexivity].
Qed.

(** C10.  If an entry whose name qualifies as a README is larger than
    MaxFileSize, extractReadmesFromZip returns an error and processZipFile
    returns that failure for the whole module: no module and no package
    states.  An oversized .go file that gets to the size check is not an
    error of the loop of phase 1: the loop goes on, with only the directory
    of the file marked incomplete and [dirs] as it was. *)
Theorem oversized_readme_fails_module mp v :
  (forall ct r f,
      In f r ->
      isReadme (Name f) = true ->
      MaxFileSize < UncompressedSize64 f ->
      (exists err, extractReadmesFromZip mp v r = inr err)
      /\ (exists e, processZipFile mp v ct r = Ret (None, [], Some e)))
  /\ (forall st g,
         reachesSizeCheck mp v st g = true ->
         MaxFileSize < UncompressedSize64 g ->
         exists st',
           phase1File mp v st g = inl st'
           /\ dirs st' = dirs st
           /\ incompleteDirs st' = {[ innerPathOf mp v g ]} ∪ incompleteDirs st).
Proof.
  split.
  - intros ct r f Hin Hreadme Hsize.
    destruct (extractReadmes_loop_oversized mp v r f Hin Hreadme Hsize [])
      as [err Herr].
    split; [exists err; exact Herr|].
    unfold processZipFile, extractReadmesFromZip. rewrite Herr.
    eexists. reflexivity.
  - intros st g Hreach Hsize.
    rewrite (phase1File_size_check mp v st g Hreach).
    replace (MaxFileSize <? UncompressedSize64 g) with true
      by (symmetry; apply Z.ltb_lt; lia).
    eexists. repeat split.
Qed.

End phase1_properties.

(** A file of exactly MaxFileSize (40 in the sample world) and one of one
    byte more. *)
Lemma go_file_size_boundary_witness :
  (dirsWith "m" "v1" phase1Init (sample.sized "m@v1/a/a.go" 40)
     !! "a" = Some [sample.sized "m@v1/a/a.go" 40]
   /\ phase1File (W:=sample.world) "m" "v1" phase1Init (sample.sized "m@v1/a/a.go" 40)
      = inl {| dirs := {[ "a" := [sample.sized "m@v1/a/a.go" 40] ]};
               incompleteDirs := ∅; packageVersionStates := [] |})
  /\ exists st' state,
       phase1File (W:=sample.world) "m" "v1" phase1Init (sample.sized "m@v1/a/a.go" 41)
         = inl st'
       /\ dirs st' = ∅
       /\ incompleteDirs st' = {[ "a" ]} ∪ ∅
       /\ packageVersionStates st' = [state]
       /\ pvs_PackagePath state = "m/a"
       /\ pvs_Status state = 602
       /\ pvs_Error state <> "".
Proof.
  split.
  - apply (proj1 (go_file_size_boundary (W:=sample.world) "m" "v1" phase1Init
                    (sample.sized "m@v1/a/a.go" 40) eq_refl)).
    cbn. lia.
  - apply (proj2 (go_file_size_boundary (W:=sample.world) "m" "v1" phase1Init
                    (sample.sized "m@v1/a/a.go" 41) eq_refl)).
    cbn. lia.
Defined.


(** An archive with a stray entry after a package. *)
Lemma ill_prefixed_entry_is_bad_module_witness :
  (exists e,
      processZipFile (W:=sample.world) "m" "v1" 0
        ([sample.file "m@v1/a/a.go" "package a"] ++ sample.file "stray.txt" "x" :: [])
        = Ret (None, [], Some e)
      /\ errors_Is e BadModule = true)
  /\ extractPackagesFromZip (W:=sample.world) "m" "v1"
       ([sample.file "m@v1/a/a.go" "package a"] ++ sample.directory "elsewhere/" :: [])
       None
     = extractPackagesFromZip (W:=sample.world) "m" "v1"
         ([sample.file "m@v1/a/a.go" "package a"] ++ []) None.
Proof.
  split.
  - eapply (proj1 (ill_prefixed_entry_is_bad_module (W:=sample.world) "m" "v1")).
    + vm_compute. reflexivity.
    + intros e H. vm_compute in H. discriminate H.
    + reflexivity.
    + reflexivity.
  - apply (proj2 (ill_prefixed_entry_is_bad_module (W:=sample.world) "m" "v1")).
    reflexivity.
Defined.

(** Two directories are within the limit of the sample world, the third is
    one too many. *)
Lemma package_limit_error_is_unclassified_witness :
  exists e,
    processZipFile (W:=sample.world) "example.com/big" "v1.0.0" 0
      ([sample.file "example.com/big@v1.0.0/a/a.go" "package a";
        sample.file "example.com/big@v1.0.0/b/b.go" "package b"]
       ++ sample.file "example.com/big@v1.0.0/c/c.go" "package c" :: [])
      = Ret (None, [], Some e)
    /\ (forall k, errors_Is e k = false)
    /\ ToStatus (W:=sample.world) e = 500.
Proof.
  apply (proj2 (package_limit_error_is_unclassified (W:=sample.world)
                  "example.com/big" "v1.0.0" 0
                  [sample.file "example.com/big@v1.0.0/a/a.go" "package a";
                   sample.file "example.com/big@v1.0.0/b/b.go" "package b"]
                  (sample.file "example.com/big@v1.0.0/c/c.go" "package c") [] []
                  {| dirs :=
                       {[ "a" := [sample.file "example.com/big@v1.0.0/a/a.go" "package a"];
                          "b" := [sample.file "example.com/big@v1.0.0/b/b.go" "package b"] ]};
                     incompleteDirs := ∅;
                     packageVersionStates := [] |}
                  ltac:(vm_compute; reflexivity) ltac:(vm_compute; reflexivity)
                  ltac:(vm_compute; reflexivity) ltac:(vm_compute; discriminate))).
  vm_compute. lia.
Defined.

(** C2 fails on the code: in the sample world, whose limit is two package
    directories, the fetch of a module with three fails with an error that
    is not of kind BadModule; its status is 500, not the 490 of BadModule. *)
Lemma package_limit_not_bad_module :
  exists fr e,
    FetchModule (W:=sample.world)
      {| ModulePath := "example.com/big"; RequestedVersion := "latest";
         ResolvedVersion := "v1.0.0"; CommitTime := 0; ZipSize := 0;
         info_Error := None |} = Ret fr
    /\ fr_Module fr = None
    /\ fr_Error fr = Some e
    /\ errors_Is e BadModule = false
    /\ fr_Status fr = 500.
Proof.
  eexists. eexists. vm_compute. repeat split.
Qed.

(** An oversized README, and an oversized .go file. *)
Lemma oversized_readme_fails_module_witness :
  ((exists err,
       extractReadmesFromZip (W:=sample.world) "m" "v1"
         [sample.file "m@v1/a/a.go" "package a"; sample.sized "m@v1/docs/readme.MD" 41]
         = inr err)
   /\ (exists e,
          processZipFile (W:=sample.world) "m" "v1" 0
            [sample.file "m@v1/a/a.go" "package a"; sample.sized "m@v1/docs/readme.MD" 41]
            = Ret (None, [], Some e)))
  /\ exists st',
       phase1File (W:=sample.world) "m" "v1" phase1Init (sample.sized "m@v1/a/a.go" 41)
         = inl st'
       /\ dirs st' = dirs phase1Init
       /\ incompleteDirs st' = {[ "a" ]} ∪ incompleteDirs phase1Init.
Proof.
  split.
  - apply (proj1 (oversized_readme_fails_module (W:=sample.world) "m" "v1")
             0 _ (sample.sized "m@v1/docs/readme.MD" 41)).
    + right. left. reflexivity.
    + reflexivity.
    + cbn. lia.
  - apply (proj2 (oversized_readme_fails_module (W:=sample.world) "m" "v1")
             phase1Init (sample.sized "m@v1/a/a.go" 41)).
    + reflexivity.
    + cbn. lia.
Defined.


(** A module with an oversized .go file in one directory and a package in
    another is fetched: the first directory gets the status of
    PackageMaxFileSizeLimitExceeded, 602 in the sample world, and the
    package of the second is in the module. *)
Example oversized_go_file_module_proceeds :
  exists m states,
    processZipFile (W:=sample.world) "m" "v1" 0
      [sample.sized "m@v1/x/x.go" 41; sample.file "m@v1/a/a.go" "package a"]
      = Ret (Some m, states, None)
    /\ map Path (LegacyPackages m) = ["m/a"]
    /\ map (fun s => (pvs_PackagePath s, pvs_Status s)) states
       = [("m/x", 602); ("m/a", 200)].
Proof. eexists. eexists. vm_compute. repeat split. Qed.

(** ** Loading a package, and phase 2 of extractPackagesFromZip *)
Section phase2_properties.
Context {W : World}.

(** The error that loadPackageWithBuildContext returns has passed through
    derrors.Wrap: its text begins with the name of the function. *)
Lemma derrors_Wrap_Some context err e :
  derrors_Wrap context err = Some e ->
  exists e0, err = Some e0
             /\ e = fmt_Errorf (context +:+ ": " +:+ Error e0) (Some e0).
Proof.
  destruct err as [e0|]; [|discriminate]. intros [= <-]. eauto.
Qed.

Lemma append_nonempty (a b : string) : a <> "" -> a +:+ b <> "".
Proof. destruct a; [congruence | discriminate]. Qed.

Lemma loadPackageWithBuildContext_error_text goos goarch files ip mi pkg e :
  loadPackageWithBuildContext goos goarch files ip mi = Ret (pkg, Some e) ->
  Error e <> "".
Proof.
  unfold loadPackageWithBuildContext.
  destruct (loadPackageWithBuildContext_body goos goarch files ip mi)
    as [[pkg0 err0]|]; [|discriminate].
  cbn. intros [= _ Hw]. apply derrors_Wrap_Some in Hw as (e0 & _ & ->).
  cbn [Error]. discriminate.
Qed.

(** The part of loadPackageWithBuildContext before the rendering returns
    no package, and no error in which ErrTooLarge can be found. *)
Lemma matchFiles_error goos goarch names files err :
  matchFiles goos goarch names files = Ret (inr err) ->
  errors_Is err ErrTooLarge = false.
Proof.
  revert files. induction names as [|[name b] names IH]; intros files; [discriminate|].
  cbn [matchFiles].
  destruct (MatchFile goos goarch name _) as [[m [e|]]|]; cbn; try discriminate.
  - intros [= <-]. reflexivity.
  - destruct m; cbn; apply IH.
Qed.

Lemma readZipFile_error f limit err :
  readZipFile f limit = inr err -> errors_Is err ErrTooLarge = false.
Proof.
  unfold readZipFile. destruct (body f); cbn; try discriminate;
    intros [= <-]; reflexivity.
Qed.

Lemma readFiles_error l files err :
  readFiles l files = inr err -> errors_Is err ErrTooLarge = false.
Proof.
  revert files. induction l as [|f l IH]; intros files; [discriminate|].
  cbn [readFiles]. destruct (readZipFile f MaxFileSize) eqn:Hr.
  - apply IH.
  - intros [= <-]. eapply readZipFile_error; eassumption.
Qed.

Lemma matchingFiles_error goos goarch l err :
  matchingFiles goos goarch l = Ret (inr err) ->
  errors_Is err ErrTooLarge = false.
Proof.
  unfold matchingFiles. destruct (readFiles l ∅) eqn:Hr.
  - destruct (matchFiles goos goarch _ _) as [[files|e]|] eqn:Hm; cbn;
      try discriminate.
    intros [= <-]. cbn. eapply matchFiles_error; eassumption.
  - intros [= <-]. cbn. eapply readFiles_error; eassumption.
Qed.

Lemma parseFiles_error ip l ps err :
  parseFiles ip l ps = Ret (inr err) -> errors_Is err ErrTooLarge = false.
Proof.
  revert ps. induction l as [|[name b] l IH]; intros ps; [discriminate|].
  cbn [parseFiles].
  destruct (parser_ParseFile name b) as [[pf|[pf|] e]|]; cbn; try discriminate.
  - destruct (strings.HasSuffix name "_test.go"); [apply IH|].
    destruct (size _ =? 1)%nat; [apply IH|].
    destruct (negb _); [|apply IH].
    intros [= <-]. reflexivity.
  - intros [= <-]. reflexivity.
  - intros [= <-]. reflexivity.
Qed.

Lemma loadPackageDoc_early goos goarch l ip mi pkg err :
  loadPackageDoc goos goarch l ip mi = Ret (inr (pkg, err)) ->
  pkg = None
  /\ forall e, err = Some e -> errors_Is e ErrTooLarge = false.
Proof.
  unfold loadPackageDoc.
  destruct (matchingFiles goos goarch l) as [[files|e]|] eqn:Hm; go_simpl;
    try discriminate.
  2: { intros [= <- <-]. split; [reflexivity|]. intros e' [= <-].
       eapply matchingFiles_error; eassumption. }
  destruct (parseFiles ip _ parseInit) as [[ps|e]|] eqn:Hp; go_simpl;
    try discriminate.
  2: { intros [= <- <-]. split; [reflexivity|]. intros e' [= <-].
       eapply parseFiles_error; eassumption. }
  destruct (size (goFiles ps) =? 0)%nat.
  { intros [= <- <-]. split; [reflexivity | discriminate]. }
  destruct (doc_NewFromFiles _ _ _) as [[d|e]|]; go_simpl; try discriminate.
  2: { intros [= <- <-]. split; [reflexivity|]. intros e' [= <-]. reflexivity. }
  destruct (_ || _); [discriminate|]. cbv zeta.
  match goal with |- context [(?a <? ?b)%nat] => destruct (a <? b)%nat end;
    [|discriminate].
  intros [= <- <-]. split; [reflexivity|]. intros e' [= <-]. reflexivity.
Qed.

(** An error in whose chain a sentinel is found has no *BadPackageError
    in its chain. *)
Lemma errors_Is_not_BadPackageError :
  forall e s, errors_Is e s = true -> errors_As_BadPackageError e = false.
Proof.
  fix IH 1. intros [s'|msg [e'|]|e'|dir pkgs files|msg] s; cbn; try reflexivity.
  - apply IH.
  - discriminate.
Qed.

(** What loadPackageWithBuildContext can return. *)
Lemma loadPackageWithBuildContext_package_error goos goarch l ip mi p e :
  loadPackageWithBuildContext goos goarch l ip mi = Ret (Some p, Some e) ->
  errors_Is e ErrTooLarge = true
  /\ errors_As_BadPackageError e = false
  /\ DocumentationHTML p = docTooLargeReplacement.
Proof.
  unfold loadPackageWithBuildContext, loadPackageWithBuildContext_body.
  destruct (loadPackageDoc goos goarch l ip mi) as [[[d name]|[pkg0 err0]]|] eqn:Hd;
    go_simpl; try discriminate.
  - destruct (dochtml_Render ip d mi MaxDocumentationHTML) as [[html [e0|]]|];
      go_simpl; try discriminate.
    destruct (errors_Is e0 ErrTooLarge) eqn:His; go_simpl; [|discriminate].
    cbn [derrors_Wrap]. intros [= <- <-]. cbn [errors_Is errors_As_BadPackageError].
    rewrite His. split; [reflexivity|]. split; [|reflexivity].
    eapply errors_Is_not_BadPackageError; eassumption.
  - apply loadPackageDoc_early in Hd as [-> _]. discriminate.
Qed.

Lemma loadPackageWithBuildContext_no_package goos goarch l ip mi e :
  loadPackageWithBuildContext goos goarch l ip mi = Ret (None, Some e) ->
  errors_Is e ErrTooLarge = false.
Proof.
  unfold loadPackageWithBuildContext, loadPackageWithBuildContext_body.
  destruct (loadPackageDoc goos goarch l ip mi) as [[[d name]|[pkg0 err0]]|] eqn:Hd;
    go_simpl; try discriminate.
  - destruct (dochtml_Render ip d mi MaxDocumentationHTML) as [[html [e0|]]|];
      go_simpl; try discriminate.
    destruct (errors_Is e0 ErrTooLarge) eqn:His; go_simpl; [discriminate|].
    cbn [derrors_Wrap]. intros [= <-]. reflexivity.
  - apply loadPackageDoc_early in Hd as [-> Herr].
    intros [= Hw]. apply derrors_Wrap_Some in Hw as (e0 & -> & ->).
    cbn [errors_Is]. apply Herr. reflexivity.
Qed.

(** When the rendering reports ErrTooLarge, the package is returned with
    the replacement text for its documentation, together with the error. *)
Lemma loadPackageWithBuildContext_too_large goos goarch l ip mi d name html e0 :
  loadPackageDoc goos goarch l ip mi = Ret (inl (d, name)) ->
  dochtml_Render ip d mi MaxDocumentationHTML = Ret (html, Some e0) ->
  errors_Is e0 ErrTooLarge = true ->
  exists p e,
    loadPackageWithBuildContext goos goarch l ip mi = Ret (Some p, Some e)
    /\ DocumentationHTML p = docTooLargeReplacement
    /\ pkg_Name p = name /\ GOOS p = goos /\ GOARCH p = goarch
    /\ errors_Is e ErrTooLarge = true.
Proof.
  intros Hd Hr His.
  unfold loadPackageWithBuildContext, loadPackageWithBuildContext_body.
  rewrite Hd. go_simpl. rewrite Hr. go_simpl. rewrite His. go_simpl.
  cbn [derrors_Wrap]. eexists. eexists. split; [reflexivity|].
  cbn [errors_Is]. rewrite His. repeat split.
Qed.

Lemma loadPackage_loop_skip l ip mi pre rest :
  Forall (yieldsNil l ip mi) pre ->
  loadPackage_loop (pre ++ rest) l ip mi = loadPackage_loop rest l ip mi.
Proof.
  induction 1 as [|env pre Hnil _ IH]; [reflexivity|].
  cbn [app loadPackage_loop]. rewrite Hnil. go_simpl. exact IH.
Qed.

Lemma loadPackage_loop_head l ip mi env rest p err :
  loadPackageWithBuildContext (fst env) (snd env) l ip mi = Ret (Some p, err) ->
  loadPackage_loop (env :: rest) l ip mi = Ret (Some p, err).
Proof.
  intros H. cbn [loadPackage_loop]. rewrite H. go_simpl.
  destruct err as [e|]; [|reflexivity].
  apply loadPackageWithBuildContext_package_error in H as [-> _]. reflexivity.
Qed.

Lemma loadPackage_loop_package l ip mi envs p err :
  loadPackage_loop envs l ip mi = Ret (Some p, err) ->
  exists pre env post,
    envs = pre ++ env :: post
    /\ Forall (yieldsNil l ip mi) pre
    /\ loadPackageWithBuildContext (fst env) (snd env) l ip mi = Ret (Some p, err).
Proof.
  induction envs as [|env envs IH]; [discriminate|].
  cbn [loadPackage_loop].
  destruct (loadPackageWithBuildContext (fst env) (snd env) l ip mi)
    as [[pkg e]|] eqn:Hl; go_simpl; [|discriminate].
  destruct pkg as [p0|].
  - assert (Ret (Some p0, e) = Ret (Some p, err)
            -> exists pre env0 post,
                env :: envs = pre ++ env0 :: post
                /\ Forall (yieldsNil l ip mi) pre
                /\ loadPackageWithBuildContext (fst env0) (snd env0) l ip mi
                   = Ret (Some p, err)) as Hfound.
    { intros [= <- <-]. exists [], env, envs. repeat split; [constructor | exact Hl]. }
    destruct e as [e|]; [|exact Hfound].
    destruct (errors_Is e ErrTooLarge); [exact Hfound | discriminate].
  - destruct e as [e|].
    + rewrite (loadPackageWithBuildContext_no_package _ _ _ _ _ _ Hl).
      discriminate.
    + intros H. destruct (IH H) as (pre & env0 & post & -> & Hpre & Henv).
      exists (env :: pre), env0, post. repeat split; [|exact Henv].
      constructor; [exact Hl | exact Hpre].
Qed.

(** The state in which phase 2 leaves a directory for which loadPackage
    returned nothing. *)
Lemma phase2Dir_no_package mp v dt mi st ip l :
  ip ∉ p2_incompleteDirs st ->
  l <> [] ->
  loadPackage l ip mi = Ret (None, None) ->
  phase2Dir mp v dt mi st (ip, l) =
    Ret (inl {| p2_incompleteDirs := {[ ip ]} ∪ p2_incompleteDirs st;
                p2_packageVersionStates :=
                  p2_packageVersionStates st ++
                  [ {| pvs_ModulePath := mp;
                       pvs_PackagePath := path.Join [mp; ip];
                       pvs_Version := v;
                       pvs_Status := ToStatus (errors_New PackageBuildContextNotSupported);
                       pvs_Error := "" |} ];
                pkgs := pkgs st |}).
Proof.
  intros Hinc Hl Hload. unfold phase2Dir.
  rewrite bool_decide_eq_false_2 by exact Hinc.
  rewrite Hload. go_simpl.
  destruct l; [congruence|]. reflexivity.
Qed.

(** *** The loop of phase 2 *)

(** One directory adds package states and packages at the end of the
    lists, and marks no other directory incomplete. *)
Lemma phase2Dir_effect mp v dt mi st ip l st' :
  phase2Dir mp v dt mi st (ip, l) = Ret (inl st') ->
  (exists ps, pkgs st' = pkgs st ++ ps)
  /\ (exists ss, p2_packageVersionStates st' = p2_packageVersionStates st ++ ss)
  /\ (forall x, x ∈ p2_incompleteDirs st' -> x = ip \/ x ∈ p2_incompleteDirs st).
Proof.
  unfold phase2Dir. case_bool_decide as Hinc.
  { intros [= <-]. split; [exists []; symmetry; apply app_nil_r|].
    split; [exists []; symmetry; apply app_nil_r|]. auto. }
  destruct (loadPackage l ip mi) as [[pkg err]|]; go_simpl; [|discriminate].
  set (cls := match err with Some _ => _ | None => _ end).
  assert (forall inc s m, cls = inl (inc, s, m) ->
            forall x, x ∈ inc -> x = ip \/ x ∈ p2_incompleteDirs st) as Hcls.
  { subst cls. intros inc s m. destruct err as [e|].
    - destruct (errors_As_BadPackageError e).
      + intros [= <- _ _] x Hx. set_solver.
      + destruct (errors_Is e ErrTooLarge); [|discriminate].
        intros [= <- _ _] x Hx. auto.
    - intros [= <- _ _] x Hx. auto. }
  destruct cls as [[[inc s] m]|e]; [|discriminate].
  specialize (Hcls inc s m eq_refl).
  destruct pkg as [p|].
  - intros [= <-]. cbn. split; [eauto|]. split; [eauto|]. exact Hcls.
  - destruct (0 <? length l)%nat; intros [= <-]; cbn.
    + split; [exists []; symmetry; apply app_nil_r|]. split; [eauto|].
      intros x Hx. apply elem_of_union in Hx as [Hx|Hx]; [set_solver | auto].
    + split; [exists []; symmetry; apply app_nil_r|]. split; [eauto|]. exact Hcls.
Qed.

Lemma phase2_app mp v dt mi l1 l2 st :
  phase2 mp v dt mi (l1 ++ l2) st =
    (r ← phase2 mp v dt mi l1 st;
     match r with
     | inl st1 => phase2 mp v dt mi l2 st1
     | inr err => Ret (inr err)
     end).
Proof.
  revert st. induction l1 as [|entry l1 IH]; intros st; [reflexivity|].
  cbn [app phase2].
  destruct (phase2Dir mp v dt mi st entry) as [[st1|e]|]; go_simpl;
    [apply IH | reflexivity | reflexivity].
Qed.

Lemma phase2_effect mp v dt mi entries st st' :
  phase2 mp v dt mi entries st = Ret (inl st') ->
  (exists ps, pkgs st' = pkgs st ++ ps)
  /\ (exists ss, p2_packageVersionStates st' = p2_packageVersionStates st ++ ss)
  /\ (forall x, x ∈ p2_incompleteDirs st' ->
                (x ∈ entries.*1) \/ x ∈ p2_incompleteDirs st).
Proof.
  revert st. induction entries as [|[ip l] entries IH]; intros st.
  - intros [= <-]. split; [exists []; symmetry; apply app_nil_r|].
    split; [exists []; symmetry; apply app_nil_r|]. auto.
  - cbn [phase2].
    destruct (phase2Dir mp v dt mi st (ip, l)) as [[st1|e]|] eqn:Hd; go_simpl;
      try discriminate.
    intros H. apply IH in H as ((ps2 & Hp2) & (ss2 & Hs2) & Hi2).
    apply phase2Dir_effect in Hd as ((ps1 & Hp1) & (ss1 & Hs1) & Hi1).
    split; [exists (ps1 ++ ps2); rewrite Hp2, Hp1, app_assoc; reflexivity|].
    split; [exists (ss1 ++ ss2); rewrite Hs2, Hs1, app_assoc; reflexivity|].
    intros x Hx. cbn [fmap list_fmap fst].
    destruct (Hi2 x Hx) as [Hin|Hin].
    + left. right. exact Hin.
    + destruct (Hi1 x Hin) as [->|Hin1]; [left; left | right; exact Hin1].
Qed.

(** A directory of the list that was not incomplete before the loop is
    processed by the loop body, in a state in which it is still not
    incomplete, and what the body adds for it stays to the end. *)
Lemma phase2_visits mp v dt mi entries st st' ip l :
  NoDup entries.*1 ->
  (ip, l) ∈ entries ->
  ip ∉ p2_incompleteDirs st ->
  phase2 mp v dt mi entries st = Ret (inl st') ->
  exists sta stb,
    (ip ∉ p2_incompleteDirs sta)
    /\ phase2Dir mp v dt mi sta (ip, l) = Ret (inl stb)
    /\ (exists ps, pkgs st' = pkgs stb ++ ps)
    /\ (exists ss, p2_packageVersionStates st' = p2_packageVersionStates stb ++ ss).
Proof.
  intros Hnd Hin Hinc Hrun.
  apply list_elem_of_split in Hin as (l1 & l2 & ->).
  rewrite fmap_app in Hnd. cbn in Hnd.
  apply NoDup_app in Hnd as (_ & Hfresh & _).
  rewrite phase2_app in Hrun.
  destruct (phase2 mp v dt mi l1 st) as [[sta|e]|] eqn:H1; go_simpl in Hrun;
    try discriminate.
  cbn [phase2] in Hrun.
  destruct (phase2Dir mp v dt mi sta (ip, l)) as [[stb|e]|] eqn:Hd;
    go_simpl in Hrun; try discriminate.
  apply phase2_effect in H1 as (_ & _ & Hi1).
  apply phase2_effect in Hrun as (Hp & Hs & _).
  exists sta, stb. split; [|auto].
  intros Hx. destruct (Hi1 _ Hx) as [Hk|Hk]; [|auto].
  apply (Hfresh ip Hk). left.
Qed.

(** The same for a directory of [dirs] and a run of extractPackagesFromZip
    that returns packages: the range over [dirs] visits every directory. *)
Lemma extractPackagesFromZip_visits mp v r dt st1 ip l packages states :
  (forall A n (entries : list (string * A)), rangeOrder A n entries ≡ₚ entries) ->
  phase1 mp v r phase1Init = inl st1 ->
  dirs st1 !! ip = Some l ->
  ip ∉ incompleteDirs st1 ->
  extractPackagesFromZip mp v r dt = Ret (packages, states, None) ->
  exists sta stb,
    (ip ∉ p2_incompleteDirs sta)
    /\ phase2Dir mp v dt (moduleInfoOf mp v (dirs st1)) sta (ip, l) = Ret (inl stb)
    /\ (exists ps, packages = pkgs stb ++ ps)
    /\ (exists ss, states = p2_packageVersionStates stb ++ ss).
Proof.
  intros Hrange Hp1 Hdir Hinc.
  unfold extractPackagesFromZip, extractPackagesFromZip_body. rewrite Hp1.
  destruct (phase2 _ _ _ _ _ _) as [[st2|e]|] eqn:Hp2; go_simpl; try discriminate.
  destruct (length (pkgs st2) =? 0)%nat; [discriminate|].
  intros [= <- <-].
  eapply phase2_visits in Hp2; [exact Hp2 | | | exact Hinc].
  - rewrite (Hrange _ _ _). apply NoDup_fst_map_to_list.
  - rewrite (Hrange _ _ _). apply elem_of_map_to_list. exact Hdir.
Qed.

(** Every directory of [dirs] has at least one file. *)
Lemma phase1File_dirs_nonempty mp v st f st' :
  (forall ip l, dirs st !! ip = Some l -> l <> []) ->
  phase1File mp v st f = inl st' ->
  forall ip l, dirs st' !! ip = Some l -> l <> [].
Proof.
  intros Hst. unfold phase1File.
  repeat match goal with
         | |- context [if ?b then _ else _] => destruct b
         | |- context [match ?o with Some _ => _ | None => _ end] => destruct o
         end; try discriminate; intros [= <-]; try exact Hst.
  cbn [dirs]. intros ip l.
  match goal with |- context [<[ ?k := _ ]> _] =>
    destruct (decide (k = ip)) as [->|Hne] end.
  - rewrite lookup_insert_eq. intros [= <-]. intros Happ.
    apply app_eq_nil in Happ as [_ ?]. discriminate.
  - rewrite lookup_insert_ne by exact Hne. apply Hst.
Qed.

Lemma phase1_dirs_nonempty mp v files st st' :
  (forall ip l, dirs st !! ip = Some l -> l <> []) ->
  phase1 mp v files st = inl st' ->
  forall ip l, dirs st' !! ip = Some l -> l <> [].
Proof.
  revert st. induction files as [|f files IH]; intros st Hst.
  - intros [= <-]. exact Hst.
  - cbn [phase1]. destruct (phase1File mp v st f) as [st1|e] eqn:Hf; [|discriminate].
    apply IH. eapply phase1File_dirs_nonempty; eassumption.
Qed.

Lemma path_of_withLicenses dt ip p : Path (withLicenses dt ip p) = Path p.
Proof.
  unfold withLicenses. destruct dt as [d|]; [|reflexivity].
  destruct (PackageInfo d ip). reflexivity.
Qed.

Lemma html_of_withLicenses dt ip p :
  DocumentationHTML (withLicenses dt ip p) = DocumentationHTML p
  /\ pkg_Name (withLicenses dt ip p) = pkg_Name p
  /\ GOOS (withLicenses dt ip p) = GOOS p
  /\ GOARCH (withLicenses dt ip p) = GOARCH p.
Proof.
  unfold withLicenses. destruct dt as [d|]; [|repeat split].
  destruct (PackageInfo d ip). repeat split.
Qed.

(** The state in which phase 2 leaves a directory whose package came with
    ErrTooLarge. *)
Lemma phase2Dir_too_large mp v dt mi st ip l p e :
  ip ∉ p2_incompleteDirs st ->
  loadPackage l ip mi = Ret (Some p, Some e) ->
  errors_Is e ErrTooLarge = true ->
  errors_As_BadPackageError e = false ->
  phase2Dir mp v dt mi st (ip, l) =
    Ret (inl {| p2_incompleteDirs := p2_incompleteDirs st;
                p2_packageVersionStates :=
                  p2_packageVersionStates st ++
                  [ {| pvs_ModulePath := mp;
                       pvs_PackagePath := Path (withLicenses dt ip p);
                       pvs_Version := v;
                       pvs_Status :=
                         ToStatus (errors_New PackageDocumentationHTMLTooLarge);
                       pvs_Error := Error e |} ];
                pkgs := pkgs st ++ [withLicenses dt ip p] |}).
Proof.
  intros Hinc Hload His Has. unfold phase2Dir.
  rewrite bool_decide_eq_false_2 by exact Hinc.
  rewrite Hload. go_simpl. rewrite Has, His. reflexivity.
Qed.

(** C6.  loadPackage goes through the environments in the order (linux,
    amd64), (windows, amd64), (darwin, amd64), (js, wasm), (linux, js).
    It returns a package exactly when an environment of the list yields
    that package and every environment before it yields nil, and then
    with the error of that environment.  If every environment yields nil
    for a directory with .go files, phase 2 gives the directory a state
    with status PackageBuildContextNotSupported (and marks it incomplete);
    the state is among those that extractPackagesFromZip returns. *)
Theorem loadPackage_first_environment l ip mi :
  goEnvs = [ ("linux", "amd64"); ("windows", "amd64"); ("darwin", "amd64");
             ("js", "wasm"); ("linux", "js") ]
  /\ (forall p err,
         loadPackage l ip mi = Ret (Some p, err) <->
         exists pre env post,
           goEnvs = pre ++ env :: post
           /\ Forall (yieldsNil l ip mi) pre
           /\ loadPackageWithBuildContext (fst env) (snd env) l ip mi
              = Ret (Some p, err))
  /\ (Forall (yieldsNil l ip mi) goEnvs ->
      l <> [] ->
      forall mp v dt,
        let state :=
          {| pvs_ModulePath := mp;
             pvs_PackagePath := path.Join [mp; ip];
             pvs_Version := v;
             pvs_Status := ToStatus (errors_New PackageBuildContextNotSupported);
             pvs_Error := "" |} in
        (forall st,
            ip ∉ p2_incompleteDirs st ->
            phase2Dir mp v dt mi st (ip, l) =
              Ret (inl {| p2_incompleteDirs := {[ ip ]} ∪ p2_incompleteDirs st;
                          p2_packageVersionStates :=
                            p2_packageVersionStates st ++ [state];
                          pkgs := pkgs st |}))
        /\ (forall r st1 packages states,
               (forall A n (entries : list (string * A)),
                   rangeOrder A n entries ≡ₚ entries) ->
               phase1 mp v r phase1Init = inl st1 ->
               dirs st1 !! ip = Some l ->
               ip ∉ incompleteDirs st1 ->
               mi = moduleInfoOf mp v (dirs st1) ->
               extractPackagesFromZip mp v r dt = Ret (packages, states, None) ->
               state ∈ states)).
Proof.
  split; [reflexivity|]. split.
  - intros p err. split.
    + apply loadPackage_loop_package.
    + intros (pre & env & post & Henvs & Hpre & Henv). unfold loadPackage.
      rewrite Henvs, loadPackage_loop_skip by exact Hpre.
      apply loadPackage_loop_head. exact Henv.
  - intros Hall Hl mp v dt state.
    assert (loadPackage l ip mi = Ret (None, None)) as Hload.
    { unfold loadPackage. rewrite <- (app_nil_r goEnvs).
      rewrite loadPackage_loop_skip by exact Hall. reflexivity. }
    split.
    + intros st Hinc. apply phase2Dir_no_package; assumption.
    + intros r st1 packages states Hrange Hp1 Hdir Hinc -> Hrun.
      destruct (extractPackagesFromZip_visits _ _ _ _ _ _ _ _ _ Hrange Hp1 Hdir Hinc Hrun)
        as (sta & stb & Hinca & Hstep & _ & (ss & ->)).
      rewrite (phase2Dir_no_package _ _ _ _ _ _ _ Hinca Hl Hload) in Hstep.
      injection Hstep as <-. cbn [p2_packageVersionStates].
      rewrite !elem_of_app. left. right. left.
Qed.

(** C5.  A directory is taken in which the first environment to yield
    something gets as far as the rendering, and the rendering reports
    ErrTooLarge for the limit MaxDocumentationHTML.  Phase 2 then adds the
    package to the packages, with the replacement text as its
    documentation, gives the directory a state with status
    PackageDocumentationHTMLTooLarge, and does not mark the directory
    incomplete.  The package and the state are among those that
    extractPackagesFromZip returns. *)
Theorem documentation_too_large mp v dt mi ip l pre env post d name html e0 :
  goEnvs = pre ++ env :: post ->
  Forall (yieldsNil l ip mi) pre ->
  loadPackageDoc (fst env) (snd env) l ip mi = Ret (inl (d, name)) ->
  dochtml_Render ip d mi MaxDocumentationHTML = Ret (html, Some e0) ->
  errors_Is e0 ErrTooLarge = true ->
  exists p state,
    DocumentationHTML p = docTooLargeReplacement
    /\ pkg_Name p = name /\ GOOS p = fst env /\ GOARCH p = snd env
    /\ pvs_PackagePath state = Path p
    /\ pvs_Status state = ToStatus (errors_New PackageDocumentationHTMLTooLarge)
    /\ pvs_Error state <> ""
    /\ (forall st,
           ip ∉ p2_incompleteDirs st ->
           phase2Dir mp v dt mi st (ip, l) =
             Ret (inl {| p2_incompleteDirs := p2_incompleteDirs st;
                         p2_packageVersionStates :=
                           p2_packageVersionStates st ++ [state];
                         pkgs := pkgs st ++ [p] |}))
    /\ (forall r st1 packages states,
           (forall A n (entries : list (string * A)),
               rangeOrder A n entries ≡ₚ entries) ->
           phase1 mp v r phase1Init = inl st1 ->
           dirs st1 !! ip = Some l ->
           ip ∉ incompleteDirs st1 ->
           mi = moduleInfoOf mp v (dirs st1) ->
           extractPackagesFromZip mp v r dt = Ret (packages, states, None) ->
           p ∈ packages /\ state ∈ states).
Proof.
  intros Henvs Hpre Hdoc Hrender His.
  destruct (loadPackageWithBuildContext_too_large _ _ _ _ _ _ _ _ _ Hdoc Hrender His)
    as (p0 & e & Henv & Hhtml & Hname & Hgoos & Hgoarch & Hise).
  assert (loadPackage l ip mi = Ret (Some p0, Some e)) as Hload.
  { unfold loadPackage. rewrite Henvs, loadPackage_loop_skip by exact Hpre.
    apply loadPackage_loop_head. exact Henv. }
  pose proof (loadPackageWithBuildContext_package_error _ _ _ _ _ _ _ Henv)
    as (_ & Has & _).
  pose proof (html_of_withLicenses dt ip p0) as (Hh & Hn & Hos & Harch).
  exists (withLicenses dt ip p0).
  exists {| pvs_ModulePath := mp;
            pvs_PackagePath := Path (withLicenses dt ip p0);
            pvs_Version := v;
            pvs_Status := ToStatus (errors_New PackageDocumentationHTMLTooLarge);
            pvs_Error := Error e |}.
  split; [congruence|]. split; [congruence|]. split; [congruence|].
  split; [congruence|].
  split; [|split; [|split; [|split]]]; cycle 3.
  - intros st Hinc. apply phase2Dir_too_large; assumption.
  - intros r st1 packages states Hrange Hp1 Hdir Hinc -> Hrun.
    destruct (extractPackagesFromZip_visits _ _ _ _ _ _ _ _ _ Hrange Hp1 Hdir Hinc Hrun)
      as (sta & stb & Hinca & Hstep & (ps & ->) & (ss & ->)).
    rewrite (phase2Dir_too_large _ _ _ _ _ _ _ _ _ Hinca Hload Hise Has) in Hstep.
    injection Hstep as <-. cbn [p2_packageVersionStates pkgs].
    rewrite !elem_of_app. split; left; right; left.
  - reflexivity.
  - reflexivity.
  - cbn [pvs_Error].
    eapply loadPackageWithBuildContext_error_text. exact Henv.
Qed.

(** C9.  extractPackagesFromZip never ends in a panic.  A panic of the
    code it runs is turned into a returned error, with no packages and no
    package states, whose text is the value of the panic followed by the
    stack trace; what the code returns without a panic is returned as it
    is. *)
Theorem extractPackagesFromZip_recovers mp v r dt :
  (forall e, extractPackagesFromZip mp v r dt <> Panic e)
  /\ (forall e,
         extractPackagesFromZip_body mp v r dt = Panic e ->
         exists err,
           extractPackagesFromZip mp v r dt = Ret ([], [], Some err)
           /\ Error err = "internal panic: " +:+ e +:+ newline +:+ newline
                            +:+ debug_Stack)
  /\ (forall result,
         extractPackagesFromZip_body mp v r dt = Ret result ->
         extractPackagesFromZip mp v r dt = Ret result).
Proof.
  unfold extractPackagesFromZip.
  destruct (extractPackagesFromZip_body mp v r dt) as [result|e0].
  - split; [discriminate|]. split; [discriminate|]. intros ? [= <-]. reflexivity.
  - split; [discriminate|]. split; [|discriminate].
    intros e [= <-]. eexists. split; reflexivity.
Qed.

(** *** Package states and their error texts *)

Lemma loadPackage_loop_error_text envs l ip mi pkg e :
  loadPackage_loop envs l ip mi = Ret (pkg, Some e) -> Error e <> "".
Proof.
  induction envs as [|env envs IH]; [discriminate|].
  cbn [loadPackage_loop].
  destruct (loadPackageWithBuildContext (fst env) (snd env) l ip mi)
    as [[pkg0 err0]|] eqn:Hl; go_simpl; [|discriminate].
  destruct err0 as [e0|].
  - pose proof (loadPackageWithBuildContext_error_text _ _ _ _ _ _ _ Hl) as Htext.
    destruct (negb (errors_Is e0 ErrTooLarge)); [intros [= _ <-]; exact Htext|].
    destruct pkg0; [intros [= _ <-]; exact Htext | exact IH].
  - destruct pkg0; [discriminate | exact IH].
Qed.

Section explained_states.
(** The errors of module.CheckImportPath have a text. *)
Hypothesis CheckImportPath_text :
  forall p e, module_CheckImportPath p = Some e -> Error e <> "".

Lemma phase1File_explained mp v st f st' :
  Forall explained (packageVersionStates st) ->
  phase1File mp v st f = inl st' ->
  Forall explained (packageVersionStates st').
Proof.
  intros Hst. unfold phase1File.
  destruct (IsDir f); [intros [= <-]; exact Hst|].
  destruct (negb _); [discriminate|].
  destruct (bool_decide _); [intros [= <-]; exact Hst|].
  destruct (_ || _); [intros [= <-]; exact Hst|].
  destruct (negb _); [intros [= <-]; exact Hst|].
  destruct (module_CheckImportPath _) as [e|] eqn:Hc.
  - intros [= <-]. cbn [packageVersionStates]. apply Forall_app. split; [exact Hst|].
    constructor; [|constructor]. right. right. cbn. eapply CheckImportPath_text, Hc.
  - destruct (MaxFileSize <? _).
    + intros [= <-]. cbn [packageVersionStates]. apply Forall_app.
      split; [exact Hst|]. constructor; [|constructor]. right. right. cbn.
      discriminate.
    + destruct (_ <? _)%nat; [discriminate|]. intros [= <-]. exact Hst.
Qed.

Lemma phase1_explained mp v files st st' :
  Forall explained (packageVersionStates st) ->
  phase1 mp v files st = inl st' ->
  Forall explained (packageVersionStates st').
Proof.
  revert st. induction files as [|f files IH]; intros st Hst.
  - intros [= <-]. exact Hst.
  - cbn [phase1]. destruct (phase1File mp v st f) as [st1|e] eqn:Hf; [|discriminate].
    apply IH. eapply phase1File_explained; eassumption.
Qed.

Lemma phase2Dir_explained mp v dt mi st entry st' :
  Forall explained (p2_packageVersionStates st) ->
  phase2Dir mp v dt mi st entry = Ret (inl st') ->
  Forall explained (p2_packageVersionStates st').
Proof.
  intros Hst. destruct entry as [ip l]. unfold phase2Dir.
  destruct (bool_decide _); [intros [= <-]; exact Hst|].
  destruct (loadPackage l ip mi) as [[pkg err]|] eqn:Hload; go_simpl; [|discriminate].
  assert (forall e, err = Some e -> Error e <> "") as Htext.
  { intros e ->. eapply loadPackage_loop_error_text. exact Hload. }
  set (cls := match err with Some _ => _ | None => _ end).
  assert (forall inc s m, cls = inl (inc, s, m) -> s = None \/ m <> "") as Hcls.
  { subst cls. intros inc s m. destruct err as [e|].
    - destruct (errors_As_BadPackageError e).
      + intros [= _ _ <-]. right. apply Htext. reflexivity.
      + destruct (errors_Is e ErrTooLarge); [|discriminate].
        intros [= _ _ <-]. right. apply Htext. reflexivity.
    - intros [= _ <- _]. left. reflexivity. }
  destruct cls as [[[inc s] m]|e]; [|discriminate].
  specialize (Hcls inc s m eq_refl).
  assert (explained {| pvs_ModulePath := mp; pvs_PackagePath := path.Join [mp; ip];
                       pvs_Version := v;
                       pvs_Status := match s with
                                     | Some s0 => ToStatus (errors_New s0)
                                     | None => http_StatusOK
                                     end;
                       pvs_Error := m |}) as Hnew.
  { destruct Hcls as [->|Hm]; [left; reflexivity | right; right; exact Hm]. }
  destruct pkg as [p|].
  - intros [= <-]. cbn [p2_packageVersionStates]. apply Forall_app.
    split; [exact Hst|]. constructor; [|constructor].
    destruct Hcls as [->|Hm]; [left; reflexivity | right; right; exact Hm].
  - destruct (0 <? length l)%nat; intros [= <-]; cbn [p2_packageVersionStates];
      apply Forall_app; (split; [exact Hst|]); (constructor; [|constructor]).
    + right. left. reflexivity.
    + exact Hnew.
Qed.

Lemma phase2_explained mp v dt mi entries st st' :
  Forall explained (p2_packageVersionStates st) ->
  phase2 mp v dt mi entries st = Ret (inl st') ->
  Forall explained (p2_packageVersionStates st').
Proof.
  revert st. induction entries as [|entry entries IH]; intros st Hst.
  - intros [= <-]. exact Hst.
  - cbn [phase2].
    destruct (phase2Dir mp v dt mi st entry) as [[st1|e]|] eqn:Hd; go_simpl;
      try discriminate.
    apply IH. eapply phase2Dir_explained; eassumption.
Qed.

Lemma extractPackagesFromZip_explained mp v r dt packages states err :
  extractPackagesFromZip mp v r dt = Ret (packages, states, err) ->
  Forall explained states.
Proof.
  unfold extractPackagesFromZip, extractPackagesFromZip_body.
  destruct (phase1 mp v r phase1Init) as [st1|e] eqn:Hp1.
  2: { intros [= _ <- _]. constructor. }
  destruct (phase2 _ _ _ _ _ _) as [[st2|e]|] eqn:Hp2; go_simpl.
  - assert (Forall explained (p2_packageVersionStates st2)) as Hok.
    { eapply phase2_explained; [|exact Hp2]. cbn.
      eapply phase1_explained; [|exact Hp1]. constructor. }
    destruct (length (pkgs st2) =? 0)%nat; intros [= _ <- _]; exact Hok.
  - intros [= _ <- _]. constructor.
  - intros [= _ <- _]. constructor.
Qed.

Lemma processZipFile_explained mp v ct r m states err :
  processZipFile mp v ct r = Ret (m, states, err) ->
  Forall explained states.
Proof.
  unfold processZipFile.
  destruct (extractReadmesFromZip mp v r); [|intros [= _ <- _]; constructor].
  destruct (extractPackagesFromZip mp v r _) as [[[packages states0] err0]|] eqn:He;
    go_simpl; [|discriminate].
  apply extractPackagesFromZip_explained in He.
  destruct err0 as [e|].
  - destruct (_ || _); intros [= _ <- _]; constructor.
  - destruct (filter _ _) as [|rd ?]; intros [= _ <- _]; exact He.
Qed.

Lemma FetchModule_explained mi fr :
  FetchModule mi = Ret fr ->
  Forall explained (fr_PackageVersionStates fr).
Proof.
  unfold FetchModule.
  destruct (info_Error mi); [intros [= <-]; constructor|].
  match goal with |- context [match ?o with inl _ => _ | inr _ => _ end] =>
    destruct o as [[[zr ct] gm]|[gm e]] end.
  2: { intros [= <-]. constructor. }
  destruct (processZipFile _ _ _ _) as [[[m states] err]|] eqn:Hp; go_simpl;
    [|discriminate].
  apply processZipFile_explained in Hp.
  destruct err; intros [= <-]; [constructor | exact Hp].
Qed.

(** C3, as the code has it.  Every package state that an ingestion emits,
    in phase 1 or in phase 2, has a non-empty error when its status is
    neither 200 nor that of PackageBuildContextNotSupported.  This is so
    for the states that extractPackagesFromZip returns and for those of
    the result of FetchModule.  A directory with .go files for which
    loadPackage returns no package and no error gets a state with the
    status of PackageBuildContextNotSupported and an empty error. *)
Theorem package_state_error_nonempty :
  (forall mp v r dt packages states err,
      extractPackagesFromZip mp v r dt = Ret (packages, states, err) ->
      forall state,
        state ∈ states ->
        pvs_Status state <> 200 ->
        pvs_Status state <> ToStatus (errors_New PackageBuildContextNotSupported) ->
        pvs_Error state <> "")
  /\ (forall mi fr,
         FetchModule mi = Ret fr ->
         forall state,
           state ∈ fr_PackageVersionStates fr ->
           pvs_Status state <> 200 ->
           pvs_Status state <> ToStatus (errors_New PackageBuildContextNotSupported) ->
           pvs_Error state <> "")
  /\ (forall mp v dt mi st ip l,
         ip ∉ p2_incompleteDirs st ->
         l <> [] ->
         loadPackage l ip mi = Ret (None, None) ->
         exists st' state,
           phase2Dir mp v dt mi st (ip, l) = Ret (inl st')
           /\ p2_packageVersionStates st' = p2_packageVersionStates st ++ [state]
           /\ pvs_Status state = ToStatus (errors_New PackageBuildContextNotSupported)
           /\ pvs_Error state = "").
Proof.
  assert (forall states, Forall explained states ->
            forall state, state ∈ states ->
              pvs_Status state <> 200 ->
              pvs_Status state <> ToStatus (errors_New PackageBuildContextNotSupported) ->
              pvs_Error state <> "") as Hall.
  { intros states Hok state Hin H200 Hbc.
    rewrite Forall_forall in Hok. destruct (Hok state Hin) as [H|[H|H]];
      [contradiction | contradiction | exact H]. }
  split; [|split].
  - intros mp v r dt packages states err Hrun.
    apply Hall. eapply extractPackagesFromZip_explained; exact Hrun.
  - intros mi fr Hrun. apply Hall. exact (FetchModule_explained mi fr Hrun).
  - intros mp v dt mi st ip l Hinc Hl Hload.
    rewrite (phase2Dir_no_package mp v dt mi st ip l Hinc Hl Hload).
    eexists. eexists. split; [reflexivity|]. repeat split.
Qed.

End explained_states.

(** *** What else loadPackage and phase 2 do

    The first environment that returns anything but nil, nil decides: a
    package, an error, or a panic. *)
Lemma loadPackage_stops_on_error l ip mi pre env post e :
  goEnvs = pre ++ env :: post ->
  Forall (yieldsNil l ip mi) pre ->
  loadPackageWithBuildContext (fst env) (snd env) l ip mi = Ret (None, Some e) ->
  loadPackage l ip mi = Ret (None, Some e).
Proof.
  intros Henvs Hpre Henv. unfold loadPackage.
  rewrite Henvs, loadPackage_loop_skip by exact Hpre.
  cbn [loadPackage_loop]. rewrite Henv. go_simpl.
  rewrite (loadPackageWithBuildContext_no_package _ _ _ _ _ _ Henv). reflexivity.
Qed.

Lemma loadPackage_panics l ip mi pre env post v :
  goEnvs = pre ++ env :: post ->
  Forall (yieldsNil l ip mi) pre ->
  loadPackageWithBuildContext (fst env) (snd env) l ip mi = Panic v ->
  loadPackage l ip mi = Panic v.
Proof.
  intros Henvs Hpre Henv. unfold loadPackage.
  rewrite Henvs, loadPackage_loop_skip by exact Hpre.
  cbn [loadPackage_loop]. rewrite Henv. reflexivity.
Qed.

(** For a directory whose files do not make up a valid package, the status
    PackageInvalidContents that phase 2 first chooses is replaced, there
    being no package and at least one file, by that of
    PackageBuildContextNotSupported; the text of the error is kept. *)
Lemma phase2Dir_bad_package mp v dt mi st ip l e :
  ip ∉ p2_incompleteDirs st ->
  l <> [] ->
  loadPackage l ip mi = Ret (None, Some e) ->
  errors_As_BadPackageError e = true ->
  phase2Dir mp v dt mi st (ip, l) =
    Ret (inl {| p2_incompleteDirs := {[ ip ]} ∪ ({[ ip ]} ∪ p2_incompleteDirs st);
                p2_packageVersionStates :=
                  p2_packageVersionStates st ++
                  [ {| pvs_ModulePath := mp;
                       pvs_PackagePath := path.Join [mp; ip];
                       pvs_Version := v;
                       pvs_Status := ToStatus (errors_New PackageBuildContextNotSupported);
                       pvs_Error := Error e |} ];
                pkgs := pkgs st |}).
Proof.
  intros Hinc Hl Hload Has. unfold phase2Dir.
  rewrite bool_decide_eq_false_2 by exact Hinc.
  rewrite Hload. go_simpl. rewrite Has.
  destruct l; [congruence|]. reflexivity.
Qed.

(** An error of loadPackage that is neither a *BadPackageError nor
    ErrTooLarge ends phase 2. *)
Lemma phase2Dir_unexpected_error mp v dt mi st ip l pkg e :
  ip ∉ p2_incompleteDirs st ->
  loadPackage l ip mi = Ret (pkg, Some e) ->
  errors_As_BadPackageError e = false ->
  errors_Is e ErrTooLarge = false ->
  phase2Dir mp v dt mi st (ip, l) =
    Ret (inr (fmt_Errorf ("unexpected error loading package: " +:+ Error e) None)).
Proof.
  intros Hinc Hload Has His. unfold phase2Dir.
  rewrite bool_decide_eq_false_2 by exact Hinc.
  rewrite Hload. go_simpl. rewrite Has, His. reflexivity.
Qed.

End phase2_properties.

(** The sample world has identity as the order of its ranges, and its
    module.CheckImportPath gives its errors a text. *)
Lemma sample_rangeOrder A n (entries : list (string * A)) :
  rangeOrder (World:=sample.world) A n entries ≡ₚ entries.
Proof. reflexivity. Defined.

Lemma sample_CheckImportPath_text p e :
  module_CheckImportPath (World:=sample.world) p = Some e ->
  Error (W:=sample.world) e <> "".
Proof.
  cbn. destruct (strings.Contains p " "); [|discriminate].
  intros [= <-]. discriminate.
Defined.

(** A file for windows only is loaded in the second environment; a file
    for plan9 only in none, and its directory gets the status of
    PackageBuildContextNotSupported, 600 in the sample world. *)
Lemma loadPackage_first_environment_witness :
  (exists p,
      loadPackage (W:=sample.world)
        [sample.file "m@v1/w/w.go" "+build windows;package w"] "w"
        (moduleInfoOf "m" "v1" ∅) = Ret (Some p, None)
      /\ GOOS p = "windows")
  /\ phase2Dir (W:=sample.world) "example.com/mixed" "v1.0.0" None
       (moduleInfoOf "example.com/mixed" "v1.0.0" ∅)
       {| p2_incompleteDirs := ∅; p2_packageVersionStates := []; pkgs := [] |}
       ("b", [sample.file "example.com/mixed@v1.0.0/b/b.go" "+build plan9;package b"])
     = Ret (inl {| p2_incompleteDirs := {[ "b" ]} ∪ ∅;
                   p2_packageVersionStates :=
                     [] ++ [ {| pvs_ModulePath := "example.com/mixed";
                                pvs_PackagePath := "example.com/mixed/b";
                                pvs_Version := "v1.0.0";
                                pvs_Status := 600;
                                pvs_Error := "" |} ];
                   pkgs := [] |}).
Proof.
  split.
  - eexists. split.
    + apply (proj2 (proj1 (proj2 (loadPackage_first_environment (W:=sample.world)
                [sample.file "m@v1/w/w.go" "+build windows;package w"] "w"
                (moduleInfoOf "m" "v1" ∅))) _ _)).
      exists [("linux", "amd64")], ("windows", "amd64"),
        [("darwin", "amd64"); ("js", "wasm"); ("linux", "js")].
      split; [reflexivity|]. split.
      * constructor; [vm_compute; reflexivity | constructor].
      * vm_compute. reflexivity.
    + reflexivity.
  - assert (Forall (yieldsNil (W:=sample.world)
                      [sample.file "example.com/mixed@v1.0.0/b/b.go"
                         "+build plan9;package b"]
                      "b" (moduleInfoOf "example.com/mixed" "v1.0.0" ∅))
                   (goEnvs)) as Hall
      by (repeat constructor).
    apply (proj1 (proj2 (proj2 (loadPackage_first_environment (W:=sample.world)
             [sample.file "example.com/mixed@v1.0.0/b/b.go" "+build plan9;package b"]
             "b" (moduleInfoOf "example.com/mixed" "v1.0.0" ∅)))
             Hall ltac:(discriminate) "example.com/mixed" "v1.0.0" None)).
    apply not_elem_of_empty.
Defined.

(** A package whose documentation is larger than the 20 bytes of the sample
    world. *)
Lemma documentation_too_large_witness :
  exists p state,
    DocumentationHTML p = "<p>Documentation is too large to display.</p>"
    /\ pvs_Status state = 603
    /\ phase2Dir (W:=sample.world) "example.com/verbose" "v1.0.0" None
         (moduleInfoOf "example.com/verbose" "v1.0.0" ∅)
         {| p2_incompleteDirs := ∅; p2_packageVersionStates := []; pkgs := [] |}
         (".", sample.verboseModule)
       = Ret (inl {| p2_incompleteDirs := ∅;
                     p2_packageVersionStates := [] ++ [state];
                     pkgs := [] ++ [p] |}).
Proof.
  destruct (documentation_too_large (W:=sample.world)
              "example.com/verbose" "v1.0.0" None
              (moduleInfoOf "example.com/verbose" "v1.0.0" ∅) "."
              sample.verboseModule [] ("linux", "amd64")
              [("windows", "amd64"); ("darwin", "amd64"); ("js", "wasm"); ("linux", "js")]
              {| doc_ImportPath := "example.com/verbose";
                 doc_Name := "verbosepackagename";
                 doc_Doc := "Package verbosepackagename";
                 doc_Imports := []; doc_Consts := []; doc_Vars := [];
                 doc_Funcs := []; doc_Types := [] |}
              "verbosepackagename" "" (errors_New ErrTooLarge)
              eq_refl (List.Forall_nil _) eq_refl eq_refl eq_refl)
    as (p & state & Hhtml & _ & _ & _ & _ & Hstatus & _ & Hstep & _).
  exists p, state. split; [exact Hhtml|]. split; [exact Hstatus|].
  apply Hstep. apply not_elem_of_empty.
Defined.

(** The documentation builder of the sample world loses the name of the
    package [odd]: loadPackageWithBuildContext panics, and the panic is
    returned as an error. *)
Lemma extractPackagesFromZip_recovers_witness :
  exists e err,
    extractPackagesFromZip_body (W:=sample.world)
      "example.com/odd" "v1.0.0" sample.oddModule None = Panic e
    /\ extractPackagesFromZip (W:=sample.world)
         "example.com/odd" "v1.0.0" sample.oddModule None = Ret ([], [], Some err)
    /\ Error (W:=sample.world) err
       = "internal panic: " +:+ e +:+ newline +:+ newline
           +:+ debug_Stack (World:=sample.world).
Proof.
  eexists.
  assert (extractPackagesFromZip_body (W:=sample.world)
            "example.com/odd" "v1.0.0" sample.oddModule None = Panic _) as Hbody
    by (vm_compute; reflexivity).
  destruct (proj1 (proj2 (extractPackagesFromZip_recovers (W:=sample.world)
              "example.com/odd" "v1.0.0" sample.oddModule None)) _ Hbody)
    as (err & Hrun & Htext).
  exists err. split; [exact Hbody|]. split; [exact Hrun | exact Htext].
Defined.

(** The state of the package with too large a documentation has status
    603 and an error text. *)
Lemma package_state_error_nonempty_witness :
  exists fr,
    FetchModule (W:=sample.world)
      {| ModulePath := "example.com/verbose"; RequestedVersion := "latest";
         ResolvedVersion := "v1.0.0"; CommitTime := 0; ZipSize := 0;
         info_Error := None |} = Ret fr
    /\ forall state,
         state ∈ fr_PackageVersionStates fr ->
         pvs_Status state <> 200 ->
         pvs_Status state <> 600 ->
         pvs_Error state <> "".
Proof.
  eexists. split.
  - vm_compute. reflexivity.
  - apply (proj1 (proj2 (package_state_error_nonempty (W:=sample.world)
                           sample_CheckImportPath_text))
             {| ModulePath := "example.com/verbose"; RequestedVersion := "latest";
                ResolvedVersion := "v1.0.0"; CommitTime := 0; ZipSize := 0;
                info_Error := None |}).
    vm_compute. reflexivity.
Defined.

(** C3 fails on the code: the fetch of a module with a package and with a
    directory that no environment matches succeeds, and the state of that
    directory has status 600, not 200, and an empty error. *)
Lemma build_context_state_without_error :
  exists fr state,
    FetchModule (W:=sample.world)
      {| ModulePath := "example.com/mixed"; RequestedVersion := "latest";
         ResolvedVersion := "v1.0.0"; CommitTime := 0; ZipSize := 0;
         info_Error := None |} = Ret fr
    /\ fr_Error fr = None
    /\ state ∈ fr_PackageVersionStates fr
    /\ pvs_PackagePath state = "example.com/mixed/b"
    /\ pvs_Status state <> 200
    /\ pvs_Error state = "".
Proof.
  eexists. eexists. split; [vm_compute; reflexivity|].
  split; [reflexivity|]. split; [right; left|].
  split; [reflexivity|]. split; [discriminate | reflexivity].
Qed.


(** ** FetchModule and the coordinator *)
Section coordinator_properties.
Context {W : World}.

(** C4.  When the go.mod of the module declares a path other than the one
    requested, FetchModule returns no module and no package states, an
    error of kind AlternativeModule and the status 491.  Once a row with
    that status is in the version map for the module path and the
    requested version, as it is after the result has been recorded,
    fetchAndPoll for that module path and version answers 404 and leaves
    the state as it is: no ingestion is started and no row written. *)
Theorem alternative_module_short_circuit mi goModBytes :
  info_Error mi = None ->
  ModulePath mi <> stdlib_ModulePath ->
  proxy_GetMod (ModulePath mi) (ResolvedVersion mi) = inl goModBytes ->
  modfile_ModulePath goModBytes <> "" ->
  modfile_ModulePath goModBytes <> ModulePath mi ->
  exists fr e,
    FetchModule mi = Ret fr
    /\ fr_Module fr = None
    /\ fr_PackageVersionStates fr = []
    /\ fr_Error fr = Some e
    /\ errors_Is e AlternativeModule = true
    /\ fr_Status fr = 491
    /\ (forall m,
           UpsertVersionMap (versionMapOf fr) m
             !! (ModulePath mi, RequestedVersion mi) = Some (versionMapOf fr))
    /\ (forall maxPathsToFetch knownHosts validVersion ingest st vm fullPath,
           versionMap st !! (ModulePath mi, RequestedVersion mi) = Some vm ->
           vm_Status vm = fr_Status fr ->
           fetchAndPoll maxPathsToFetch knownHosts validVersion ingest st
             (ModulePath mi) fullPath (RequestedVersion mi) = (404, st)).
Proof.
  intros Herr Hstd Hmod Hnonempty Hdiff.
  unfold FetchModule. rewrite Herr.
  replace (String.eqb (ModulePath mi) stdlib_ModulePath) with false
    by (symmetry; apply String.eqb_neq; exact Hstd).
  rewrite Hmod.
  replace (String.eqb (modfile_ModulePath goModBytes) "") with false
    by (symmetry; apply String.eqb_neq; exact Hnonempty).
  replace (String.eqb (modfile_ModulePath goModBytes) (ModulePath mi)) with false
    by (symmetry; apply String.eqb_neq; exact Hdiff).
  cbn [negb]. eexists. eexists. split; [reflexivity|].
  split; [reflexivity|]. split; [reflexivity|]. split; [reflexivity|].
  split; [reflexivity|]. split; [reflexivity|]. split.
  - intros m. unfold UpsertVersionMap. cbn. apply lookup_insert_eq.
  - intros maxPathsToFetch knownHosts validVersion ingest st vm fullPath Hrow Hstatus.
    unfold fetchAndPoll. rewrite Hrow, Hstatus. reflexivity.
Qed.

(** The test TestFetchPathAlreadyExists of fetch_test.go puts a row into
    the version map and wants 200 for the status 200, 404 for 404, and 404
    for the status of AlternativeModule. *)
Lemma TestFetchPathAlreadyExists
    maxPathsToFetch knownHosts validVersion ingest st vm mp fullPath version :
  versionMap st !! (mp, version) = Some vm ->
  let got := fst (fetchAndPoll maxPathsToFetch knownHosts validVersion ingest st
                    mp fullPath version) in
  (vm_Status vm = http_StatusOK -> got = http_StatusOK)
  /\ (vm_Status vm = 404 -> got = 404)
  /\ (vm_Status vm = ToStatus (errors_New AlternativeModule) -> got = 404).
Proof.
  intros Hrow. unfold fetchAndPoll. rewrite Hrow. cbn.
  repeat split; intros ->; reflexivity.
Qed.

(** *** candidateModulePaths *)

Lemma HasPrefix_app a c : strings.HasPrefix (a +:+ c) a = true.
Proof.
  unfold strings.HasPrefix. induction a as [|x a IH]; simpl.
  - destruct c; reflexivity.
  - destruct (ascii_dec x x); [exact IH | congruence].
Qed.

Lemma HasPrefix_trans a b c :
  strings.HasPrefix b a = true -> strings.HasPrefix c b = true ->
  strings.HasPrefix c a = true.
Proof.
  unfold strings.HasPrefix. revert b c.
  induction a as [|x a IH]; intros b c; [destruct c; reflexivity|].
  destruct b as [|y b]; simpl; [discriminate|].
  destruct (ascii_dec x y) as [->|]; [|discriminate].
  destruct c as [|z c]; simpl; [discriminate|].
  destruct (ascii_dec y z) as [->|]; [|discriminate].
  destruct (ascii_dec z z); [|congruence]. apply IH.
Qed.

Lemma HasPrefix_refl a : strings.HasPrefix a a = true.
Proof.
  unfold strings.HasPrefix. induction a as [|x a IH]; simpl; [reflexivity|].
  destruct (ascii_dec x x); [exact IH | congruence].
Qed.

Lemma length_append (a b : string) :
  String.length (a +:+ b) = (String.length a + String.length b)%nat.
Proof. induction a as [|x a IH]; simpl; [reflexivity | rewrite IH; reflexivity]. Qed.

Lemma properPrefix_irrefl a : ~ properPrefix a a.
Proof. intros [_ H]. lia. Qed.

(** Every prefix that prefixesFrom produces properly extends [acc], and
    each of them properly extends those before it. *)
Lemma prefixesFrom_sorted parts :
  forall acc,
    Forall (properPrefix acc) (prefixesFrom acc parts)
    /\ StronglySorted properPrefix (prefixesFrom acc parts).
Proof.
  induction parts as [|p parts IH]; intros acc; cbn [prefixesFrom].
  - split; constructor.
  - set (cur := if String.eqb acc "" then p else acc +:+ "/" +:+ p).
    assert (strings.HasPrefix cur acc = true
            /\ (String.length acc <= String.length cur)%nat
            /\ (p <> "" -> (String.length acc < String.length cur)%nat))
      as (Hpre & Hle & Hlt).
    { subst cur. destruct (String.eqb_spec acc "") as [->|Hacc].
      - split; [destruct p; reflexivity|]. split; [cbn; lia|].
        intros Hp. destruct p; [congruence | cbn; lia].
      - split; [apply HasPrefix_app|]. rewrite !length_append. cbn. lia. }
    destruct (IH cur) as [Hall Hsorted].
    assert (Forall (properPrefix acc) (prefixesFrom cur parts)) as Hacc.
    { eapply Forall_impl; [exact Hall|]. intros x [Hx Hlen]. split.
      - eapply HasPrefix_trans; eassumption.
      - lia. }
    destruct (String.eqb_spec p "") as [Hp|Hp].
    + split; [exact Hacc | exact Hsorted].
    + split.
      * constructor; [|exact Hacc]. split; [exact Hpre | apply Hlt, Hp].
      * constructor; [exact Hsorted | exact Hall].
Qed.

Lemma StronglySorted_rev {A} (R : relation A) l :
  StronglySorted R l -> StronglySorted (flip R) (rev l).
Proof.
  induction 1 as [|x l Hl IH Hx]; cbn [rev]; [constructor|].
  apply StronglySorted_app. split; [|split; [exact IH | repeat constructor]].
  intros x1 x2 Hx1 Hx2. apply list_elem_of_singleton in Hx2 as ->.
  rewrite Forall_forall in Hx. apply Hx.
  apply list_elem_of_In, in_rev, list_elem_of_In. exact Hx1.
Qed.

Lemma StronglySorted_NoDup {A} (R : relation A) l :
  (forall x, ~ R x x) -> StronglySorted R l -> NoDup l.
Proof.
  intros Hirr. induction 1 as [|x l Hl IH Hx]; constructor; [|exact IH].
  intros Hin. rewrite Forall_forall in Hx. exact (Hirr x (Hx x Hin)).
Qed.

Lemma dedup_NoDup l :
  forall seen,
    NoDup l -> (forall x, x ∈ l -> existsb (String.eqb x) seen = false) ->
    dedup seen l = l.
Proof.
  induction l as [|x l IH]; intros seen Hnd Hseen; [reflexivity|].
  cbn [dedup]. rewrite (Hseen x) by left.
  apply NoDup_cons in Hnd as [Hx Hnd]. f_equal. apply IH; [exact Hnd|].
  intros y Hy. cbn [existsb]. rewrite (Hseen y) by (right; exact Hy).
  destruct (String.eqb_spec y x) as [->|]; [contradiction | reflexivity].
Qed.

(** The candidates before truncation go from the most to the least
    specific: each is a proper prefix of all those before it. *)
Lemma allCandidates_sorted knownHosts fullPath :
  StronglySorted (flip properPrefix) (allCandidates knownHosts fullPath).
Proof.
  unfold allCandidates. destruct (existsb _ knownHosts).
  - repeat constructor.
  - unfold pathSequence.
    pose proof (StronglySorted_rev _ _
                  (proj2 (prefixesFrom_sorted
                            (strings.Split fullPath path.slash) ""))) as Hs.
    rewrite dedup_NoDup; [exact Hs | | reflexivity].
    eapply StronglySorted_NoDup; [|exact Hs].
    intros x. apply properPrefix_irrefl.
Qed.

(** C1, as the test has it.  For a full path with more than
    maxPathsToFetch candidate module paths, candidateModulePaths returns
    exactly maxPathsToFetch of them: the last ones of the sequence, which
    are the least specific.  Every candidate left out, the first and most
    specific one among them, is more specific than every candidate
    returned, and the result goes from the most to the least specific of
    those kept. *)
Theorem candidateModulePaths_keeps_least_specific
    maxPathsToFetch knownHosts fullPath :
  (maxPathsToFetch < length (allCandidates knownHosts fullPath))%nat ->
  exists dropped,
    allCandidates knownHosts fullPath
      = dropped ++ candidateModulePaths maxPathsToFetch knownHosts fullPath
    /\ dropped <> []
    /\ head dropped = head (allCandidates knownHosts fullPath)
    /\ length (candidateModulePaths maxPathsToFetch knownHosts fullPath)
       = maxPathsToFetch
    /\ StronglySorted (flip properPrefix)
         (candidateModulePaths maxPathsToFetch knownHosts fullPath)
    /\ (forall x y,
           x ∈ dropped ->
           y ∈ candidateModulePaths maxPathsToFetch knownHosts fullPath ->
           properPrefix y x).
Proof.
  intros Hlen. unfold candidateModulePaths.
  replace (maxPathsToFetch <? length (allCandidates knownHosts fullPath))%nat
    with true by (symmetry; apply Nat.ltb_lt; exact Hlen).
  pose proof (allCandidates_sorted knownHosts fullPath) as Hsorted.
  set (all := allCandidates knownHosts fullPath) in *.
  set (n := (length all - maxPathsToFetch)%nat).
  assert (n <> 0%nat) as Hn by (subst n; lia).
  exists (firstn n all).
  rewrite <- (firstn_skipn n all) in Hsorted.
  split; [symmetry; apply firstn_skipn|]. split; [|split].
  - intros Hnil. apply (f_equal length) in Hnil.
    rewrite length_take in Hnil. cbn in Hnil. subst n. lia.
  - destruct n; [congruence|]. destruct all; reflexivity.
  - split; [rewrite length_skipn; subst n; lia|]. split.
    + eapply StronglySorted_app_1_r. exact Hsorted.
    + intros x y Hx Hy.
      exact (StronglySorted_app_1_elem_of _ _ _ _ _ Hsorted Hx Hy).
Qed.

End coordinator_properties.

(** The go.mod that the proxy of the sample world serves for
    github.com/fork declares github.com/module. *)
Lemma alternative_module_short_circuit_witness :
  exists fr e,
    FetchModule (W:=sample.world)
      {| ModulePath := "github.com/fork"; RequestedVersion := "latest";
         ResolvedVersion := "v1.0.0"; CommitTime := 0; ZipSize := 0;
         info_Error := None |} = Ret fr
    /\ fr_Module fr = None
    /\ fr_Error fr = Some e
    /\ errors_Is e AlternativeModule = true
    /\ fr_Status fr = 491
    /\ forall fullPath,
         fetchAndPoll 7 [] (fun _ => true) (fun _ _ => None)
           {| versionMap := UpsertVersionMap (versionMapOf fr) ∅; started := [] |}
           "github.com/fork" fullPath "latest"
         = (404, {| versionMap := UpsertVersionMap (versionMapOf fr) ∅;
                    started := [] |}).
Proof.
  destruct (alternative_module_short_circuit (W:=sample.world)
              {| ModulePath := "github.com/fork"; RequestedVersion := "latest";
                 ResolvedVersion := "v1.0.0"; CommitTime := 0; ZipSize := 0;
                 info_Error := None |}
              "module github.com/module" eq_refl
              ltac:(discriminate) eq_refl ltac:(discriminate) ltac:(discriminate))
    as (fr & e & Hrun & Hmod & _ & Herr & Hkind & Hstatus & Hrow & Hpoll).
  exists fr, e. repeat (split; [assumption|]).
  intros fullPath. apply (Hpoll 7%nat [] _ _ _ (versionMapOf fr)).
  - apply Hrow.
  - reflexivity.
Defined.

(** The model of candidateModulePaths gives what TestCandidateModulePaths
    wants, here with the module path of its first case for
    sample.ModulePath. *)
Example TestCandidateModulePaths_passes :
  Forall (fun test => candidateModulePaths 7 [] (fst test) = snd test)
         (TestCandidateModulePaths "my.module").
Proof. repeat constructor. Qed.

(** Ten candidates, of which seven are kept. *)
Lemma candidateModulePaths_keeps_least_specific_witness :
  exists dropped,
    allCandidates [] "my.module/1/2/3/4/5/6/7/8/9"
      = dropped ++ candidateModulePaths 7 [] "my.module/1/2/3/4/5/6/7/8/9"
    /\ dropped <> []
    /\ head dropped = head (allCandidates [] "my.module/1/2/3/4/5/6/7/8/9")
    /\ length (candidateModulePaths 7 [] "my.module/1/2/3/4/5/6/7/8/9") = 7%nat
    /\ StronglySorted (flip properPrefix)
         (candidateModulePaths 7 [] "my.module/1/2/3/4/5/6/7/8/9")
    /\ (forall x y,
           x ∈ dropped ->
           y ∈ candidateModulePaths 7 [] "my.module/1/2/3/4/5/6/7/8/9" ->
           properPrefix y x).
Proof.
  apply (candidateModulePaths_keeps_least_specific 7 [] "my.module/1/2/3/4/5/6/7/8/9").
  vm_compute. lia.
Defined.

(** C1 fails on the test: with maxPathsToFetch = 7, a path of ten
    candidates gets the seven that the third case of
    TestCandidateModulePaths lists, which end in the module path itself.
    They are not the seven longest prefixes: the full path, the most
    specific candidate, is not among them. *)
Lemma truncation_drops_most_specific :
  let fullPath := "my.module/1/2/3/4/5/6/7/8/9" in
  (7 < length (allCandidates [] fullPath))%nat
  /\ candidateModulePaths 7 [] fullPath
     = [ "my.module/1/2/3/4/5/6"; "my.module/1/2/3/4/5"; "my.module/1/2/3/4";
         "my.module/1/2/3"; "my.module/1/2"; "my.module/1"; "my.module" ]
  /\ candidateModulePaths 7 [] fullPath <> candidateModulePaths_longest 7 [] fullPath
  /\ hd "" (allCandidates [] fullPath) = fullPath
  /\ fullPath ∉ candidateModulePaths 7 [] fullPath.
Proof.
  cbv zeta. split; [vm_compute; lia|]. split; [reflexivity|].
  split; [vm_compute; discriminate|]. split; [reflexivity|].
  rewrite list_elem_of_In. vm_compute. intuition discriminate.
Qed.

(** * Further properties of fetch.go

    ** Invariants of phase 1 *)
Section phase1_invariants.
Context {W : World}.

(** What the loop body does to [dirs]: nothing, or it appends the file to
    the list of its directory, having checked it. *)
Lemma phase1File_dirs mp v st f st' :
  phase1File mp v st f = inl st' ->
  dirs st' = dirs st
  \/ (dirs st' = dirsWith mp v st f
      /\ acceptedFile mp v (innerPathOf mp v f) f
      /\ (size (dirsWith mp v st f) <= maxPackagesPerModule)%nat).
Proof.
  unfold phase1File, acceptedFile, dirsWith, importPathOf, innerPathOf.
  destruct (IsDir f) eqn:Hdir; [intros [= <-]; left; reflexivity|].
  destruct (strings.HasPrefix (Name f) _) eqn:Hp; cbn [negb]; [|discriminate].
  destruct (bool_decide _); [intros [= <-]; left; reflexivity|].
  destruct (ignoredByGoTool _) eqn:Hig; cbn [orb];
    [intros [= <-]; left; reflexivity|].
  destruct (isVendored _) eqn:Hven; [intros [= <-]; left; reflexivity|].
  destruct (strings.HasSuffix _ _) eqn:Hs; cbn [negb];
    [|intros [= <-]; left; reflexivity].
  destruct (module_CheckImportPath _) eqn:Hc; [intros [= <-]; left; reflexivity|].
  destruct (MaxFileSize <? UncompressedSize64 f) eqn:Hsz;
    [intros [= <-]; left; reflexivity|].
  destruct (_ <? _)%nat eqn:Hn; [discriminate|].
  intros [= <-]. right. cbn [dirs].
  apply Z.ltb_ge in Hsz. apply Nat.ltb_ge in Hn.
  repeat split; assumption || reflexivity.
Qed.

Lemma phase1File_dirsInvariant mp v seen st f st' :
  dirsInvariant mp v seen (dirs st) ->
  phase1File mp v st f = inl st' ->
  dirsInvariant mp v (seen ++ [f]) (dirs st').
Proof.
  intros Hinv Hstep.
  assert (dirsInvariant mp v (seen ++ [f]) (dirs st)) as Hweak.
  { intros ip l Hl. destruct (Hinv ip l Hl) as (Hne & Hacc & Hsub).
    split; [exact Hne|]. split; [exact Hacc|].
    apply sublist_inserts_r. exact Hsub. }
  destruct (phase1File_dirs mp v st f st' Hstep) as [->|(-> & Hf & _)];
    [exact Hweak|].
  intros ip l. unfold dirsWith.
  destruct (decide (innerPathOf mp v f = ip)) as [<-|Hne].
  - rewrite lookup_insert_eq. intros [= <-].
    split; [intros Happ; apply app_eq_nil in Happ as [_ ?]; discriminate|].
    destruct (dirs st !! innerPathOf mp v f) as [l0|] eqn:Hl0;
      unfold default; cbn [from_option id].
    + destruct (Hinv _ _ Hl0) as (_ & Hacc & Hsub). split.
      * apply Forall_app. split; [exact Hacc | constructor; [exact Hf | constructor]].
      * apply sublist_app; [exact Hsub | reflexivity].
    + split; [constructor; [exact Hf | constructor]|].
      cbn [app]. apply sublist_inserts_l. reflexivity.
  - rewrite lookup_insert_ne by exact Hne. apply Hweak.
Qed.

Lemma phase1_dirsInvariant mp v files :
  forall seen st st',
    dirsInvariant mp v seen (dirs st) ->
    phase1 mp v files st = inl st' ->
    dirsInvariant mp v (seen ++ files) (dirs st').
Proof.
  induction files as [|f files IH]; intros seen st st' Hinv.
  - intros [= <-]. rewrite app_nil_r. exact Hinv.
  - cbn [phase1]. destruct (phase1File mp v st f) as [st1|e] eqn:Hf; [|discriminate].
    intros Hrest. replace (seen ++ f :: files) with ((seen ++ [f]) ++ files)
      by (rewrite <- app_assoc; reflexivity).
    eapply IH; [|exact Hrest]. eapply phase1File_dirsInvariant; eassumption.
Qed.

(** X1.  When phase 1 succeeds, [dirs] holds for every directory a
    non-empty list of entries of the archive, in the order of the archive;
    each of them is a non-directory entry under the module prefix, with
    suffix .go, of size at most MaxFileSize, whose directory is the key,
    and whose import path is valid, not ignored by the go tool and not
    vendored. *)
Theorem phase1_dirs_hold_accepted_files mp v r st :
  phase1 mp v r phase1Init = inl st ->
  forall innerPath l,
    dirs st !! innerPath = Some l ->
    l <> []
    /\ Forall (acceptedFile mp v innerPath) l
    /\ l `sublist_of` r.
Proof.
  intros Hrun.
  apply (phase1_dirsInvariant mp v r [] phase1Init st); [|exact Hrun].
  intros ip l Hl. cbn in Hl. rewrite lookup_empty in Hl. discriminate.
Qed.

(** X2.  When phase 1 succeeds, [dirs] has at most maxPackagesPerModule
    directories. *)
Theorem phase1_dirs_within_limit mp v r st :
  phase1 mp v r phase1Init = inl st ->
  (size (dirs st) <= maxPackagesPerModule)%nat.
Proof.
  assert (forall files st0 st1,
            (size (dirs st0) <= maxPackagesPerModule)%nat ->
            phase1 mp v files st0 = inl st1 ->
            (size (dirs st1) <= maxPackagesPerModule)%nat) as Hloop.
  { induction files as [|f files IH]; intros st0 st1 Hsize.
    - intros [= <-]. exact Hsize.
    - cbn [phase1]. destruct (phase1File mp v st0 f) as [st'|e] eqn:Hf;
        [|discriminate].
      apply IH. destruct (phase1File_dirs mp v st0 f st' Hf) as [->|(-> & _ & Hn)];
        assumption. }
  apply Hloop. cbn. rewrite map_size_empty. lia.
Qed.

End phase1_invariants.

(** ** Packages and their states in phase 2 *)
Section phase2_invariants.
Context {W : World}.

(** What the loop body of phase 2 does for a directory that is not
    incomplete: it appends exactly one state, and either no package, or the
    package loadPackage returned with its license information. *)
Lemma phase2Dir_outcome mp v dt mi st ip l st' :
  ip ∉ p2_incompleteDirs st ->
  phase2Dir mp v dt mi st (ip, l) = Ret (inl st') ->
  exists state,
    p2_packageVersionStates st' = p2_packageVersionStates st ++ [state]
    /\ pvs_ModulePath state = mp /\ pvs_Version state = v
    /\ p2_incompleteDirs st ⊆ p2_incompleteDirs st'
    /\ ((pkgs st' = pkgs st /\ pvs_PackagePath state = path.Join [mp; ip])
        \/ exists p err,
             loadPackage l ip mi = Ret (Some p, err)
             /\ pkgs st' = pkgs st ++ [withLicenses dt ip p]
             /\ pvs_PackagePath state = Path p
             /\ match err with
                | None => pvs_Status state = http_StatusOK /\ pvs_Error state = ""
                | Some e =>
                    errors_Is e ErrTooLarge = true
                    /\ DocumentationHTML p = docTooLargeReplacement
                    /\ pvs_Status state =
                         ToStatus (errors_New PackageDocumentationHTMLTooLarge)
                    /\ pvs_Error state = Error e
                end).
Proof.
  intros Hinc. unfold phase2Dir.
  rewrite bool_decide_eq_false_2 by exact Hinc.
  destruct (loadPackage l ip mi) as [[[p|] err]|] eqn:Hload; go_simpl;
    [| |discriminate].
  - destruct err as [e|].
    + destruct (loadPackage_loop_package _ _ _ _ _ _ Hload)
        as (pre & env & post & _ & _ & Henv).
      apply loadPackageWithBuildContext_package_error in Henv as (His & Has & Hhtml).
      rewrite Has, His. intros [= <-]. cbn.
      eexists. split; [reflexivity|]. cbn. repeat split; [set_solver|].
      right. exists p, (Some e). rewrite path_of_withLicenses.
      repeat split; assumption.
    + intros [= <-]. cbn.
      eexists. split; [reflexivity|]. cbn. repeat split; [set_solver|].
      right. exists p, None. rewrite path_of_withLicenses. repeat split.
  - set (cls := match err with Some _ => _ | None => _ end).
    assert (forall inc s m, cls = inl (inc, s, m) -> p2_incompleteDirs st ⊆ inc)
      as Hcls.
    { subst cls. intros inc s m. destruct err as [e|].
      - destruct (errors_As_BadPackageError e); [intros [= <- _ _]; set_solver|].
        destruct (errors_Is e ErrTooLarge); [|discriminate].
        intros [= <- _ _]. set_solver.
      - intros [= <- _ _]. set_solver. }
    destruct cls as [[[inc s] m]|e]; [|discriminate].
    specialize (Hcls inc s m eq_refl).
    destruct (0 <? length l)%nat; intros [= <-]; cbn;
      (eexists; split; [reflexivity|]); cbn; repeat split; try set_solver;
      left; split; reflexivity.
Qed.

(** An induction principle for the loop of phase 2: a property of the
    state that holds at the start and that the loop body preserves on the
    directories it processes holds at the end. *)
Lemma phase2_invariant (I : phase2State -> Prop) mp v dt mi entries :
  (forall sta stb ip l,
      (ip, l) ∈ entries -> I sta -> ip ∉ p2_incompleteDirs sta ->
      phase2Dir mp v dt mi sta (ip, l) = Ret (inl stb) -> I stb) ->
  forall st st',
    I st -> phase2 mp v dt mi entries st = Ret (inl st') -> I st'.
Proof.
  induction entries as [|[ip l] entries IH]; intros Hstep st st' Hst.
  - intros [= <-]. exact Hst.
  - cbn [phase2].
    destruct (phase2Dir mp v dt mi st (ip, l)) as [[st1|e]|] eqn:Hd; go_simpl;
      try discriminate.
    apply IH.
    + intros sta stb ip' l' Hin. apply Hstep. right. exact Hin.
    + destruct (decide (ip ∈ p2_incompleteDirs st)) as [Hinc|Hinc].
      * unfold phase2Dir in Hd. rewrite bool_decide_eq_true_2 in Hd by exact Hinc.
        injection Hd as <-. exact Hst.
      * apply (Hstep st st1 ip l); [left | exact Hst | exact Hinc | exact Hd].
Qed.

(** The errors that end phase 1 and phase 2 are not the one that says
    the module has no packages. *)
Lemma phase1_error_kind mp v files st e :
  phase1 mp v files st = inr e ->
  errors_Is e errModuleContainsNoPackages = false.
Proof.
  revert st. induction files as [|f files IH]; intros st; [discriminate|].
  cbn [phase1]. destruct (phase1File mp v st f) as [st1|e1] eqn:Hf; [apply IH|].
  intros [= <-]. revert Hf. unfold phase1File.
  repeat match goal with
         | |- context [if ?b then _ else _] => destruct b
         | |- context [match ?o with Some _ => _ | None => _ end] => destruct o
         end; try discriminate; intros [= <-]; reflexivity.
Qed.

Lemma phase2_error_kind mp v dt mi entries st e :
  phase2 mp v dt mi entries st = Ret (inr e) ->
  errors_Is e errModuleContainsNoPackages = false.
Proof.
  revert st. induction entries as [|[ip l] entries IH]; intros st; [discriminate|].
  cbn [phase2].
  destruct (phase2Dir mp v dt mi st (ip, l)) as [[st1|e1]|] eqn:Hd; go_simpl;
    [apply IH | | discriminate].
  intros [= <-]. revert Hd. unfold phase2Dir.
  destruct (bool_decide _); [discriminate|].
  destruct (loadPackage l ip mi) as [[pkg err]|]; go_simpl; [|discriminate].
  destruct err as [e0|].
  - destruct (errors_As_BadPackageError e0).
    + destruct pkg; [discriminate|]. destruct (0 <? _)%nat; discriminate.
    + destruct (errors_Is e0 ErrTooLarge).
      * destruct pkg; [discriminate|]. destruct (0 <? _)%nat; discriminate.
      * intros [= <-]. reflexivity.
  - destruct pkg; [discriminate|]. destruct (0 <? _)%nat; discriminate.
Qed.

(** The results of extractPackagesFromZip: both lists empty with an
    error, or the lists of the state in which phase 2 ended. *)
Lemma extractPackagesFromZip_results mp v r dt packages states err :
  extractPackagesFromZip mp v r dt = Ret (packages, states, err) ->
  (packages = [] /\ states = []
   /\ exists e, err = Some e /\ errors_Is e errModuleContainsNoPackages = false)
  \/ exists st1 st2,
       phase1 mp v r phase1Init = inl st1
       /\ phase2 mp v dt (moduleInfoOf mp v (dirs st1))
            (rangeOrder _ 2%nat (map_to_list (dirs st1))) (phase2Init st1)
          = Ret (inl st2)
       /\ states = p2_packageVersionStates st2
       /\ ((pkgs st2 = [] /\ packages = []
            /\ err = Some (errors_New errModuleContainsNoPackages))
           \/ (pkgs st2 <> [] /\ packages = pkgs st2 /\ err = None)).
Proof.
  unfold extractPackagesFromZip, extractPackagesFromZip_body.
  destruct (phase1 mp v r phase1Init) as [st1|e1] eqn:Hp1.
  2: { intros [= <- <- <-]. left. split; [reflexivity|]. split; [reflexivity|].
       exists e1. split; [reflexivity|]. eapply phase1_error_kind. exact Hp1. }
  destruct (phase2 _ _ _ _ _ _) as [[st2|e2]|] eqn:Hp2; go_simpl.
  - destruct (pkgs st2) as [|p ps] eqn:Hpk; cbn [length Nat.eqb];
      intros [= <- <- <-]; right; exists st1, st2;
      (split; [reflexivity|]); (split; [exact Hp2|]); (split; [reflexivity|]).
    + left. repeat split. exact Hpk.
    + right. rewrite Hpk. repeat split. discriminate.
  - intros [= <- <- <-]. left. split; [reflexivity|]. split; [reflexivity|].
    exists e2. split; [reflexivity|]. eapply phase2_error_kind. exact Hp2.
  - intros [= <- <- <-]. left. split; [reflexivity|]. split; [reflexivity|].
    eexists. split; reflexivity.
Qed.

(** X3.  The packages extractPackagesFromZip returns and the states it
    returns correspond, in the same order: each package has a state of its
    own with its path, the module path and the version, whose status is 200
    with an empty error text, or PackageDocumentationHTMLTooLarge with a
    non-empty error text and the replacement text as the documentation of
    the package. *)
Theorem every_package_has_its_state mp v r dt packages states err :
  extractPackagesFromZip mp v r dt = Ret (packages, states, err) ->
  exists ss,
    ss `sublist_of` states /\ Forall2 (stateOfPackage mp v) packages ss.
Proof.
  intros Hrun.
  destruct (extractPackagesFromZip_results _ _ _ _ _ _ _ Hrun)
    as [(-> & -> & _)|(st1 & st2 & Hp1 & Hp2 & -> & Hres)].
  { exists []. split; [reflexivity | constructor]. }
  assert (exists ss, ss `sublist_of` p2_packageVersionStates st2
                     /\ Forall2 (stateOfPackage mp v) (pkgs st2) ss) as Hinv.
  { refine (phase2_invariant
              (fun st => exists ss, ss `sublist_of` p2_packageVersionStates st
                                    /\ Forall2 (stateOfPackage mp v) (pkgs st) ss)
              mp v dt _ _ _ (phase2Init st1) st2 _ Hp2).
    - intros sta stb ip l _ (ss & Hsub & Hall) Hinc Hd.
      destruct (phase2Dir_outcome _ _ _ _ _ _ _ _ Hinc Hd)
        as (s & -> & Hmp & Hv & _ & [(-> & _)|(p & e & Hload & -> & Hpath & He)]).
      + exists ss. split; [apply sublist_inserts_r; exact Hsub | exact Hall].
      + exists (ss ++ [s]). split; [apply sublist_app; [exact Hsub | reflexivity]|].
        apply Forall2_app; [exact Hall|]. constructor; [|constructor].
        unfold stateOfPackage. rewrite path_of_withLicenses.
        destruct (html_of_withLicenses dt ip p) as (-> & _).
        split; [exact Hmp|]. split; [exact Hpath|]. split; [exact Hv|].
        destruct e as [e|].
        * destruct He as (_ & Hhtml & Hst & Herr). right.
          split; [exact Hst|]. split; [|exact Hhtml]. rewrite Herr.
          eapply loadPackage_loop_error_text. exact Hload.
        * left. exact He.
    - exists []. split; [apply sublist_nil_l | constructor]. }
  destruct Hres as [(Hnil & -> & _)|(_ & -> & _)]; [|exact Hinv].
  exists []. split; [apply sublist_nil_l | constructor].
Qed.

(** *** Where a package comes from *)

(** The documentation loadPackageDoc returns has passed the check of the
    number of imports. *)
Lemma loadPackageDoc_imports goos goarch l ip mi d name :
  loadPackageDoc goos goarch l ip mi = Ret (inl (d, name)) ->
  (length (doc_Imports d) <= maxImportsPerPackage)%nat.
Proof.
  unfold loadPackageDoc.
  destruct (matchingFiles goos goarch l) as [[files|e]|]; go_simpl;
    try discriminate.
  destruct (parseFiles ip _ parseInit) as [[ps|e]|]; go_simpl; try discriminate.
  destruct (size (goFiles ps) =? 0)%nat; [discriminate|].
  destruct (doc_NewFromFiles _ _ _) as [[d0|e]|]; go_simpl; try discriminate.
  destruct (_ || _); [discriminate|]. cbv zeta.
  match goal with |- context [(?a <? ?b)%nat] =>
    destruct (a <? b)%nat eqn:Hn end; [discriminate|].
  intros [= <- _]. apply Nat.ltb_ge in Hn. exact Hn.
Qed.

(** The fields of a package loadPackageWithBuildContext returns. *)
Lemma loadPackageWithBuildContext_fields goos goarch l ip mi p err :
  loadPackageWithBuildContext goos goarch l ip mi = Ret (Some p, err) ->
  Path p = packagePath (mi_ModulePath mi) ip
  /\ V1Path p = internal_V1Path (Path p) (mi_ModulePath mi)
  /\ GOOS p = goos /\ GOARCH p = goarch
  /\ (length (Imports p) <= maxImportsPerPackage)%nat
  /\ IsRedistributable p = false /\ Licenses p = [].
Proof.
  unfold loadPackageWithBuildContext, loadPackageWithBuildContext_body.
  destruct (loadPackageDoc goos goarch l ip mi) as [[[d name]|[pkg0 err0]]|] eqn:Hd;
    go_simpl; try discriminate.
  - pose proof (loadPackageDoc_imports _ _ _ _ _ _ _ Hd) as Himp.
    destruct (dochtml_Render ip d mi MaxDocumentationHTML) as [[html [e0|]]|];
      go_simpl; try discriminate.
    + destruct (errors_Is e0 ErrTooLarge); go_simpl; [|discriminate].
      intros [= <- _]. cbn. repeat split. exact Himp.
    + intros [= <- _]. cbn. repeat split. exact Himp.
  - apply loadPackageDoc_early in Hd as [-> _]. discriminate.
Qed.

(** The fields withLicenses sets, for a package that comes from
    loadPackageWithBuildContext. *)
Lemma withLicenses_info dt ip p :
  IsRedistributable p = false -> Licenses p = [] ->
  (IsRedistributable (withLicenses dt ip p), Licenses (withLicenses dt ip p))
  = licenseInfo dt ip.
Proof.
  intros Hr Hl. unfold withLicenses, licenseInfo. destruct dt as [d|].
  - destruct (PackageInfo d ip) as [isRedist lics]. cbn. rewrite Hl. reflexivity.
  - rewrite Hr, Hl. reflexivity.
Qed.

Lemma withLicenses_fields dt ip p :
  V1Path (withLicenses dt ip p) = V1Path p
  /\ Imports (withLicenses dt ip p) = Imports p
  /\ Synopsis (withLicenses dt ip p) = Synopsis p.
Proof.
  unfold withLicenses. destruct dt as [d|]; [|repeat split].
  destruct (PackageInfo d ip). repeat split.
Qed.

(** Every package of the state of phase 2 was loaded from a directory of
    the list, in an environment of goEnvs, while the directory was not
    incomplete. *)
Lemma phase2_packages_loaded mp v dt mi entries st st' :
  pkgs st = [] ->
  phase2 mp v dt mi entries st = Ret (inl st') ->
  Forall (fun p =>
            exists ip l env p0 err,
              (ip, l) ∈ entries
              /\ (ip ∉ p2_incompleteDirs st)
              /\ env ∈ goEnvs
              /\ loadPackageWithBuildContext (fst env) (snd env) l ip mi
                 = Ret (Some p0, err)
              /\ p = withLicenses dt ip p0)
         (pkgs st').
Proof.
  intros Hnil Hrun.
  refine (proj2 (phase2_invariant
            (fun s => p2_incompleteDirs st ⊆ p2_incompleteDirs s
                      /\ Forall _ (pkgs s))
            mp v dt mi entries _ st st' _ Hrun)).
  - intros sta stb ip l Hin (Hsub & Hall) Hinc Hd.
    destruct (phase2Dir_outcome _ _ _ _ _ _ _ _ Hinc Hd)
      as (s & _ & _ & _ & Hsub' & [(-> & _)|(p & e & Hload & -> & _ & _)]).
    + split; [set_solver | exact Hall].
    + split; [set_solver|]. apply Forall_app. split; [exact Hall|].
      constructor; [|constructor].
      destruct (loadPackage_loop_package _ _ _ _ _ _ Hload)
        as (pre & env & post & Henvs & _ & Henv).
      exists ip, l, env, p, e. split; [exact Hin|]. split; [set_solver|].
      split; [|split; [exact Henv | reflexivity]].
      fold goEnvs in Henvs. rewrite Henvs. apply elem_of_app. right. left.
  - split; [reflexivity|]. rewrite Hnil. constructor.
Qed.

(** X4.  Every package extractPackagesFromZip returns was loaded from a
    directory of [dirs] that phase 1 left complete, in one of the five
    environments of goEnvs, which its GOOS and GOARCH record; its path is
    the directory inside the module joined to the module path (the
    directory itself for the standard library), its V1Path is computed
    from this path, and it has at most maxImportsPerPackage imports. *)
Theorem every_package_comes_from_a_directory mp v r dt st1 packages states err :
  (forall A n (entries : list (string * A)), rangeOrder A n entries ≡ₚ entries) ->
  phase1 mp v r phase1Init = inl st1 ->
  extractPackagesFromZip mp v r dt = Ret (packages, states, err) ->
  forall p,
    p ∈ packages ->
    exists innerPath goFiles,
      dirs st1 !! innerPath = Some goFiles
      /\ (innerPath ∉ incompleteDirs st1)
      /\ Path p = packagePath mp innerPath
      /\ V1Path p = internal_V1Path (Path p) mp
      /\ (GOOS p, GOARCH p) ∈ goEnvs
      /\ (length (Imports p) <= maxImportsPerPackage)%nat.
Proof.
  intros Hrange Hp1 Hrun p Hin.
  destruct (extractPackagesFromZip_results _ _ _ _ _ _ _ Hrun)
    as [(-> & _)|(st1' & st2 & Hp1' & Hp2 & _ & Hres)].
  { apply elem_of_nil in Hin. contradiction. }
  rewrite Hp1 in Hp1'. injection Hp1' as <-.
  destruct Hres as [(_ & -> & _)|(_ & -> & _)].
  { apply elem_of_nil in Hin. contradiction. }
  pose proof (phase2_packages_loaded mp v dt _ _ (phase2Init st1) st2 eq_refl Hp2)
    as Hall.
  rewrite Forall_forall in Hall.
  destruct (Hall p Hin) as (ip & l & env & p0 & e & Hentry & Hinc & Henv & Hload & ->).
  exists ip, l. rewrite (Hrange _ _ _) in Hentry.
  apply elem_of_map_to_list in Hentry. split; [exact Hentry|].
  split; [exact Hinc|].
  destruct (loadPackageWithBuildContext_fields _ _ _ _ _ _ _ Hload)
    as (Hpath & Hv1 & Hos & Harch & Himp & _).
  rewrite path_of_withLicenses.
  destruct (html_of_withLicenses dt ip p0) as (_ & _ & -> & ->).
  destruct (withLicenses_fields dt ip p0) as (-> & -> & _).
  split; [exact Hpath|]. split; [exact Hv1|]. split; [|exact Himp].
  rewrite Hos, Harch. destruct env. exact Henv.
Qed.

(** X5.  For every package extractPackagesFromZip returns, the fields
    IsRedistributable and Licenses are what the detector says of the
    directory of the package: the flag of PackageInfo and the metadata of
    its licenses, in its order.  Without a detector the package is not
    redistributable and has no licenses. *)
Theorem package_licenses_come_from_detector mp v r dt st1 packages states err :
  (forall A n (entries : list (string * A)), rangeOrder A n entries ≡ₚ entries) ->
  phase1 mp v r phase1Init = inl st1 ->
  extractPackagesFromZip mp v r dt = Ret (packages, states, err) ->
  forall p,
    p ∈ packages ->
    exists innerPath,
      innerPath ∈ dom (dirs st1)
      /\ Path p = packagePath mp innerPath
      /\ (IsRedistributable p, Licenses p) = licenseInfo dt innerPath.
Proof.
  intros Hrange Hp1 Hrun p Hin.
  destruct (extractPackagesFromZip_results _ _ _ _ _ _ _ Hrun)
    as [(-> & _)|(st1' & st2 & Hp1' & Hp2 & _ & Hres)].
  { apply elem_of_nil in Hin. contradiction. }
  rewrite Hp1 in Hp1'. injection Hp1' as <-.
  destruct Hres as [(_ & -> & _)|(_ & -> & _)].
  { apply elem_of_nil in Hin. contradiction. }
  pose proof (phase2_packages_loaded mp v dt _ _ (phase2Init st1) st2 eq_refl Hp2)
    as Hall.
  rewrite Forall_forall in Hall.
  destruct (Hall p Hin) as (ip & l & env & p0 & e & Hentry & _ & _ & Hload & ->).
  exists ip. rewrite (Hrange _ _ _) in Hentry.
  apply elem_of_map_to_list in Hentry.
  split; [apply elem_of_dom; eauto|].
  destruct (loadPackageWithBuildContext_fields _ _ _ _ _ _ _ Hload)
    as (Hpath & _ & _ & _ & _ & Hr & Hl).
  rewrite path_of_withLicenses. split; [exact Hpath|].
  apply withLicenses_info; assumption.
Qed.

(** What the loop body of phase 1 does to the package states: nothing, or
    it marks the directory of the file, which was not yet incomplete, and
    appends one state for it. *)
Lemma phase1File_states mp v st f st' :
  phase1File mp v st f = inl st' ->
  (incompleteDirs st' = incompleteDirs st
   /\ packageVersionStates st' = packageVersionStates st)
  \/ (exists s,
        (innerPathOf mp v f ∉ incompleteDirs st)
        /\ incompleteDirs st' = {[ innerPathOf mp v f ]} ∪ incompleteDirs st
        /\ packageVersionStates st' = packageVersionStates st ++ [s]
        /\ dirs st' = dirs st
        /\ pvs_ModulePath s = mp /\ pvs_Version s = v
        /\ pvs_PackagePath s = importPathOf mp v f).
Proof.
  unfold phase1File, importPathOf, innerPathOf.
  destruct (IsDir f); [intros [= <-]; left; split; reflexivity|].
  destruct (strings.HasPrefix (Name f) _); cbn [negb]; [|discriminate].
  case_bool_decide as Hinc; [intros [= <-]; left; split; reflexivity|].
  destruct (_ || _); [intros [= <-]; left; split; reflexivity|].
  destruct (negb _); [intros [= <-]; left; split; reflexivity|].
  destruct (module_CheckImportPath _).
  { intros [= <-]. right. eexists. cbn. split; [exact Hinc|]. repeat split. }
  destruct (MaxFileSize <? UncompressedSize64 f).
  { intros [= <-]. right. eexists. cbn. split; [exact Hinc|]. repeat split. }
  destruct (_ <? _)%nat; [discriminate|].
  intros [= <-]. left. split; reflexivity.
Qed.

(** Phase 1 records one state for each directory it marks incomplete. *)
Lemma phase1_one_state_per_incomplete_directory mp v files :
  forall st st',
    length (packageVersionStates st) = size (incompleteDirs st) ->
    phase1 mp v files st = inl st' ->
    length (packageVersionStates st') = size (incompleteDirs st').
Proof.
  induction files as [|f files IH]; intros st st' Hst.
  - intros [= <-]. exact Hst.
  - cbn [phase1]. destruct (phase1File mp v st f) as [st1|e] eqn:Hf; [|discriminate].
    apply IH.
    destruct (phase1File_states _ _ _ _ _ Hf)
      as [(-> & ->)|(s & Hinc & -> & -> & _)]; [exact Hst|].
    rewrite length_app, size_union by (apply disjoint_singleton_l; exact Hinc).
    rewrite size_singleton, Hst. cbn. lia.
Qed.

(** Phase 2 records one state for each directory of the list that is not
    incomplete when the loop starts. *)
Lemma phase2_one_state_per_directory mp v dt mi entries :
  forall st st',
    NoDup entries.*1 ->
    phase2 mp v dt mi entries st = Ret (inl st') ->
    length (p2_packageVersionStates st')
    = (length (p2_packageVersionStates st)
       + size (list_to_set (C:=gset string) entries.*1 ∖ p2_incompleteDirs st))%nat.
Proof.
  induction entries as [|[ip l] entries IH]; intros st st' Hnd.
  - intros [= <-].
    replace (size _) with 0%nat; [lia|]. symmetry. apply size_empty_iff.
    intros x. cbn. rewrite elem_of_difference, elem_of_empty. tauto.
  - cbn [phase2]. cbn [fmap list_fmap fst] in Hnd |- *.
    apply NoDup_cons in Hnd as [Hfresh Hnd].
    destruct (phase2Dir mp v dt mi st (ip, l)) as [[st1|e]|] eqn:Hd; go_simpl;
      try discriminate.
    intros Hrest. rewrite (IH st1 st' Hnd Hrest). cbn [list_to_set].
    destruct (decide (ip ∈ p2_incompleteDirs st)) as [Hinc|Hinc].
    + unfold phase2Dir in Hd. rewrite bool_decide_eq_true_2 in Hd by exact Hinc.
      injection Hd as <-. f_equal. f_equal. apply set_eq. intros x.
      rewrite !elem_of_difference, elem_of_union, elem_of_singleton.
      split; [intros [Hx Hn]; auto|]. intros [[->|Hx] Hn]; [contradiction | auto].
    + destruct (phase2Dir_outcome _ _ _ _ _ _ _ _ Hinc Hd)
        as (s & -> & _ & _ & Hsub & _).
      apply phase2Dir_effect in Hd as (_ & _ & Hinc1).
      replace (({[ ip ]} ∪ list_to_set entries.*1) ∖ p2_incompleteDirs st)
        with ({[ ip ]} ∪ (list_to_set (C:=gset string) entries.*1
                          ∖ p2_incompleteDirs st1)).
      * assert ({[ ip ]} ## list_to_set (C:=gset string) entries.*1
                               ∖ p2_incompleteDirs st1) as Hdisj.
        { apply disjoint_singleton_l. rewrite elem_of_difference,
            elem_of_list_to_set. intros [Hx _]. contradiction. }
        rewrite length_app, (size_union (C:=gset string) _ _ Hdisj).
        rewrite size_singleton. cbn. lia.
      * apply set_eq. intros x. rewrite !elem_of_union, !elem_of_difference,
          elem_of_union, elem_of_singleton, !elem_of_list_to_set.
        split.
        -- intros [->|[Hx Hn]]; [auto|]. split; [auto|].
           intros Hs. apply Hn, Hsub, Hs.
        -- intros [[->|Hx] Hn]; [auto|]. right. split; [exact Hx|].
           intros Hs. destruct (Hinc1 x Hs) as [->|Hs']; [|auto].
           apply Hfresh. exact Hx.
Qed.

(** X6.  When extractPackagesFromZip gets through both phases (it returns
    no error, or only the one that says the module has no packages), it
    returns exactly one state for each directory: one for each directory
    that phase 1 marked incomplete and one for each other directory of
    [dirs]. *)
Theorem one_state_per_directory mp v r dt st1 packages states err :
  (forall A n (entries : list (string * A)), rangeOrder A n entries ≡ₚ entries) ->
  phase1 mp v r phase1Init = inl st1 ->
  extractPackagesFromZip mp v r dt = Ret (packages, states, err) ->
  (forall e, err = Some e -> e = errors_New errModuleContainsNoPackages) ->
  length states = size (incompleteDirs st1 ∪ dom (dirs st1)).
Proof.
  intros Hrange Hp1 Hrun Herr.
  destruct (extractPackagesFromZip_results _ _ _ _ _ _ _ Hrun)
    as [(_ & _ & e & -> & His)|(st1' & st2 & Hp1' & Hp2 & -> & _)].
  { rewrite (Herr e eq_refl) in His. discriminate. }
  rewrite Hp1 in Hp1'. injection Hp1' as <-.
  apply phase2_one_state_per_directory in Hp2.
  2: { rewrite (Hrange _ _ _). apply NoDup_fst_map_to_list. }
  rewrite Hp2. cbn [phase2Init p2_packageVersionStates p2_incompleteDirs].
  rewrite (phase1_one_state_per_incomplete_directory mp v r phase1Init st1);
    [|reflexivity | exact Hp1].
  rewrite (size_union_alt (C:=gset string) (incompleteDirs st1) (dom (dirs st1))).
  f_equal. f_equal.
  rewrite (list_to_set_perm_L _ (map_to_list (dirs st1)).*1).
  - apply set_eq. intros x. rewrite dom_alt. reflexivity.
  - apply fmap_Permutation. apply Hrange.
Qed.

(** X7.  extractPackagesFromZip returns packages exactly when it returns
    no error; and it returns states together with an error only when the
    error is the one that says the module contains no packages. *)
Theorem extractPackagesFromZip_result_shape mp v r dt packages states err :
  extractPackagesFromZip mp v r dt = Ret (packages, states, err) ->
  (err = None <-> packages <> [])
  /\ (states <> [] -> err <> None ->
      err = Some (errors_New errModuleContainsNoPackages)).
Proof.
  intros Hrun.
  destruct (extractPackagesFromZip_results _ _ _ _ _ _ _ Hrun)
    as [(-> & -> & e & -> & _)
       |(st1 & st2 & _ & _ & -> & [(_ & -> & ->)|(Hne & -> & ->)])].
  - split; [split; [discriminate | congruence] | congruence].
  - split; [split; [discriminate | congruence] | reflexivity].
  - split; [split; [intros _; exact Hne | reflexivity] | congruence].
Qed.

(** X8.  Every state extractPackagesFromZip returns carries the module
    path and the version it was called with, and its package path is that
    of a directory of the archive: one that phase 1 marked incomplete or
    one of [dirs], joined to the module path (or, for a package of the
    standard library that was loaded, the directory itself). *)
Theorem every_state_is_about_a_directory mp v r dt st1 packages states err :
  (forall A n (entries : list (string * A)), rangeOrder A n entries ≡ₚ entries) ->
  phase1 mp v r phase1Init = inl st1 ->
  extractPackagesFromZip mp v r dt = Ret (packages, states, err) ->
  forall s,
    s ∈ states ->
    pvs_ModulePath s = mp
    /\ pvs_Version s = v
    /\ exists innerPath,
         (innerPath ∈ incompleteDirs st1 \/ innerPath ∈ dom (dirs st1))
         /\ (pvs_PackagePath s = path.Join [mp; innerPath]
             \/ pvs_PackagePath s = packagePath mp innerPath).
Proof.
  intros Hrange Hp1 Hrun.
  set (about (X : gset string) (s : PackageVersionState) :=
         pvs_ModulePath s = mp /\ pvs_Version s = v
         /\ exists ip, ip ∈ X
                       /\ (pvs_PackagePath s = path.Join [mp; ip]
                           \/ pvs_PackagePath s = packagePath mp ip)).
  assert (forall X Y s, X ⊆ Y -> about X s -> about Y s) as Hmono.
  { intros X Y s HXY (Hm & Hv & ip & Hip & Hpath).
    split; [exact Hm|]. split; [exact Hv|]. exists ip. split; [apply HXY; exact Hip | exact Hpath]. }
  assert (forall files st st',
            Forall (about (incompleteDirs st)) (packageVersionStates st) ->
            phase1 mp v files st = inl st' ->
            Forall (about (incompleteDirs st')) (packageVersionStates st')) as Hone.
  { induction files as [|f files IH]; intros st st' Hst.
    - intros [= <-]. exact Hst.
    - cbn [phase1]. destruct (phase1File mp v st f) as [st0|e] eqn:Hf; [|discriminate].
      apply IH.
      destruct (phase1File_states _ _ _ _ _ Hf)
        as [(-> & ->)|(s & _ & -> & -> & _ & Hm & Hv & Hpath)]; [exact Hst|].
      apply Forall_app. split.
      + eapply Forall_impl; [exact Hst|]. intros s0. apply Hmono. set_solver.
      + constructor; [|constructor]. split; [exact Hm|]. split; [exact Hv|].
        exists (innerPathOf mp v f). split; [set_solver|]. left. exact Hpath. }
  destruct (extractPackagesFromZip_results _ _ _ _ _ _ _ Hrun)
    as [(_ & -> & _)|(st1' & st2 & Hp1' & Hp2 & -> & _)].
  { intros s Hs. apply elem_of_nil in Hs. contradiction. }
  rewrite Hp1 in Hp1'. injection Hp1' as <-.
  assert (Forall (about (incompleteDirs st1 ∪ dom (dirs st1)))
                 (p2_packageVersionStates st2)) as Hall.
  { refine (phase2_invariant
              (fun st => Forall (about (incompleteDirs st1 ∪ dom (dirs st1)))
                                (p2_packageVersionStates st))
              mp v dt _ _ _ (phase2Init st1) st2 _ Hp2).
    - intros sta stb ip l Hin Hsta Hinc Hd.
      rewrite (Hrange _ _ _) in Hin. apply elem_of_map_to_list in Hin.
      destruct (phase2Dir_outcome _ _ _ _ _ _ _ _ Hinc Hd)
        as (s & -> & Hm & Hv & _ & Hcase).
      apply Forall_app. split; [exact Hsta|]. constructor; [|constructor].
      split; [exact Hm|]. split; [exact Hv|]. exists ip.
      split; [apply elem_of_union; right; apply elem_of_dom; eauto|].
      destruct Hcase as [(_ & Hpath)|(p & e & Hload & _ & Hpath & _)];
        [left; exact Hpath|].
      right. rewrite Hpath.
      destruct (loadPackage_loop_package _ _ _ _ _ _ Hload)
        as (pre & env & post & _ & _ & Henv).
      apply loadPackageWithBuildContext_fields in Henv as (Hp & _). exact Hp.
    - cbn. eapply Forall_impl.
      + apply (Hone r phase1Init st1); [constructor | exact Hp1].
      + intros s. apply Hmono. set_solver. }
  rewrite Forall_forall in Hall. intros s Hs.
  destruct (Hall s Hs) as (Hm & Hv & ip & Hip & Hpath).
  split; [exact Hm|]. split; [exact Hv|]. exists ip. split; [|exact Hpath].
  apply elem_of_union in Hip. exact Hip.
Qed.

End phase2_invariants.

(** ** The results of processZipFile and FetchModule *)
Section module_results.
Context {W : World}.

(** processZipFile returns an error with nothing else, or a module made of
    what extractPackagesFromZip returned without error. *)
Lemma processZipFile_results mp v ct r m states err :
  processZipFile mp v ct r = Ret (m, states, err) ->
  (m = None /\ states = [] /\ exists e, err = Some e)
  \/ (err = None
      /\ exists mo readmes,
           m = Some mo
           /\ extractReadmesFromZip mp v r = inl readmes
           /\ extractPackagesFromZip mp v r (Some (licenses_NewDetector mp v r))
              = Ret (LegacyPackages mo, states, None)
           /\ m_ModulePath mo = mp /\ m_Version mo = v /\ m_CommitTime mo = ct
           /\ HasGoMod mo
              = zipContainsFilename r (path.Join [moduleVersionDir mp v; "go.mod"])).
Proof.
  unfold processZipFile.
  destruct (extractReadmesFromZip mp v r) as [readmes|e0].
  2: { intros [= <- <- <-]. left. repeat split. eexists. reflexivity. }
  destruct (extractPackagesFromZip mp v r _) as [[[packages states0] err0]|] eqn:He;
    go_simpl; [|discriminate].
  destruct err0 as [e|].
  - destruct (_ || _); intros [= <- <- <-]; left; repeat split; eexists; reflexivity.
  - destruct (filter _ _) as [|rd ?]; intros [= <- <- <-]; right;
      (split; [reflexivity|]); eexists; exists readmes; cbn; repeat split; exact He.
Qed.

(** X9.  FetchModule returns the module path and the requested version of
    its argument and a status that is not 0.  It returns a module exactly
    when it returns no error; with an error it returns no package states,
    and the status is that of the error (200 if that is 0). *)
Theorem FetchModule_module_or_error mi fr :
  FetchModule mi = Ret fr ->
  fr_ModulePath fr = ModulePath mi
  /\ fr_RequestedVersion fr = RequestedVersion mi
  /\ fr_Status fr <> 0
  /\ (fr_Error fr = None <-> fr_Module fr <> None)
  /\ forall e,
       fr_Error fr = Some e ->
       fr_PackageVersionStates fr = []
       /\ fr_Status fr = (if ToStatus e =? 0 then http_StatusOK else ToStatus e).
Proof.
  assert (forall z, (if z =? 0 then http_StatusOK else z) <> 0) as Hnz.
  { intros z. destruct (z =? 0) eqn:Hz; [discriminate|].
    apply Z.eqb_neq. exact Hz. }
  assert (forall rv gm e fr0,
            FetchModule_deferred mi
              {| fr_ModulePath := ModulePath mi;
                 fr_RequestedVersion := RequestedVersion mi;
                 fr_ResolvedVersion := rv; GoModPath := gm; fr_Status := 0;
                 fr_Error := Some e; fr_Module := None;
                 fr_PackageVersionStates := [] |} = fr0 ->
            fr_ModulePath fr0 = ModulePath mi
            /\ fr_RequestedVersion fr0 = RequestedVersion mi
            /\ fr_Status fr0 <> 0
            /\ (fr_Error fr0 = None <-> fr_Module fr0 <> None)
            /\ forall e',
                 fr_Error fr0 = Some e' ->
                 fr_PackageVersionStates fr0 = []
                 /\ fr_Status fr0
                    = (if ToStatus e' =? 0 then http_StatusOK else ToStatus e'))
    as Hfail.
  { intros rv gm e fr0 <-. unfold FetchModule_deferred. cbn.
    split; [reflexivity|]. split; [reflexivity|]. split; [apply Hnz|].
    split; [split; [discriminate | congruence]|].
    intros e' [= <-]. split; reflexivity. }
  unfold FetchModule.
  destruct (info_Error mi) as [e|]; [intros [= <-]; eapply Hfail; reflexivity|].
  match goal with |- context [match ?o with inl _ => _ | inr _ => _ end] =>
    destruct o as [[[zr ct] gm]|[gm e]] end.
  2: { intros [= <-]. eapply Hfail; reflexivity. }
  destruct (processZipFile _ _ _ _) as [[[m states] err]|] eqn:Hp; go_simpl;
    [|discriminate].
  destruct (processZipFile_results _ _ _ _ _ _ _ Hp)
    as [(-> & -> & e & ->)|(-> & mo & readmes & -> & _)].
  { intros [= <-]. eapply Hfail; reflexivity. }
  intros [= <-]. unfold FetchModule_deferred. cbn.
  split; [reflexivity|]. split; [reflexivity|]. split; [apply Hnz|].
  split; [|discriminate].
  split; [intros _|reflexivity].
  destruct (String.eqb (ModulePath mi) stdlib_ModulePath); discriminate.
Qed.

(** X10.  When FetchModule returns no error, the module it returns has the
    module path and the resolved version of its argument and at least one
    package, the go.mod path of the result is the module path, and the
    status is 200 if every package state has status 200, and otherwise
    that of HasIncompletePackages; the module of the standard library is
    said to have a go.mod file. *)
Theorem FetchModule_success mi fr :
  FetchModule mi = Ret fr ->
  fr_Error fr = None ->
  fr_ResolvedVersion fr = ResolvedVersion mi
  /\ GoModPath fr = ModulePath mi
  /\ fr_Status fr
     = (if forallb (fun state => pvs_Status state =? http_StatusOK)
                   (fr_PackageVersionStates fr)
        then http_StatusOK
        else ToStatus (errors_New HasIncompletePackages))
  /\ exists m,
       fr_Module fr = Some m
       /\ m_ModulePath m = ModulePath mi
       /\ m_Version m = ResolvedVersion mi
       /\ LegacyPackages m <> []
       /\ (ModulePath mi = stdlib_ModulePath -> HasGoMod m = true).
Proof.
  unfold FetchModule.
  destruct (info_Error mi) as [e|] eqn:Hinfo; [intros [= <-]; discriminate|].
  match goal with |- context [match ?o with inl _ => _ | inr _ => _ end] =>
    destruct o as [[[zr ct] gm]|[gm e]] eqn:Hopen end.
  2: { intros [= <-]. discriminate. }
  assert (gm = ModulePath mi) as Hgm.
  { revert Hopen. destruct (String.eqb (ModulePath mi) stdlib_ModulePath) eqn:Hstd.
    - apply String.eqb_eq in Hstd.
      destruct (stdlib_Zip _) as [[zr0 ct0]|]; [|discriminate].
      intros [= _ _ <-]. symmetry. exact Hstd.
    - destruct (proxy_GetMod _ _) as [bytes|]; [|discriminate].
      destruct (String.eqb (modfile_ModulePath bytes) ""); [discriminate|].
      destruct (String.eqb (modfile_ModulePath bytes) (ModulePath mi)) eqn:Heq;
        cbn [negb]; [|discriminate].
      apply String.eqb_eq in Heq.
      destruct (proxy_GetZip _ _); [|discriminate].
      intros [= _ _ <-]. exact Heq. }
  clear Hopen. subst gm.
  destruct (processZipFile _ _ _ _) as [[[m states] err]|] eqn:Hp; go_simpl;
    [|discriminate].
  destruct (processZipFile_results _ _ _ _ _ _ _ Hp)
    as [(-> & -> & e & ->)|(-> & mo & readmes & -> & _ & Hex & Hmp & Hv & _)].
  { intros [= <-]. discriminate. }
  intros [= <-] _. unfold FetchModule_deferred. cbn.
  split; [reflexivity|]. split; [reflexivity|]. split.
  - assert (forall l : list PackageVersionState,
              existsb (fun state => negb (pvs_Status state =? http_StatusOK)) l
              = negb (forallb (fun state => pvs_Status state =? http_StatusOK) l))
      as Hneg.
    { induction l as [|s l IH]; [reflexivity|]. cbn [existsb forallb].
      rewrite IH. destruct (pvs_Status s =? http_StatusOK); reflexivity. }
    rewrite Hneg.
    destruct (forallb (fun state => pvs_Status state =? http_StatusOK) states);
      reflexivity.
  - assert (LegacyPackages mo <> []) as Hne.
    { destruct (extractPackagesFromZip_results _ _ _ _ _ _ _ Hex)
        as [(_ & _ & e & [=] & _)
           |(st1 & st2 & _ & _ & _ & [(_ & _ & [=])|(Hne & -> & _)])].
      exact Hne. }
    destruct (String.eqb (ModulePath mi) stdlib_ModulePath) eqn:Hstd; cbn.
    + eexists. split; [reflexivity|]. cbn. repeat split; assumption.
    + exists mo. repeat split; try assumption.
      intros Heq. apply String.eqb_neq in Hstd. contradiction.
Qed.

(** Phase 1 leaves its state as it is on directory entries and on entries
    under the module prefix whose name does not end in .go. *)
Lemma phase1_no_go_files mp v files st :
  Forall (fun f => IsDir f = true
                   \/ (strings.HasPrefix (Name f) (moduleVersionDir mp v +:+ "/") = true
                       /\ strings.HasSuffix (Name f) ".go" = false)) files ->
  phase1 mp v files st = inl st.
Proof.
  induction 1 as [|f files Hf _ IH]; [reflexivity|].
  cbn [phase1].
  assert (phase1File mp v st f = inl st) as ->; [|exact IH].
  unfold phase1File. destruct Hf as [->|[Hp Hs]]; [reflexivity|].
  destruct (IsDir f); [reflexivity|]. rewrite Hp, Hs. cbn [negb].
  destruct (bool_decide _); [reflexivity|]. destruct (_ || _); reflexivity.
Qed.

(** X11.  An archive whose READMEs can be extracted and that has no file
    with a name ending in .go (every entry is a directory or a file under
    the module prefix with another suffix; the empty archive is one) is
    reported as a bad module: processZipFile returns no module, no states
    and an error in which BadModule is found. *)
Theorem module_without_go_files_is_bad mp v ct r readmes :
  (forall A n (entries : list (string * A)), rangeOrder A n entries ≡ₚ entries) ->
  extractReadmesFromZip mp v r = inl readmes ->
  Forall (fun f => IsDir f = true
                   \/ (strings.HasPrefix (Name f) (moduleVersionDir mp v +:+ "/") = true
                       /\ strings.HasSuffix (Name f) ".go" = false)) r ->
  exists e,
    processZipFile mp v ct r = Ret (None, [], Some e)
    /\ errors_Is e BadModule = true.
Proof.
  intros Hrange Hreadmes Hfiles.
  unfold processZipFile. rewrite Hreadmes.
  unfold extractPackagesFromZip, extractPackagesFromZip_body.
  rewrite (phase1_no_go_files _ _ _ _ Hfiles). cbn [dirs phase1Init].
  rewrite map_to_list_empty.
  assert (rangeOrder (list zipFile) 2 [] = []) as ->.
  { apply Permutation_nil_r. apply Hrange. }
  cbn. eexists. split; reflexivity.
Qed.

(** X12.  FetchModule reports the go.mod path whenever it has read one,
    also when the fetch then fails: for a module other than the standard
    library whose go.mod declares a path, the result carries that path,
    whether it is the module path or not and whatever happens to the zip;
    for the standard library, once its zip is there, the path is that of
    the standard library. *)
Theorem FetchModule_reports_go_mod_path mi fr :
  FetchModule mi = Ret fr ->
  info_Error mi = None ->
  (forall goModBytes,
      ModulePath mi <> stdlib_ModulePath ->
      proxy_GetMod (ModulePath mi) (ResolvedVersion mi) = inl goModBytes ->
      modfile_ModulePath goModBytes <> "" ->
      GoModPath fr = modfile_ModulePath goModBytes)
  /\ (forall zipReader commitTime,
         ModulePath mi = stdlib_ModulePath ->
         stdlib_Zip (ResolvedVersion mi) = inl (zipReader, commitTime) ->
         GoModPath fr = stdlib_ModulePath).
Proof.
  intros Hrun Hinfo.
  assert (forall gm, (exists rv st e m pvs,
              fr = FetchModule_deferred mi
                     {| fr_ModulePath := ModulePath mi;
                        fr_RequestedVersion := RequestedVersion mi;
                        fr_ResolvedVersion := rv; GoModPath := gm; fr_Status := st;
                        fr_Error := e; fr_Module := m;
                        fr_PackageVersionStates := pvs |}) ->
            GoModPath fr = gm) as Hgm.
  { intros gm (rv & st & e & m & pvs & ->). unfold FetchModule_deferred. cbn.
    destruct e; reflexivity. }
  revert Hrun. unfold FetchModule. rewrite Hinfo.
  destruct (String.eqb (ModulePath mi) stdlib_ModulePath) eqn:Hstd.
  - apply String.eqb_eq in Hstd. intros Hrun. split; [congruence|].
    intros zr ct _ Hzip. rewrite Hzip in Hrun.
    destruct (processZipFile _ _ _ _) as [[[m states] [e|]]|]; go_simpl in Hrun;
      try discriminate; injection Hrun as <-; apply Hgm; repeat eexists.
  - apply String.eqb_neq in Hstd. intros Hrun. split; [|congruence].
    intros bytes _ Hmod Hne. rewrite Hmod in Hrun.
    apply String.eqb_neq in Hne. rewrite Hne in Hrun.
    destruct (String.eqb (modfile_ModulePath bytes) (ModulePath mi)) eqn:Heq;
      cbn [negb] in Hrun.
    + apply String.eqb_eq in Heq.
      destruct (proxy_GetZip _ _) as [zr|e0].
      * destruct (processZipFile _ _ _ _) as [[[m states] [e|]]|]; go_simpl in Hrun;
          try discriminate; injection Hrun as <-; apply Hgm; repeat eexists.
      * injection Hrun as <-. apply Hgm. repeat eexists.
    + injection Hrun as <-. apply Hgm. repeat eexists.
Qed.

(** X13.  A go.mod file that declares no module path makes the fetch fail
    with an error in which BadModule is found: no module, no package
    states and no go.mod path are returned, and the zip is not
    processed. *)
Theorem go_mod_without_module_path mi goModBytes :
  info_Error mi = None ->
  ModulePath mi <> stdlib_ModulePath ->
  proxy_GetMod (ModulePath mi) (ResolvedVersion mi) = inl goModBytes ->
  modfile_ModulePath goModBytes = "" ->
  exists fr e,
    FetchModule mi = Ret fr
    /\ fr_Error fr = Some e
    /\ errors_Is e BadModule = true
    /\ fr_Status fr = ToStatus (errors_New BadModule)
    /\ fr_Module fr = None
    /\ fr_PackageVersionStates fr = []
    /\ GoModPath fr = ""
    /\ fr_ResolvedVersion fr = ResolvedVersion mi.
Proof.
  intros Hinfo Hstd Hmod Hempty. unfold FetchModule. rewrite Hinfo.
  apply String.eqb_neq in Hstd. rewrite Hstd, Hmod, Hempty. cbn.
  eexists. eexists. repeat (split; [reflexivity|]). reflexivity.
Qed.

End module_results.

(** ** Reading files of the archive *)
Section reading.
Context {W : World}.

Lemma take_length n s :
  String.length (strings.take n s) = Nat.min (N.to_nat n) (String.length s).
Proof.
  revert n. induction s as [|c s IH]; intros n; cbn [strings.take String.length].
  - rewrite Nat.min_0_r. reflexivity.
  - destruct (N.eqb_spec n 0) as [->|Hn]; [reflexivity|].
    cbn [String.length]. rewrite IH.
    replace (N.to_nat n) with (S (N.to_nat (N.pred n))) by lia. reflexivity.
Qed.

Lemma take_all n s :
  (String.length s <= N.to_nat n)%nat -> strings.take n s = s.
Proof.
  revert n. induction s as [|c s IH]; intros n; cbn [strings.take String.length];
    [reflexivity|].
  intros Hlen. destruct (N.eqb_spec n 0) as [->|Hn]; [cbn in Hlen; lia|].
  rewrite IH by lia. reflexivity.
Qed.

Lemma take_prefix n s : strings.HasPrefix s (strings.take n s) = true.
Proof.
  unfold strings.HasPrefix. revert n.
  induction s as [|c s IH]; intros n; cbn [strings.take]; [reflexivity|].
  destruct (n =? 0)%N; [reflexivity|].
  cbn [String.prefix]. destruct (ascii_dec c c); [apply IH | congruence].
Qed.

Lemma readZipFile_length f limit c :
  readZipFile f limit = inl c ->
  Z.of_nat (String.length c) <= Z.max 0 limit.
Proof.
  unfold readZipFile. destruct (body f) as [e|e|b e|b]; cbn; try discriminate.
  intros [= <-]. rewrite take_length. lia.
Qed.

(** X14.  readZipFile returns at most [limit] bytes, whatever size the
    header of the entry declares: what it returns is the beginning of the
    contents of the entry, and the whole of them when they are within the
    limit. *)
Theorem readZipFile_reads_at_most_limit f limit c :
  readZipFile f limit = inl c ->
  Z.of_nat (String.length c) <= Z.max 0 limit
  /\ exists b,
       body f = Contents b
       /\ strings.HasPrefix b c = true
       /\ (Z.of_nat (String.length b) <= limit -> c = b).
Proof.
  unfold readZipFile. destruct (body f) as [e|e|b e|b]; cbn; try discriminate.
  intros [= <-]. split.
  - rewrite take_length. lia.
  - exists b. split; [reflexivity|]. split; [apply take_prefix|].
    intros Hlen. apply take_all. lia.
Qed.

(** The README of an entry: its path inside the module and what was read
    of it. *)
Lemma extractReadmes_loop_spec mp v files :
  forall acc readmes,
    extractReadmes_loop mp v files acc = inl readmes ->
    exists new,
      readmes = acc ++ new
      /\ Forall2 (fun f rd =>
                    UncompressedSize64 f <= MaxFileSize
                    /\ Filepath rd
                       = strings.TrimPrefix (Name f) (moduleVersionDir mp v +:+ "/")
                    /\ readZipFile f MaxFileSize = inl (readme_Contents rd))
                 (filter (fun f => isReadme (Name f) = true) files) new.
Proof.
  induction files as [|f files IH]; intros acc readmes.
  - intros [= <-]. exists []. split; [symmetry; apply app_nil_r | constructor].
  - cbn [extractReadmes_loop]. rewrite filter_cons.
    destruct (isReadme (Name f)) eqn:Hr.
    + destruct (decide (true = true)) as [_|Hne]; [|congruence].
      destruct (MaxFileSize <? UncompressedSize64 f) eqn:Hsz; [discriminate|].
      destruct (readZipFile f MaxFileSize) as [c|e] eqn:Hread; [|discriminate].
      intros Hrest. destruct (IH _ _ Hrest) as (new & -> & Hall).
      eexists. split; [rewrite <- app_assoc; reflexivity|].
      constructor; [|exact Hall]. cbn. apply Z.ltb_ge in Hsz.
      split; [exact Hsz|]. split; [reflexivity | exact Hread].
    + destruct (decide (false = true)) as [Hne|_]; [discriminate|]. apply IH.
Qed.

(** X15.  When extractReadmesFromZip succeeds, the READMEs it returns are
    those of the entries whose name isReadme accepts, one for each and in
    the order of the archive: each entry has a declared size of at most
    MaxFileSize, the path of the README is the name of the entry without
    the module prefix, and its contents are what readZipFile read of the
    entry, at most MaxFileSize bytes. *)
Theorem extractReadmesFromZip_returns_the_readmes mp v r readmes :
  extractReadmesFromZip mp v r = inl readmes ->
  Forall2 (fun f rd =>
             UncompressedSize64 f <= MaxFileSize
             /\ Filepath rd = strings.TrimPrefix (Name f) (moduleVersionDir mp v +:+ "/")
             /\ readZipFile f MaxFileSize = inl (readme_Contents rd)
             /\ Z.of_nat (String.length (readme_Contents rd)) <= Z.max 0 MaxFileSize)
          (filter (fun f => isReadme (Name f) = true) r) readmes.
Proof.
  intros Hrun. apply extractReadmes_loop_spec in Hrun as (new & -> & Hall).
  cbn [app]. eapply Forall2_impl; [exact Hall|].
  intros f rd (Hsz & Hpath & Hread).
  split; [exact Hsz|]. split; [exact Hpath|]. split; [exact Hread|].
  apply readZipFile_length in Hread. exact Hread.
Qed.

End reading.

(** ** The README of the module *)
Section module_readme.
Context {W : World}.

(** X16.  The README of the module that processZipFile returns is the
    first README of the archive, in the order of its entries, that lies in
    the root directory of the module: its path has the directory ".", it
    comes from an entry that isReadme accepts, and its contents are what
    readZipFile read of that entry.  When no README lies in the root
    directory, the path and the contents are empty, whatever READMEs the
    subdirectories have. *)
Theorem module_readme_is_the_first_root_readme mp v ct r m states :
  processZipFile mp v ct r = Ret (Some m, states, None) ->
  let prefix := moduleVersionDir mp v +:+ "/" in
  let rootReadme (f : zipFile) : Prop :=
    isReadme (Name f) = true
    /\ path.Dir (strings.TrimPrefix (Name f) prefix) = "." in
  (LegacyReadmeFilePath m = "" /\ LegacyReadmeContents m = ""
   /\ forall f, f ∈ r -> ~ rootReadme f)
  \/ exists before f after,
       r = before ++ f :: after
       /\ rootReadme f
       /\ (forall f', f' ∈ before -> ~ rootReadme f')
       /\ LegacyReadmeFilePath m = strings.TrimPrefix (Name f) prefix
       /\ readZipFile f MaxFileSize = inl (LegacyReadmeContents m).
Proof.
  intros Hrun prefix rootReadme. revert Hrun. unfold processZipFile.
  destruct (extractReadmesFromZip mp v r) as [readmes|e0] eqn:Hreadmes;
    [|discriminate].
  destruct (extractPackagesFromZip mp v r _) as [[[packages states0] err0]|];
    go_simpl; [|discriminate].
  destruct err0 as [e|]; [destruct (_ || _); discriminate|].
  apply extractReadmes_loop_spec in Hreadmes as (new & -> & Hall). cbn [app].
  assert (forall files rds,
            Forall2 (fun f rd =>
                       UncompressedSize64 f <= MaxFileSize
                       /\ Filepath rd = strings.TrimPrefix (Name f) prefix
                       /\ readZipFile f MaxFileSize = inl (readme_Contents rd))
                    (filter (fun f => isReadme (Name f) = true) files) rds ->
            match filter (fun rd => path.Dir (Filepath rd) = ".") rds with
            | [] => forall f, f ∈ files -> ~ rootReadme f
            | rd :: _ =>
                exists before f after,
                  files = before ++ f :: after
                  /\ rootReadme f
                  /\ (forall f', f' ∈ before -> ~ rootReadme f')
                  /\ Filepath rd = strings.TrimPrefix (Name f) prefix
                  /\ readZipFile f MaxFileSize = inl (readme_Contents rd)
            end) as Hfirst.
  { induction files as [|f files IH]; intros rds.
    - rewrite filter_nil. intros Hnil. apply Forall2_nil_inv_l in Hnil as ->.
      rewrite filter_nil. intros f Hf. apply elem_of_nil in Hf. contradiction.
    - rewrite filter_cons. destruct (decide (isReadme (Name f) = true)) as [Hr|Hr].
      + intros H2. apply Forall2_cons_inv_l in H2 as (rd & rds' & (_ & Hp & Hc) & H2 & ->).
        rewrite filter_cons.
        destruct (decide (path.Dir (Filepath rd) = ".")) as [Hd|Hd].
        * exists [], f, files. split; [reflexivity|].
          split; [split; [exact Hr | rewrite <- Hp; exact Hd]|].
          split; [intros f' Hf'; apply elem_of_nil in Hf'; contradiction|].
          split; assumption.
        * specialize (IH rds' H2).
          assert (~ rootReadme f) as Hnot by (intros [_ Hd']; apply Hd; rewrite Hp; exact Hd').
          destruct (filter _ rds') as [|rd0 ?].
          -- intros f' Hf'. apply elem_of_cons in Hf' as [->|Hf']; [exact Hnot | auto].
          -- destruct IH as (before & f0 & after & -> & Hroot & Hbefore & Hp0 & Hc0).
             exists (f :: before), f0, after. split; [reflexivity|].
             split; [exact Hroot|]. split; [|split; assumption].
             intros f' Hf'. apply elem_of_cons in Hf' as [->|Hf']; [exact Hnot | auto].
      + intros H2. specialize (IH rds H2).
        assert (~ rootReadme f) as Hnot by (intros [Hr' _]; contradiction).
        destruct (filter _ rds) as [|rd0 ?].
        * intros f' Hf'. apply elem_of_cons in Hf' as [->|Hf']; [exact Hnot | auto].
        * destruct IH as (before & f0 & after & -> & Hroot & Hbefore & Hp0 & Hc0).
          exists (f :: before), f0, after. split; [reflexivity|].
          split; [exact Hroot|]. split; [|split; assumption].
          intros f' Hf'. apply elem_of_cons in Hf' as [->|Hf']; [exact Hnot | auto]. }
  specialize (Hfirst r new Hall).
  destruct (filter _ new) as [|rd ?]; intros [= <- _]; cbn.
  - left. repeat split. exact Hfirst.
  - right. exact Hfirst.
Qed.

End module_readme.


(** ** The files of a package *)
Section package_files.
Context {W : World}.
Hypothesis rangeOrder_permutation :
  forall A n (entries : list (string * A)), rangeOrder A n entries ≡ₚ entries.

Lemma readFiles_spec l :
  forall files0 files,
    readFiles l files0 = inl files ->
    forall name b,
      files !! name = Some b ->
      files0 !! name = Some b
      \/ exists f, f ∈ l /\ snd (path.Split (Name f)) = name
                   /\ readZipFile f MaxFileSize = inl b.
Proof.
  induction l as [|f l IH]; intros files0 files.
  - intros [= <-]. auto.
  - cbn [readFiles]. destruct (readZipFile f MaxFileSize) as [c|e] eqn:Hread;
      [|discriminate].
    intros Hrest name b Hlook.
    destruct (IH _ _ Hrest name b Hlook) as [Hin|(f' & Hf' & Hname & Hr)].
    + destruct (decide (snd (path.Split (Name f)) = name)) as [Heq|Hne].
      * rewrite Heq, lookup_insert_eq in Hin. injection Hin as <-.
        right. exists f. split; [left|]. split; [exact Heq | exact Hread].
      * rewrite lookup_insert_ne in Hin by exact Hne. left. exact Hin.
    + right. exists f'. split; [right; exact Hf'|]. split; assumption.
Qed.

Lemma matchFiles_spec goos goarch names :
  forall files files',
    NoDup names.*1 ->
    matchFiles goos goarch names files = Ret (inl files') ->
    (forall n b, files' !! n = Some b -> files !! n = Some b)
    /\ (forall n, n ∉ names.*1 -> files' !! n = files !! n)
    /\ (forall n b, files' !! n = Some b -> n ∈ names.*1 ->
                    MatchFile goos goarch n b = Ret (true, None)).
Proof.
  induction names as [|[name x] names IH]; intros files files' Hnd.
  - intros [= <-]. split; [auto|]. split; [auto|].
    intros n b _ Hn. apply elem_of_nil in Hn. contradiction.
  - cbn [fmap list_fmap fst] in Hnd |- *. apply NoDup_cons in Hnd as [Hfresh Hnd].
    cbn [matchFiles].
    destruct (MatchFile goos goarch name _) as [[m [e|]]|] eqn:Hm; go_simpl;
      try discriminate.
    destruct m; cbn [negb]; intros Hrest;
      destruct (IH _ _ Hnd Hrest) as (Hsub & Hsame & Hmatch).
    + split; [exact Hsub|]. split.
      * intros n Hn. apply Hsame. intros Hin. apply Hn. right. exact Hin.
      * intros n b Hlook Hn. apply elem_of_cons in Hn as [->|Hn]; [|eauto].
        rewrite (Hsame name Hfresh) in Hlook. rewrite Hlook in Hm. exact Hm.
    + split; [|split].
      * intros n b Hlook. apply Hsub in Hlook.
        apply lookup_delete_Some in Hlook as [_ Hlook]. exact Hlook.
      * intros n Hn. rewrite Hsame.
        -- apply lookup_delete_ne. intros ->. apply Hn. left.
        -- intros Hin. apply Hn. right. exact Hin.
      * intros n b Hlook Hn. apply elem_of_cons in Hn as [->|Hn]; [|eauto].
        rewrite (Hsame name Hfresh), lookup_delete_eq in Hlook. discriminate.
Qed.

Lemma matchingFiles_lookup goos goarch zipGoFiles files :
  matchingFiles goos goarch zipGoFiles = Ret (inl files) ->
  forall name b,
    files !! name = Some b ->
    (exists f, f ∈ zipGoFiles /\ snd (path.Split (Name f)) = name
               /\ readZipFile f MaxFileSize = inl b)
    /\ MatchFile goos goarch name b = Ret (true, None).
Proof.
  unfold matchingFiles.
  destruct (readFiles zipGoFiles ∅) as [files0|e] eqn:Hread; [|discriminate].
  destruct (matchFiles goos goarch _ files0) as [[files1|e]|] eqn:Hm; go_simpl;
    try discriminate.
  intros [= <-] name b Hlook.
  apply matchFiles_spec in Hm as (Hsub & _ & Hmatch).
  2: { rewrite (rangeOrder_permutation _ _ _). apply NoDup_fst_map_to_list. }
  split.
  - destruct (readFiles_spec _ _ _ Hread name b (Hsub _ _ Hlook)) as [Hin|Hf];
      [|exact Hf].
    rewrite lookup_empty in Hin. discriminate.
  - apply Hmatch; [exact Hlook|].
    rewrite (rangeOrder_permutation _ _ _).
    apply list_elem_of_fmap. exists (name, b). split; [reflexivity|].
    apply elem_of_map_to_list. apply Hsub. exact Hlook.
Qed.

(** X17.  Every file of the map matchingFiles returns is named after the
    last element of the name of an entry of zipGoFiles, holds what
    readZipFile read of that entry within MaxFileSize, and is one for
    which MatchFile of the build context answered true. *)
Theorem matchingFiles_keeps_matching_files goos goarch zipGoFiles files :
  matchingFiles goos goarch zipGoFiles = Ret (inl files) ->
  forall name b,
    files !! name = Some b ->
    (exists f, f ∈ zipGoFiles /\ snd (path.Split (Name f)) = name
               /\ readZipFile f MaxFileSize = inl b)
    /\ MatchFile goos goarch name b = Ret (true, None).
Proof. exact (matchingFiles_lookup goos goarch zipGoFiles files). Qed.

Lemma parseFiles_spec ip files :
  forall ps0 ps,
    NoDup files.*1 ->
    (forall n, n ∈ files.*1 -> goFiles ps0 !! n = None) ->
    parseFiles ip files ps0 = Ret (inl ps) ->
    (goFiles ps0 <> ∅ -> packageName ps = packageName ps0)
    /\ (forall n pf, goFiles ps0 !! n = Some pf -> goFiles ps !! n = Some pf)
    /\ (forall n, n ∉ files.*1 -> goFiles ps !! n = goFiles ps0 !! n)
    /\ length (allGoFiles ps) = (length (allGoFiles ps0) + length files)%nat
    /\ (forall pf, pf ∈ allGoFiles ps0 -> pf ∈ allGoFiles ps)
    /\ Forall (parsedAs ps) files.
Proof.
  induction files as [|[name b] files IH]; intros ps0 ps Hnd Hfresh.
  - intros [= <-]. repeat split; auto.
  - cbn [fmap list_fmap fst] in Hnd, Hfresh. apply NoDup_cons in Hnd as [Hname Hnd].
    assert (goFiles ps0 !! name = None) as Hnone by (apply Hfresh; left).
    cbn [parseFiles].
    destruct (parser_ParseFile name b) as [[pf|[pf|] e]|] eqn:Hparse; go_simpl;
      try discriminate.
    destruct (strings.HasSuffix name "_test.go") eqn:Htest.
    + intros Hrest. apply IH in Hrest as (Hpn & Hkeep & Hsame & Hlen & Hall & Hfiles);
        [|exact Hnd | intros n Hn; apply Hfresh; right; exact Hn].
      cbn [goFiles allGoFiles packageName] in *.
      split; [exact Hpn|]. split; [exact Hkeep|]. split.
      { intros n Hn. apply Hsame. intros Hin. apply Hn. right. exact Hin. }
      split; [rewrite Hlen, length_app; cbn; lia|].
      split; [intros pf' Hpf'; apply Hall, elem_of_app; left; exact Hpf'|].
      constructor; [|exact Hfiles].
      exists pf. cbn [fst snd]. split; [exact Hparse|].
      split; [apply Hall, elem_of_app; right; left|].
      rewrite Htest, (Hsame name Hname). exact Hnone.
    + rewrite map_size_insert, Hnone.
      assert (forall ps1,
                goFiles ps1 = <[ name := pf ]> (goFiles ps0) ->
                allGoFiles ps1 = allGoFiles ps0 ++ [pf] ->
                ast_Name pf = packageName ps1 ->
                (goFiles ps0 <> ∅ -> packageName ps1 = packageName ps0) ->
                parseFiles ip files ps1 = Ret (inl ps) ->
                (goFiles ps0 <> ∅ -> packageName ps = packageName ps0)
                /\ (forall n pf, goFiles ps0 !! n = Some pf -> goFiles ps !! n = Some pf)
                /\ (forall n, n ∉ name :: files.*1 -> goFiles ps !! n = goFiles ps0 !! n)
                /\ length (allGoFiles ps)
                   = (length (allGoFiles ps0) + length ((name, b) :: files))%nat
                /\ (forall pf, pf ∈ allGoFiles ps0 -> pf ∈ allGoFiles ps)
                /\ Forall (parsedAs ps) ((name, b) :: files)) as Hgo.
      { intros ps1 Hg Ha Hn Hp0 Hrest.
        apply IH in Hrest as (Hpn & Hkeep & Hsame & Hlen & Hall & Hfiles);
          [|exact Hnd|].
        2: { intros n Hn'. rewrite Hg, lookup_insert_ne by (intros ->; contradiction).
             apply Hfresh. right. exact Hn'. }
        assert (goFiles ps1 <> ∅) as Hne1 by (rewrite Hg; apply insert_non_empty).
        split; [intros Hne; rewrite (Hpn Hne1); apply Hp0, Hne|].
        split.
        { intros n pf' Hl. apply Hkeep. rewrite Hg.
          rewrite lookup_insert_ne by (intros ->; congruence). exact Hl. }
        split.
        { intros n Hn'. rewrite Hsame by (intros Hin; apply Hn'; right; exact Hin).
          rewrite Hg. apply lookup_insert_ne. intros ->. apply Hn'. left. }
        split; [rewrite Hlen, Ha, length_app; cbn; lia|].
        split; [intros pf' Hpf'; apply Hall; rewrite Ha; apply elem_of_app;
                left; exact Hpf'|].
        constructor; [|exact Hfiles].
        exists pf. cbn [fst snd]. split; [exact Hparse|].
        split; [apply Hall; rewrite Ha; apply elem_of_app; right; left|].
        rewrite Htest. split.
        - apply Hkeep. rewrite Hg. apply lookup_insert_eq.
        - rewrite (Hpn Hne1). exact Hn. }
      destruct (S (size (goFiles ps0)) =? 1)%nat eqn:Hsize.
      * apply Nat.eqb_eq in Hsize.
        assert (goFiles ps0 = ∅) as Hempty by (apply map_size_empty_iff; lia).
        apply Hgo; try reflexivity. intros Hne. contradiction.
      * destruct (String.eqb (ast_Name pf) (packageName ps0)) eqn:Heq; cbn [negb];
          [|discriminate].
        apply String.eqb_eq in Heq.
        apply Hgo; try reflexivity. exact Heq.
Qed.

Lemma parseFiles_of_map innerPath files ps :
  parseFiles innerPath (rangeOrder _ 4%nat (map_to_list files)) parseInit
    = Ret (inl ps) ->
  length (allGoFiles ps) = size files
  /\ (forall name pf, goFiles ps !! name = Some pf ->
                      strings.HasSuffix name "_test.go" = false
                      /\ ast_Name pf = packageName ps
                      /\ exists b, files !! name = Some b
                                   /\ parser_ParseFile name b = Ret (parsed pf))
  /\ forall name b,
       files !! name = Some b ->
       exists pf,
         parser_ParseFile name b = Ret (parsed pf)
         /\ pf ∈ allGoFiles ps
         /\ (strings.HasSuffix name "_test.go" = false ->
             goFiles ps !! name = Some pf /\ ast_Name pf = packageName ps).
Proof.
  intros Hrun.
  pose proof (rangeOrder_permutation _ 4%nat (map_to_list files)) as Hperm.
  apply parseFiles_spec in Hrun as (_ & _ & Hsame & Hlen & _ & Hfiles).
  2: { rewrite Hperm. apply NoDup_fst_map_to_list. }
  2: { intros n _. apply lookup_empty. }
  rewrite Forall_forall in Hfiles.
  assert (forall name b, files !! name = Some b -> parsedAs ps (name, b)) as Hof.
  { intros name b Hl. apply Hfiles. rewrite Hperm.
    apply elem_of_map_to_list. exact Hl. }
  split; [|split].
  - rewrite Hlen, Hperm, length_map_to_list. reflexivity.
  - intros name pf Hl.
    destruct (files !! name) as [b|] eqn:Hb.
    + destruct (Hof _ _ Hb) as (pf' & Hparse & _ & Hcase). cbn [fst snd] in *.
      destruct (strings.HasSuffix name "_test.go"); [congruence|].
      destruct Hcase as [Hl' Hn]. rewrite Hl in Hl'. injection Hl' as <-.
      split; [reflexivity|]. split; [exact Hn|]. exists b. split; [reflexivity|].
      exact Hparse.
    + rewrite Hsame in Hl; [cbn in Hl; rewrite lookup_empty in Hl; discriminate|].
      rewrite Hperm. intros Hin. apply list_elem_of_fmap in Hin as ([n b] & -> & Hin).
      apply elem_of_map_to_list in Hin. cbn in Hb. congruence.
  - intros name b Hl. destruct (Hof _ _ Hl) as (pf & Hparse & Hall & Hcase).
    cbn [fst snd] in *. exists pf. split; [exact Hparse|]. split; [exact Hall|].
    intros Htest. rewrite Htest in Hcase. exact Hcase.
Qed.

(** X18.  When the parsing loop of loadPackageWithBuildContext ends
    without error, every file of the map was parsed and is in allGoFiles,
    test files included, once each; the files whose name does not end in
    _test.go are the files of goFiles, and the package clause of each of
    them names packageName. *)
Theorem parsed_files_agree_on_the_package_name innerPath files ps :
  parseFiles innerPath (rangeOrder _ 4%nat (map_to_list files)) parseInit
    = Ret (inl ps) ->
  length (allGoFiles ps) = size files
  /\ (forall name pf, goFiles ps !! name = Some pf ->
                      strings.HasSuffix name "_test.go" = false
                      /\ ast_Name pf = packageName ps
                      /\ exists b, files !! name = Some b
                                   /\ parser_ParseFile name b = Ret (parsed pf))
  /\ forall name b,
       files !! name = Some b ->
       exists pf,
         parser_ParseFile name b = Ret (parsed pf)
         /\ pf ∈ allGoFiles ps
         /\ (strings.HasSuffix name "_test.go" = false ->
             goFiles ps !! name = Some pf /\ ast_Name pf = packageName ps).
Proof.
  exact (parseFiles_of_map innerPath files ps).
Qed.

Lemma loadPackageDoc_parsed goos goarch l ip mi d name :
  loadPackageDoc goos goarch l ip mi = Ret (inl (d, name)) ->
  exists files ps,
    matchingFiles goos goarch l = Ret (inl files)
    /\ parseFiles ip (rangeOrder _ 4%nat (map_to_list files)) parseInit = Ret (inl ps)
    /\ goFiles ps <> ∅
    /\ name = packageName ps.
Proof.
  unfold loadPackageDoc.
  destruct (matchingFiles goos goarch l) as [[files|e]|] eqn:Hm; go_simpl;
    try discriminate.
  destruct (parseFiles ip _ parseInit) as [[ps|e]|] eqn:Hp; go_simpl;
    try discriminate.
  destruct (size (goFiles ps) =? 0)%nat eqn:Hsize; [discriminate|].
  destruct (doc_NewFromFiles _ _ _) as [[d0|e]|]; go_simpl; try discriminate.
  destruct (_ || _); [discriminate|]. cbv zeta.
  match goal with |- context [(?a <? ?b)%nat] => destruct (a <? b)%nat end;
    [discriminate|].
  intros [= _ <-]. exists files, ps.
  split; [reflexivity|]. split; [exact Hp|]. split; [|reflexivity].
  apply map_size_non_empty_iff. apply Nat.eqb_neq in Hsize. exact Hsize.
Qed.

(** X19.  loadPackage returns a package only if zipGoFiles has a file
    whose name does not end in _test.go, that the build context of the
    environment recorded in the package matches, that parses, and whose
    package clause gives the name of the package. *)
Theorem package_is_named_by_a_matching_file zipGoFiles innerPath modInfo p err :
  loadPackage zipGoFiles innerPath modInfo = Ret (Some p, err) ->
  exists f b pf,
    f ∈ zipGoFiles
    /\ strings.HasSuffix (snd (path.Split (Name f))) "_test.go" = false
    /\ readZipFile f MaxFileSize = inl b
    /\ MatchFile (GOOS p) (GOARCH p) (snd (path.Split (Name f))) b = Ret (true, None)
    /\ parser_ParseFile (snd (path.Split (Name f))) b = Ret (parsed pf)
    /\ ast_Name pf = pkg_Name p.
Proof.
  intros Hload.
  destruct (loadPackage_loop_package _ _ _ _ _ _ Hload)
    as (pre & [goos goarch] & post & _ & _ & Henv).
  cbn [fst snd] in Henv.
  destruct (loadPackageWithBuildContext_fields _ _ _ _ _ _ _ Henv)
    as (_ & _ & -> & -> & _).
  revert Henv. unfold loadPackageWithBuildContext, loadPackageWithBuildContext_body.
  destruct (loadPackageDoc _ _ zipGoFiles innerPath modInfo)
    as [[[d name]|[pkg0 err0]]|] eqn:Hd; go_simpl; try discriminate.
  2: { apply loadPackageDoc_early in Hd as [-> _]. discriminate. }
  intros Hp.
  assert (pkg_Name p = name) as Hname.
  { revert Hp.
    destruct (dochtml_Render innerPath d modInfo MaxDocumentationHTML)
      as [[html [e0|]]|]; go_simpl; try discriminate.
    - destruct (errors_Is e0 ErrTooLarge); go_simpl; [|discriminate].
      intros [= <- _]. reflexivity.
    - intros [= <- _]. reflexivity. }
  clear Hp.
  apply loadPackageDoc_parsed in Hd as (files & ps & Hmatch & Hparse & Hne & ->).
  apply map_choose in Hne as (n & pf & Hpf).
  destruct (parseFiles_of_map _ _ _ Hparse)
    as (_ & Hgo & _).
  destruct (Hgo _ _ Hpf) as (Htest & Hn & b & Hb & Hparsed).
  destruct (matchingFiles_lookup _ _ _ _ Hmatch _ _ Hb)
    as ((f & Hf & <- & Hread) & Hm).
  exists f, b, pf. rewrite Hname. repeat split; assumption.
Qed.

End package_files.

(** ** Directories that are not processed *)
Section skipped_directories.

Lemma split_go_app sep a b :
  forall cur,
    strings.split_go sep cur (a +:+ String sep b)
    = strings.split_go sep cur a ++ strings.split_go sep EmptyString b.
Proof.
  induction a as [|c a IH]; intros cur; simpl.
  - rewrite Ascii.eqb_refl. reflexivity.
  - destruct (Ascii.eqb c sep); [rewrite IH; reflexivity | apply IH].
Qed.

(** X20.  An import path is ignored by the go tool exactly when one of its
    two parts on either side of a slash is: a directory below a directory
    whose name begins with a dot or an underscore or is testdata is
    ignored, wherever in the path that directory stands. *)
Theorem ignoredByGoTool_of_joined_paths (p q : string) :
  ignoredByGoTool (p +:+ "/" +:+ q) = ignoredByGoTool p || ignoredByGoTool q.
Proof.
  unfold ignoredByGoTool, strings.Split, path.slash.
  change ("/" +:+ q) with (String "/"%char q).
  rewrite split_go_app. apply existsb_app.
Qed.

Lemma substring_zero n s : String.substring n 0 s = "".
Proof.
  revert n. induction s as [|c s IH]; intros [|n]; cbn; try reflexivity. apply IH.
Qed.

Lemma substring_app_l s t :
  forall m k,
    String.length (String.substring m k s) = k ->
    String.substring m k (s +:+ t) = String.substring m k s.
Proof.
  induction s as [|c s IH]; intros m k Hlen.
  - assert (k = 0)%nat as -> by (destruct m, k; cbn in Hlen; congruence).
    cbn [String.append]. rewrite !substring_zero. reflexivity.
  - destruct m as [|m]; simpl in *.
    + destruct k as [|k]; [reflexivity|]. simpl in Hlen.
      f_equal. apply IH. lia.
    + apply IH. exact Hlen.
Qed.

Lemma Contains_app_l s t sub :
  sub <> "" ->
  strings.Contains s sub = true -> strings.Contains (s +:+ t) sub = true.
Proof.
  unfold strings.Contains. intros Hne.
  destruct (String.index 0 sub s) as [m|] eqn:Hs; [intros _|discriminate].
  destruct (String.index 0 sub (s +:+ t)) as [m'|] eqn:Hst; [reflexivity|].
  apply index_correct1 in Hs.
  exfalso. apply (index_correct3 _ m _ _ Hst Hne); [lia|].
  rewrite substring_app_l; [exact Hs|]. rewrite Hs. reflexivity.
Qed.

Lemma prefix_app_l p s t : String.prefix p s = true -> String.prefix p (s +:+ t) = true.
Proof.
  revert s. induction p as [|c p IH]; intros s.
  - intros _. destruct (s +:+ t); reflexivity.
  - destruct s as [|d s]; simpl; [discriminate|].
    destruct (ascii_dec c d); [apply IH | discriminate].
Qed.

(** X21.  Whatever is appended to a vendored import path, the result is
    vendored: every path below a vendor directory is inside it. *)
Theorem isVendored_below (p rest : string) :
  isVendored p = true -> isVendored (p +:+ rest) = true.
Proof.
  unfold isVendored, strings.HasPrefix. intros H.
  apply orb_true_iff in H as [H|H]; apply orb_true_iff.
  - left. apply prefix_app_l. exact H.
  - right. apply Contains_app_l; [discriminate | exact H].
Qed.

End skipped_directories.

(** ** The order in which phase 2 visits the directories *)
Section range_order.
Context {W : World}.

Lemma phase2State_eq i i' s s' p p' :
  i = i' -> s = s' -> p = p' ->
  {| p2_incompleteDirs := i; p2_packageVersionStates := s; pkgs := p |}
  = {| p2_incompleteDirs := i'; p2_packageVersionStates := s'; pkgs := p' |}.
Proof. intros -> -> ->. reflexivity. Qed.

Ltac state_eq :=
  unfold extend; cbn; apply phase2State_eq;
  first [reflexivity | rewrite app_nil_r; reflexivity
        | apply set_eq; intros ?; rewrite !elem_of_union, ?elem_of_empty; tauto].

Lemma extend_nothing st : extend st ∅ [] [] = st.
Proof.
  destruct st as [i s p]. state_eq.
Qed.

Ltac frame_branch D ps :=
  exists D; eexists; exists ps; split; [set_solver|]; split;
  [ state_eq
  | let sx := fresh "sx" in
    let Hsx := fresh "Hsx" in
    intros sx Hsx;
    rewrite bool_decide_eq_false_2 by (rewrite Hsx; assumption);
    apply (f_equal Ret), (f_equal inl); state_eq ].

(** What the loop body adds for a directory does not depend on the rest
    of the state: it marks at most this directory, and appends the same
    states and packages to any state in which the directory is as
    incomplete as it is in this one. *)
Lemma phase2Dir_frame mp v dt mi st ip l st' :
  phase2Dir mp v dt mi st (ip, l) = Ret (inl st') ->
  exists D ss ps,
    D ⊆ {[ ip ]}
    /\ st' = extend st D ss ps
    /\ forall sx,
         (ip ∈ p2_incompleteDirs sx <-> ip ∈ p2_incompleteDirs st) ->
         phase2Dir mp v dt mi sx (ip, l) = Ret (inl (extend sx D ss ps)).
Proof.
  unfold phase2Dir. case_bool_decide as Hinc.
  { intros [= <-]. exists ∅, [], []. split; [set_solver|].
    split; [symmetry; apply extend_nothing|]. intros sx Hsx.
    rewrite bool_decide_eq_true_2 by (apply Hsx; exact Hinc).
    rewrite extend_nothing. reflexivity. }
  destruct (loadPackage l ip mi) as [[pkg err]|]; go_simpl; [|discriminate].
  destruct err as [e|];
    [destruct (errors_As_BadPackageError e);
       [|destruct (errors_Is e ErrTooLarge); [|discriminate]]|];
    (destruct pkg as [p|]; [|destruct (0 <? length l)%nat]); intros [= <-].
  - frame_branch ({[ ip ]} : gset string) [withLicenses dt ip p].
  - frame_branch ({[ ip ]} : gset string) (@nil LegacyPackage).
  - frame_branch ({[ ip ]} : gset string) (@nil LegacyPackage).
  - frame_branch (∅ : gset string) [withLicenses dt ip p].
  - frame_branch ({[ ip ]} : gset string) (@nil LegacyPackage).
  - frame_branch (∅ : gset string) (@nil LegacyPackage).
  - frame_branch (∅ : gset string) [withLicenses dt ip p].
  - frame_branch ({[ ip ]} : gset string) (@nil LegacyPackage).
  - frame_branch (∅ : gset string) (@nil LegacyPackage).
Qed.

Lemma sameResults_extend st sa D ss ps :
  sameResults st sa -> sameResults (extend st D ss ps) (extend sa D ss ps).
Proof.
  intros (Hi & Hs & Hp). unfold sameResults, extend. cbn.
  split; [rewrite Hi; reflexivity|].
  split; apply Permutation_app; auto.
Qed.

Lemma sameResults_trans s1 s2 s3 :
  sameResults s1 s2 -> sameResults s2 s3 -> sameResults s1 s3.
Proof.
  intros (Hi & Hs & Hp) (Hi' & Hs' & Hp'). unfold sameResults.
  split; [congruence|]. split; etransitivity; eassumption.
Qed.

(** The loop of phase 2 started in two states with the same results ends
    in two states with the same results. *)
Lemma phase2_sameResults mp v dt mi entries :
  forall st sa st',
    sameResults st sa ->
    phase2 mp v dt mi entries st = Ret (inl st') ->
    exists sa', phase2 mp v dt mi entries sa = Ret (inl sa') /\ sameResults st' sa'.
Proof.
  induction entries as [|[ip l] entries IH]; intros st sa st' Hsame.
  - intros [= <-]. exists sa. split; [reflexivity | exact Hsame].
  - cbn [phase2].
    destruct (phase2Dir mp v dt mi st (ip, l)) as [[st1|e]|] eqn:Hd; go_simpl;
      try discriminate.
    destruct (phase2Dir_frame _ _ _ _ _ _ _ _ Hd) as (D & ss & ps & _ & -> & Hany).
    rewrite (Hany sa) by (destruct Hsame as [-> _]; reflexivity). go_simpl.
    apply IH. apply sameResults_extend. exact Hsame.
Qed.

(** Two directories can be visited in either order. *)
Lemma phase2Dir_swap mp v dt mi st ip1 l1 ip2 l2 s1 s12 :
  ip1 <> ip2 ->
  phase2Dir mp v dt mi st (ip1, l1) = Ret (inl s1) ->
  phase2Dir mp v dt mi s1 (ip2, l2) = Ret (inl s12) ->
  exists s2 s21,
    phase2Dir mp v dt mi st (ip2, l2) = Ret (inl s2)
    /\ phase2Dir mp v dt mi s2 (ip1, l1) = Ret (inl s21)
    /\ sameResults s12 s21.
Proof.
  intros Hne H1 H2.
  destruct (phase2Dir_frame _ _ _ _ _ _ _ _ H1) as (D1 & ss1 & ps1 & HD1 & -> & Hany1).
  destruct (phase2Dir_frame _ _ _ _ _ _ _ _ H2) as (D2 & ss2 & ps2 & HD2 & -> & Hany2).
  exists (extend st D2 ss2 ps2), (extend (extend st D2 ss2 ps2) D1 ss1 ps1).
  split; [|split].
  - apply Hany2. unfold extend. cbn. rewrite elem_of_union.
    split; [auto|]. intros [Hin|Hin]; [|exact Hin].
    apply HD1, elem_of_singleton in Hin. congruence.
  - apply Hany1. unfold extend. cbn. rewrite elem_of_union.
    split; [|auto]. intros [Hin|Hin]; [|exact Hin].
    apply HD2, elem_of_singleton in Hin. congruence.
  - unfold sameResults, extend. cbn. split; [|split].
    + apply set_eq. intros x. rewrite !elem_of_union. tauto.
    + rewrite <- !app_assoc. apply Permutation_app_head, Permutation_app_comm.
    + rewrite <- !app_assoc. apply Permutation_app_head, Permutation_app_comm.
Qed.

(** X22.  The result of phase 2 does not depend on the order in which the
    range statement visits [dirs]: if the loop ends without error for one
    order of the directories, it does so for every other order, with the
    same incomplete directories and with the same package states and the
    same packages, up to their order in the lists. *)
Theorem phase2_any_order mp v dt mi entries1 entries2 :
  entries1 ≡ₚ entries2 ->
  NoDup entries1.*1 ->
  forall st st1,
    phase2 mp v dt mi entries1 st = Ret (inl st1) ->
    exists st2,
      phase2 mp v dt mi entries2 st = Ret (inl st2) /\ sameResults st1 st2.
Proof.
  induction 1 as [|entry l1 l2 Hperm IH|e1 e2 l|l1 l2 l3 H12 IH12 H23 IH23];
    intros Hnd st st1.
  - intros [= <-]. exists st. split; [reflexivity|]. repeat split; reflexivity.
  - cbn [phase2]. cbn [fmap list_fmap] in Hnd. apply NoDup_cons in Hnd as [_ Hnd].
    destruct (phase2Dir mp v dt mi st entry) as [[s|e]|]; go_simpl; try discriminate.
    apply IH. exact Hnd.
  - destruct e1 as [ip1 l1], e2 as [ip2 l2]. cbn [fmap list_fmap fst] in Hnd.
    apply NoDup_cons in Hnd as [Hne _].
    assert (ip2 <> ip1) as Hne' by (intros ->; apply Hne; left).
    cbn [phase2].
    destruct (phase2Dir mp v dt mi st (ip2, l2)) as [[s2|e]|] eqn:Hd2; go_simpl;
      try discriminate.
    destruct (phase2Dir mp v dt mi s2 (ip1, l1)) as [[s21|e]|] eqn:Hd1; go_simpl;
      try discriminate.
    intros Hrest.
    destruct (phase2Dir_swap _ _ _ _ _ _ _ _ _ _ _ Hne' Hd2 Hd1)
      as (s1 & s12 & -> & Hd12 & Hsame).
    go_simpl. rewrite Hd12. go_simpl.
    eapply phase2_sameResults; eassumption.
  - intros Hrun. destruct (IH12 Hnd _ _ Hrun) as (st2 & Hrun2 & Hsame2).
    assert (NoDup l2.*1) as Hnd2 by (rewrite <- H12; exact Hnd).
    destruct (IH23 Hnd2 _ _ Hrun2) as (st3 & Hrun3 & Hsame3).
    exists st3. split; [exact Hrun3|]. eapply sameResults_trans; eassumption.
Qed.

End range_order.

(** ** README files *)
Section readme_names.

Lemma append_cons x (a b : string) : String x a +:+ b = String x (a +:+ b).
Proof. reflexivity. Qed.

Lemma append_assoc (a b c : string) : (a +:+ b) +:+ c = a +:+ (b +:+ c).
Proof.
  induction a as [|x a IH]; [reflexivity|]. rewrite !append_cons, IH. reflexivity.
Qed.

Lemma append_nil_r (a : string) : a +:+ "" = a.
Proof.
  induction a as [|x a IH]; [reflexivity|]. rewrite append_cons, IH. reflexivity.
Qed.

Lemma rev_app_spec a : forall c, String.rev_app a c = String.rev a +:+ c.
Proof.
  unfold String.rev. induction a as [|x a IH]; intros c; [reflexivity|].
  cbn [String.rev_app]. rewrite (IH (String x c)), (IH (String x "")).
  rewrite append_assoc. reflexivity.
Qed.

Lemma rev_cons x a : String.rev (String x a) = String.rev a +:+ String x "".
Proof. unfold String.rev at 1. cbn [String.rev_app]. apply rev_app_spec. Qed.

Lemma rev_append a b : String.rev (a +:+ b) = String.rev b +:+ String.rev a.
Proof.
  induction a as [|x a IH].
  - cbn. rewrite append_nil_r. reflexivity.
  - rewrite append_cons, !rev_cons, IH, append_assoc. reflexivity.
Qed.

Lemma rev_rev a : String.rev (String.rev a) = a.
Proof.
  induction a as [|x a IH]; [reflexivity|].
  rewrite rev_cons, rev_append, IH. reflexivity.
Qed.

Lemma hasByte_app c a b : hasByte c (a +:+ b) = hasByte c a || hasByte c b.
Proof.
  induction a as [|x a IH]; [reflexivity|].
  rewrite append_cons. cbn [hasByte]. rewrite IH, orb_assoc. reflexivity.
Qed.

Lemma hasByte_rev c a : hasByte c (String.rev a) = hasByte c a.
Proof.
  induction a as [|x a IH]; [reflexivity|].
  rewrite rev_cons, hasByte_app, IH. cbn [hasByte].
  rewrite orb_false_r, orb_comm. reflexivity.
Qed.

(** The last element of a path. *)
Lemma LastIndexByte_go_app c a b :
  forall i acc,
    strings.LastIndexByte_go c i (a +:+ b) acc
    = strings.LastIndexByte_go c (i + String.length a) b
        (strings.LastIndexByte_go c i a acc).
Proof.
  induction a as [|x a IH]; intros i acc.
  - cbn. rewrite Nat.add_0_r. reflexivity.
  - rewrite append_cons. cbn [strings.LastIndexByte_go String.length].
    rewrite IH. f_equal. lia.
Qed.

Lemma LastIndexByte_go_absent c s :
  hasByte c s = false ->
  forall i acc, strings.LastIndexByte_go c i s acc = acc.
Proof.
  induction s as [|x s IH]; intros Hno i acc; [reflexivity|].
  cbn [hasByte] in Hno. apply orb_false_iff in Hno as [Hx Hs].
  cbn [strings.LastIndexByte_go]. rewrite Hx. apply IH. exact Hs.
Qed.

Lemma substring_all s : String.substring 0 (String.length s) s = s.
Proof. induction s as [|x s IH]; simpl; [reflexivity | rewrite IH; reflexivity]. Qed.

Lemma substring_zero' n s : String.substring n 0 s = "".
Proof.
  revert n. induction s as [|c s IH]; intros [|n]; simpl; try reflexivity. apply IH.
Qed.

Lemma substring_skip a b : forall k,
  String.substring (String.length a) k (a +:+ b) = String.substring 0 k b.
Proof.
  induction a as [|x a IH]; intros k; [reflexivity|].
  rewrite append_cons. simpl. apply IH.
Qed.

Lemma drop_app a b : strings.drop (String.length a) (a +:+ b) = b.
Proof.
  unfold strings.drop. rewrite length_append, substring_skip.
  replace (String.length a + String.length b - String.length a)%nat
    with (String.length b) by lia.
  apply substring_all.
Qed.

Lemma substring_prefix a b :
  String.substring 0 (String.length a) (a +:+ b) = a.
Proof.
  induction a as [|x a IH]; [apply substring_zero'|].
  rewrite append_cons. simpl. rewrite IH. reflexivity.
Qed.

Lemma Base_of_name pre name :
  (pre = "" \/ exists dir, pre = dir +:+ "/") ->
  hasByte "/" name = false -> name <> "" ->
  path.Base (pre +:+ name) = name.
Proof.
  intros Hpre Hno Hne. unfold path.Base, path.slash.
  assert (pre +:+ name <> "") as Hne'.
  { destruct pre; [exact Hne | discriminate]. }
  apply String.eqb_neq in Hne'. rewrite Hne'.
  assert (path.strip_trailing_rev (String.rev (pre +:+ name))
          = String.rev (pre +:+ name)) as ->.
  { rewrite rev_append. destruct (String.rev name) as [|c r] eqn:Hr.
    - exfalso. apply Hne. rewrite <- (rev_rev name), Hr. reflexivity.
    - rewrite append_cons. cbn [path.strip_trailing_rev]. unfold path.slash.
      assert (hasByte "/" (String c r) = false) as Hc
        by (rewrite <- Hr, hasByte_rev; exact Hno).
      cbn [hasByte] in Hc. apply orb_false_iff in Hc as [-> _]. reflexivity. }
  rewrite rev_rev. unfold strings.LastIndexByte.
  apply String.eqb_neq in Hne.
  destruct Hpre as [->|[dir ->]].
  - change ("" +:+ name) with name.
    rewrite LastIndexByte_go_absent by exact Hno. rewrite Hne. reflexivity.
  - rewrite append_assoc, LastIndexByte_go_app.
    change ("/" +:+ name) with (String "/"%char name).
    cbn [strings.LastIndexByte_go]. rewrite Ascii.eqb_refl.
    rewrite LastIndexByte_go_absent by exact Hno.
    replace (S (0 + String.length dir)) with (String.length (dir +:+ "/"))
      by (rewrite length_append; cbn; lia).
    change (String "/"%char name) with ("/" +:+ name).
    rewrite <- append_assoc, drop_app, Hne. reflexivity.
Qed.

(** The extension of a name. *)
Lemma ext_rev_no_dot r :
  hasByte "." r = false -> forall acc, path.ext_rev r acc = "".
Proof.
  induction r as [|c r IH]; intros Hno acc; [reflexivity|].
  cbn [hasByte] in Hno. apply orb_false_iff in Hno as [Hc Hr].
  cbn [path.ext_rev]. rewrite Hc.
  destruct (Ascii.eqb c path.slash); [reflexivity | apply IH; exact Hr].
Qed.

Lemma ext_rev_dot r1 r2 :
  hasByte "/" r1 = false -> hasByte "." r1 = false ->
  forall acc,
    path.ext_rev (r1 +:+ String "."%char r2) acc
    = String "."%char (String.rev r1 +:+ acc).
Proof.
  induction r1 as [|c r1 IH]; intros Hs Hd acc.
  - reflexivity.
  - cbn [hasByte] in Hs, Hd.
    apply orb_false_iff in Hs as [Hcs Hs]. apply orb_false_iff in Hd as [Hcd Hd].
    rewrite append_cons. cbn [path.ext_rev]. unfold path.slash.
    rewrite Hcs, Hcd, (IH Hs Hd), rev_cons, append_assoc. reflexivity.
Qed.

Lemma Ext_of_name stem ext :
  hasByte "." stem = false ->
  (ext = "" \/ exists e, ext = "." +:+ e /\ hasByte "/" e = false
                         /\ hasByte "." e = false) ->
  path.Ext (stem +:+ ext) = ext.
Proof.
  intros Hstem [->|(e & -> & Hs & Hd)]; unfold path.Ext.
  - rewrite append_nil_r. apply ext_rev_no_dot. rewrite hasByte_rev. exact Hstem.
  - rewrite rev_append. change ("." +:+ e) with (String "."%char "" +:+ e).
    rewrite rev_append. change (String.rev (String "."%char "")) with (String "."%char "").
    rewrite append_assoc. change (String "."%char "" +:+ String.rev stem)
      with (String "."%char (String.rev stem)).
    rewrite ext_rev_dot by (rewrite hasByte_rev; assumption).
    rewrite rev_rev, append_nil_r. reflexivity.
Qed.

Lemma TrimSuffix_app stem ext : strings.TrimSuffix (stem +:+ ext) ext = stem.
Proof.
  unfold strings.TrimSuffix, strings.HasSuffix.
  rewrite length_append.
  replace (String.length stem + String.length ext - String.length ext)%nat
    with (String.length stem) by lia.
  rewrite drop_app, String.eqb_refl, andb_true_r.
  replace (String.length ext <=? String.length stem + String.length ext)%nat
    with true by (symmetry; apply Nat.leb_le; lia).
  apply substring_prefix.
Qed.

Lemma excludedReadmeExts_spec ext :
  default false (excludedReadmeExts !! ext)
  = bool_decide (ext = ".go" \/ ext = ".vendor").
Proof.
  unfold excludedReadmeExts.
  destruct (decide (ext = ".go")) as [->|Hgo]; [reflexivity|].
  rewrite (lookup_insert_ne _ ".go" ext true) by congruence.
  destruct (decide (ext = ".vendor")) as [->|Hv]; [reflexivity|].
  rewrite (lookup_singleton_ne ".vendor" ext true) by congruence.
  symmetry. apply bool_decide_eq_false_2. intros [?|?]; contradiction.
Qed.

(** X23.  isReadme looks at the last element of the path only, and there
    at the name without its extension: a file whose name is a stem without
    dots followed by nothing or by one extension is a README exactly when
    the stem is README in upper or lower case and the extension is neither
    .go nor .vendor, in whatever directory the file is. *)
Theorem isReadme_contract (pre stem ext : string) :
  (pre = "" \/ exists dir, pre = dir +:+ "/") ->
  hasByte "/" stem = false ->
  hasByte "." stem = false ->
  (ext = "" \/ exists e, ext = "." +:+ e /\ hasByte "/" e = false
                         /\ hasByte "." e = false) ->
  stem +:+ ext <> "" ->
  isReadme (pre +:+ stem +:+ ext)
  = negb (bool_decide (ext = ".go" \/ ext = ".vendor"))
    && strings.EqualFold stem "README".
Proof.
  intros Hpre Hslash Hdot Hext Hne. unfold isReadme. cbv zeta.
  rewrite Base_of_name; [|exact Hpre| |exact Hne].
  - rewrite (Ext_of_name _ _ Hdot Hext), TrimSuffix_app, excludedReadmeExts_spec.
    reflexivity.
  - rewrite hasByte_app, Hslash. destruct Hext as [->|(e & -> & Hs & _)];
      [reflexivity|]. rewrite hasByte_app, Hs. reflexivity.
Qed.

End readme_names.

(** ** GetModuleInfo *)
Section module_info_properties.
Context {W : World} {S : InfoSource}.

(** X24.  When GetModuleInfo reports no error, what it returns is what the
    endpoints answered: for the standard library the version and the zip
    size of stdlib.ZipInfo, with the commit time left at its zero value;
    for another module the version and the time of the .info endpoint, and
    the zip size the proxy gives for that resolved version. *)
Theorem GetModuleInfo_resolved mp rv :
  info_Error (GetModuleInfo mp rv) = None ->
  ModulePath (GetModuleInfo mp rv) = mp
  /\ RequestedVersion (GetModuleInfo mp rv) = rv
  /\ if String.eqb mp stdlib_ModulePath
     then stdlib_ZipInfo rv
          = inl (ResolvedVersion (GetModuleInfo mp rv), ZipSize (GetModuleInfo mp rv))
          /\ CommitTime (GetModuleInfo mp rv) = 0
     else proxy_GetInfo mp rv
          = inl (ResolvedVersion (GetModuleInfo mp rv), CommitTime (GetModuleInfo mp rv))
          /\ proxy_GetZipSize mp (ResolvedVersion (GetModuleInfo mp rv))
             = inl (ZipSize (GetModuleInfo mp rv)).
Proof.
  unfold GetModuleInfo. destruct (String.eqb mp stdlib_ModulePath).
  - destruct (stdlib_ZipInfo rv) as [[ver size]|e]; cbn; [|discriminate].
    intros _. repeat split.
  - destruct (proxy_GetInfo mp rv) as [[ver t]|e]; cbn; [|discriminate].
    destruct (proxy_GetZipSize mp ver) as [size|e] eqn:Hsize; cbn; [|discriminate].
    intros _. repeat split. exact Hsize.
Qed.


End module_info_properties.

(** ** The request log *)
Section request_log.
Import middleware.

Lemma perform_calls calls :
  forall rw,
    ResponseWriter (fold_left perform calls rw) = ResponseWriter rw ++ calls
    /\ status (fold_left perform calls rw) = default (status rw) (lastHeader calls).
Proof.
  unfold lastHeader.
  induction calls as [|c calls IH]; intros rw.
  - cbn. rewrite app_nil_r. split; reflexivity.
  - cbn [fold_left]. destruct (IH (perform rw c)) as [-> ->].
    split; [destruct c; cbn; rewrite <- app_assoc; reflexivity|].
    destruct c as [code|b]; [|reflexivity].
    change (omap _ (call_WriteHeader code :: calls))
      with (code :: omap (fun c => match c with
                                   | call_WriteHeader code => Some code
                                   | call_Write _ => None
                                   end) calls).
    rewrite last_cons. cbn [perform WriteHeader status].
    destruct (last _); reflexivity.
Qed.

(** X26.  The handler of RequestLog passes every call of the delegate on
    to the writer, in order, and logs two entries, one before and one
    after the delegate runs.  With LocalLogger the two messages are the
    status, the URL path and the payload: 0 and [request start], then the
    code of the last call of WriteHeader, or 200 if there was none or if
    that code was 0, and [request end]. *)
Theorem request_log_lines delegate (messages : LocalLogger) w r latency :
  let calls := delegate (X_Cloud_Trace_Context r) r in
  let code := translateStatus (default 0 (lastHeader calls)) in
  ServeHTTP delegate messages w r latency
  = (messages ++ [ "0 " +:+ URL_Path r +:+ " request start";
                   fmt_d code +:+ " " +:+ URL_Path r +:+ " request end" ],
     w ++ calls).
Proof.
  intros calls code. unfold ServeHTTP.
  destruct (perform_calls calls {| ResponseWriter := w; status := 0 |}) as [Hw Hs].
  fold calls. rewrite Hw, Hs. unfold Log, LocalLogger_Log. cbn.
  rewrite <- app_assoc, !append_assoc. reflexivity.
Qed.

End request_log.

(** ** Instances in the sample world *)

(** The module of fetch_test.go has one directory of .go files, bar/foo,
    with its one file. *)
Lemma phase1_dirs_hold_accepted_files_witness :
  exists st l,
    phase1 (W:=sample.world) "github.com/module" "v1.5.2" sample.testModule phase1Init
    = inl st
    /\ dirs st !! "bar/foo" = Some l
    /\ l <> []
    /\ Forall (acceptedFile (W:=sample.world) "github.com/module" "v1.5.2" "bar/foo") l
    /\ l `sublist_of` sample.testModule.
Proof.
  eexists. eexists. split; [vm_compute; reflexivity|].
  split; [vm_compute; reflexivity|].
  apply (phase1_dirs_hold_accepted_files (W:=sample.world)
           "github.com/module" "v1.5.2" sample.testModule _
           ltac:(vm_compute; reflexivity) "bar/foo" _ ltac:(vm_compute; reflexivity)).
Defined.

Lemma phase1_dirs_within_limit_witness :
  exists st,
    phase1 (W:=sample.world) "example.com/mixed" "v1.0.0" sample.mixedModule phase1Init
    = inl st
    /\ (size (dirs st) <= 2)%nat.
Proof.
  eexists. split; [vm_compute; reflexivity|].
  apply (phase1_dirs_within_limit (W:=sample.world)
           "example.com/mixed" "v1.0.0" sample.mixedModule _
           ltac:(vm_compute; reflexivity)).
Defined.

(** The module with a package [a] and a directory [b] that no environment
    matches: one package and two states, the first of them for [a]. *)
Lemma every_package_has_its_state_witness :
  exists packages states err ss,
    extractPackagesFromZip (W:=sample.world)
      "example.com/mixed" "v1.0.0" sample.mixedModule None
    = Ret (packages, states, err)
    /\ ss `sublist_of` states
    /\ Forall2 (stateOfPackage (W:=sample.world) "example.com/mixed" "v1.0.0")
               packages ss.
Proof.
  eexists. eexists. eexists.
  destruct (every_package_has_its_state (W:=sample.world)
              "example.com/mixed" "v1.0.0" sample.mixedModule None _ _ _
              ltac:(vm_compute; reflexivity)) as (ss & Hsub & Hall).
  exists ss. split; [vm_compute; reflexivity|]. split; [exact Hsub | exact Hall].
Defined.

Lemma every_package_comes_from_a_directory_witness :
  exists st1 packages states err p innerPath goFiles,
    phase1 (W:=sample.world) "github.com/module" "v1.5.2" sample.testModule phase1Init
    = inl st1
    /\ extractPackagesFromZip (W:=sample.world)
         "github.com/module" "v1.5.2" sample.testModule (Some sample.detector)
       = Ret (packages, states, err)
    /\ p ∈ packages
    /\ dirs st1 !! innerPath = Some goFiles
    /\ (innerPath ∉ incompleteDirs st1)
    /\ Path p = packagePath (W:=sample.world) "github.com/module" innerPath
    /\ V1Path p = internal_V1Path (World:=sample.world) (Path p) "github.com/module"
    /\ (GOOS p, GOARCH p) ∈ goEnvs
    /\ (length (Imports p) <= 3)%nat.
Proof.
  eexists. eexists. eexists. eexists. eexists.
  destruct (every_package_comes_from_a_directory (W:=sample.world)
              "github.com/module" "v1.5.2" sample.testModule (Some sample.detector)
              _ _ _ _ sample_rangeOrder
              ltac:(vm_compute; reflexivity) ltac:(vm_compute; reflexivity)
              _ ltac:(left))
    as (innerPath & goFiles & H).
  exists innerPath, goFiles.
  split; [vm_compute; reflexivity|]. split; [vm_compute; reflexivity|].
  split; [left|]. exact H.
Defined.

Lemma package_licenses_come_from_detector_witness :
  exists st1 packages states err p innerPath,
    phase1 (W:=sample.world) "github.com/module" "v1.5.2" sample.testModule phase1Init
    = inl st1
    /\ extractPackagesFromZip (W:=sample.world)
         "github.com/module" "v1.5.2" sample.testModule (Some sample.detector)
       = Ret (packages, states, err)
    /\ p ∈ packages
    /\ innerPath ∈ dom (dirs st1)
    /\ Path p = packagePath (W:=sample.world) "github.com/module" innerPath
    /\ (IsRedistributable p, Licenses p) = (true, ["MIT"]).
Proof.
  eexists. eexists. eexists. eexists. eexists.
  destruct (package_licenses_come_from_detector (W:=sample.world)
              "github.com/module" "v1.5.2" sample.testModule (Some sample.detector)
              _ _ _ _ sample_rangeOrder
              ltac:(vm_compute; reflexivity) ltac:(vm_compute; reflexivity)
              _ ltac:(left))
    as (innerPath & Hdom & Hpath & Hlic).
  exists innerPath.
  split; [vm_compute; reflexivity|]. split; [vm_compute; reflexivity|].
  split; [left|]. split; [exact Hdom|]. split; [exact Hpath | exact Hlic].
Defined.

(** Two directories, two states. *)
Lemma one_state_per_directory_witness :
  exists st1 packages states,
    phase1 (W:=sample.world) "example.com/mixed" "v1.0.0" sample.mixedModule phase1Init
    = inl st1
    /\ extractPackagesFromZip (W:=sample.world)
         "example.com/mixed" "v1.0.0" sample.mixedModule None
       = Ret (packages, states, None)
    /\ length states = size (incompleteDirs st1 ∪ dom (dirs st1))
    /\ length states = 2%nat.
Proof.
  eexists. eexists. eexists.
  split; [vm_compute; reflexivity|]. split; [vm_compute; reflexivity|].
  split; [|reflexivity].
  apply (one_state_per_directory (W:=sample.world)
           "example.com/mixed" "v1.0.0" sample.mixedModule None _ _ _ None
           sample_rangeOrder
           ltac:(vm_compute; reflexivity) ltac:(vm_compute; reflexivity)).
  intros e He. discriminate He.
Defined.

(** A module whose only directory no environment matches: a state and the
    error that says there are no packages. *)
Lemma extractPackagesFromZip_result_shape_witness :
  exists states,
    extractPackagesFromZip (W:=sample.world) "m" "v1"
      [sample.file "m@v1/b/b.go" "+build plan9;package b"] None
    = Ret ([], states, Some (errors_New errModuleContainsNoPackages))
    /\ states <> []
    /\ (Some (errors_New errModuleContainsNoPackages) = None
        <-> @nil LegacyPackage <> [])
    /\ (states <> [] ->
        Some (errors_New errModuleContainsNoPackages) <> None ->
        Some (errors_New errModuleContainsNoPackages)
        = Some (errors_New errModuleContainsNoPackages)).
Proof.
  eexists. split; [vm_compute; reflexivity|]. split; [discriminate|].
  apply (extractPackagesFromZip_result_shape (W:=sample.world) "m" "v1"
           [sample.file "m@v1/b/b.go" "+build plan9;package b"] None).
  vm_compute. reflexivity.
Defined.

Lemma every_state_is_about_a_directory_witness :
  exists st1 packages states err s innerPath,
    phase1 (W:=sample.world) "example.com/mixed" "v1.0.0" sample.mixedModule phase1Init
    = inl st1
    /\ extractPackagesFromZip (W:=sample.world)
         "example.com/mixed" "v1.0.0" sample.mixedModule None
       = Ret (packages, states, err)
    /\ s ∈ states
    /\ pvs_ModulePath s = "example.com/mixed"
    /\ pvs_Version s = "v1.0.0"
    /\ (innerPath ∈ incompleteDirs st1 \/ innerPath ∈ dom (dirs st1))
    /\ (pvs_PackagePath s = path.Join ["example.com/mixed"; innerPath]
        \/ pvs_PackagePath s = packagePath (W:=sample.world) "example.com/mixed" innerPath).
Proof.
  eexists. eexists. eexists. eexists. eexists.
  destruct (every_state_is_about_a_directory (W:=sample.world)
              "example.com/mixed" "v1.0.0" sample.mixedModule None _ _ _ _
              sample_rangeOrder
              ltac:(vm_compute; reflexivity) ltac:(vm_compute; reflexivity)
              _ ltac:(right; left))
    as (Hm & Hv & innerPath & Hdir & Hpath).
  exists innerPath.
  split; [vm_compute; reflexivity|]. split; [vm_compute; reflexivity|].
  split; [right; left|]. split; [exact Hm|]. split; [exact Hv|].
  split; [exact Hdir | exact Hpath].
Defined.

(** The fetch of a module whose zip the proxy does not have fails with
    status 404 and without a module. *)
Lemma FetchModule_module_or_error_witness :
  exists fr e,
    FetchModule (W:=sample.world)
      {| ModulePath := "github.com/nonexistent"; RequestedVersion := "latest";
         ResolvedVersion := "v1.0.0"; CommitTime := 0; ZipSize := 0;
         info_Error := None |} = Ret fr
    /\ fr_Error fr = Some e
    /\ fr_ModulePath fr = "github.com/nonexistent"
    /\ fr_RequestedVersion fr = "latest"
    /\ fr_Status fr <> 0
    /\ (fr_Error fr = None <-> fr_Module fr <> None)
    /\ fr_PackageVersionStates fr = []
    /\ fr_Status fr = 404.
Proof.
  eexists. eexists.
  destruct (FetchModule_module_or_error (W:=sample.world)
              {| ModulePath := "github.com/nonexistent"; RequestedVersion := "latest";
                 ResolvedVersion := "v1.0.0"; CommitTime := 0; ZipSize := 0;
                 info_Error := None |} _ ltac:(vm_compute; reflexivity))
    as (Hm & Hv & Hnz & Hiff & Herr).
  destruct (Herr _ ltac:(vm_compute; reflexivity)) as [Hstates Hstatus].
  split; [vm_compute; reflexivity|]. split; [vm_compute; reflexivity|].
  split; [exact Hm|]. split; [exact Hv|]. split; [exact Hnz|].
  split; [exact Hiff|]. split; [exact Hstates | exact Hstatus].
Defined.

(** The fetch of the module with a directory that no environment matches
    succeeds with the status of HasIncompletePackages. *)
Lemma FetchModule_success_witness :
  exists fr m,
    FetchModule (W:=sample.world)
      {| ModulePath := "example.com/mixed"; RequestedVersion := "latest";
         ResolvedVersion := "v1.0.0"; CommitTime := 0; ZipSize := 0;
         info_Error := None |} = Ret fr
    /\ fr_Error fr = None
    /\ fr_ResolvedVersion fr = "v1.0.0"
    /\ GoModPath fr = "example.com/mixed"
    /\ fr_Status fr = 290
    /\ fr_Module fr = Some m
    /\ m_ModulePath m = "example.com/mixed"
    /\ m_Version m = "v1.0.0"
    /\ LegacyPackages m <> [].
Proof.
  eexists.
  destruct (FetchModule_success (W:=sample.world)
              {| ModulePath := "example.com/mixed"; RequestedVersion := "latest";
                 ResolvedVersion := "v1.0.0"; CommitTime := 0; ZipSize := 0;
                 info_Error := None |} _
              ltac:(vm_compute; reflexivity) ltac:(vm_compute; reflexivity))
    as (Hv & Hgm & Hstatus & m & Hmod & Hmp & Hmv & Hpk & _).
  exists m. split; [vm_compute; reflexivity|]. split; [vm_compute; reflexivity|].
  split; [exact Hv|]. split; [exact Hgm|]. split; [exact Hstatus|].
  split; [exact Hmod|]. split; [exact Hmp|]. split; [exact Hmv | exact Hpk].
Defined.

(** An archive with a README and a directory entry only. *)
Lemma module_without_go_files_is_bad_witness :
  exists e,
    processZipFile (W:=sample.world) "m" "v1" 0
      [sample.file "m@v1/README.md" "hello"; sample.directory "docs/"]
    = Ret (None, [], Some e)
    /\ errors_Is e BadModule = true.
Proof.
  apply (module_without_go_files_is_bad (W:=sample.world) "m" "v1" 0
           [sample.file "m@v1/README.md" "hello"; sample.directory "docs/"]
           _ sample_rangeOrder ltac:(vm_compute; reflexivity)).
  constructor; [right; split; vm_compute; reflexivity|].
  constructor; [left; reflexivity | constructor].
Defined.

(** Three bytes are read of a file of five. *)
Lemma readZipFile_reads_at_most_limit_witness :
  readZipFile (W:=sample.world) (sample.file "m@v1/a.go" "hello") 3 = inl "hel"
  /\ Z.of_nat (String.length "hel") <= Z.max 0 3
  /\ exists b,
       body (sample.file "m@v1/a.go" "hello") = Contents b
       /\ strings.HasPrefix b "hel" = true
       /\ (Z.of_nat (String.length b) <= 3 -> "hel" = b).
Proof.
  split; [vm_compute; reflexivity|].
  apply (readZipFile_reads_at_most_limit (W:=sample.world)
           (sample.file "m@v1/a.go" "hello") 3 "hel").
  vm_compute. reflexivity.
Defined.

Lemma extractReadmesFromZip_returns_the_readmes_witness :
  exists readmes,
    extractReadmesFromZip (W:=sample.world) "github.com/module" "v1.5.2"
      sample.testModule = inl readmes
    /\ Forall2 (fun f rd =>
                  UncompressedSize64 f <= 40
                  /\ Filepath rd
                     = strings.TrimPrefix (Name f) "github.com/module@v1.5.2/"
                  /\ readZipFile (W:=sample.world) f 40 = inl (readme_Contents rd)
                  /\ Z.of_nat (String.length (readme_Contents rd)) <= Z.max 0 40)
               (filter (fun f => isReadme (Name f) = true) sample.testModule) readmes.
Proof.
  eexists. split; [vm_compute; reflexivity|].
  apply (extractReadmesFromZip_returns_the_readmes (W:=sample.world)
           "github.com/module" "v1.5.2" sample.testModule).
  vm_compute. reflexivity.
Defined.

Lemma module_readme_is_the_first_root_readme_witness :
  exists m states f,
    processZipFile (W:=sample.world) "github.com/module" "v1.5.2" 0 sample.testModule
    = Ret (Some m, states, None)
    /\ f ∈ sample.testModule
    /\ LegacyReadmeFilePath m = "README.md"
    /\ readZipFile (W:=sample.world) f 40 = inl (LegacyReadmeContents m).
Proof.
  eexists. eexists.
  destruct (module_readme_is_the_first_root_readme (W:=sample.world)
              "github.com/module" "v1.5.2" 0 sample.testModule _ _
              ltac:(vm_compute; reflexivity))
    as [(Hnone & _)|(before & f & after & Hr & _ & _ & Hpath & Hread)].
  - vm_compute in Hnone. discriminate Hnone.
  - exists f. split; [vm_compute; reflexivity|].
    split; [rewrite Hr; apply elem_of_app; right; left|].
    split; [vm_compute; reflexivity | exact Hread].
Defined.

(** Of a file for every system and a file for windows only, the build
    context of linux keeps the first. *)
Lemma matchingFiles_keeps_matching_files_witness :
  exists files f,
    matchingFiles (W:=sample.world) "linux" "amd64"
      [sample.file "m@v1/a.go" "package a";
       sample.file "m@v1/a_windows.go" "+build windows;package a"]
    = Ret (inl files)
    /\ files !! "a.go" = Some "package a"
    /\ files !! "a_windows.go" = None
    /\ f ∈ [sample.file "m@v1/a.go" "package a";
            sample.file "m@v1/a_windows.go" "+build windows;package a"]
    /\ snd (path.Split (Name f)) = "a.go"
    /\ readZipFile (W:=sample.world) f 40 = inl "package a"
    /\ MatchFile (World:=sample.world) "linux" "amd64" "a.go" "package a"
       = Ret (true, None).
Proof.
  eexists.
  destruct (matchingFiles_keeps_matching_files (W:=sample.world) sample_rangeOrder
              "linux" "amd64"
              [sample.file "m@v1/a.go" "package a";
               sample.file "m@v1/a_windows.go" "+build windows;package a"] _
              ltac:(vm_compute; reflexivity) "a.go" "package a"
              ltac:(vm_compute; reflexivity))
    as ((f & Hf & Hname & Hread) & Hmatch).
  exists f. split; [vm_compute; reflexivity|]. split; [vm_compute; reflexivity|].
  split; [vm_compute; reflexivity|]. split; [exact Hf|]. split; [exact Hname|].
  split; [exact Hread | exact Hmatch].
Defined.

(** A file and its test file in the external test package: both are in
    allGoFiles, the first alone is in goFiles and names the package. *)
Lemma parsed_files_agree_on_the_package_name_witness :
  parseFiles (W:=sample.world) "a"
    (rangeOrder (World:=sample.world) _ 4%nat
       (map_to_list ({[ "a.go" := "package a"; "a_test.go" := "package a_test" ]}
                       : gmap string string)))
    parseInit
  = Ret (inl {| goFiles := {[ "a.go" := {| ast_Name := "a"; ast_src := "package a" |} ]};
                allGoFiles := [ {| ast_Name := "a_test"; ast_src := "package a_test" |};
                                {| ast_Name := "a"; ast_src := "package a" |} ];
                packageName := "a"; packageNameFile := "a.go" |})
  /\ size ({[ "a.go" := "package a"; "a_test.go" := "package a_test" ]}
             : gmap string string) = 2%nat.
Proof.
  assert (parseFiles (W:=sample.world) "a"
            (rangeOrder (World:=sample.world) _ 4%nat
               (map_to_list ({[ "a.go" := "package a"; "a_test.go" := "package a_test" ]}
                               : gmap string string)))
            parseInit
          = Ret (inl {| goFiles :=
                          {[ "a.go" := {| ast_Name := "a"; ast_src := "package a" |} ]};
                        allGoFiles :=
                          [ {| ast_Name := "a_test"; ast_src := "package a_test" |};
                            {| ast_Name := "a"; ast_src := "package a" |} ];
                        packageName := "a"; packageNameFile := "a.go" |})) as Hrun
    by (vm_compute; reflexivity).
  split; [exact Hrun|].
  destruct (parsed_files_agree_on_the_package_name (W:=sample.world) sample_rangeOrder
              "a" _ _ Hrun) as (Hlen & _).
  symmetry. exact Hlen.
Defined.

Lemma package_is_named_by_a_matching_file_witness :
  exists p f b pf,
    loadPackage (W:=sample.world)
      [sample.file "m@v1/w/w.go" "+build windows;package w"] "w"
      (moduleInfoOf "m" "v1" ∅) = Ret (Some p, None)
    /\ GOOS p = "windows"
    /\ f ∈ [sample.file "m@v1/w/w.go" "+build windows;package w"]
    /\ strings.HasSuffix (snd (path.Split (Name f))) "_test.go" = false
    /\ readZipFile (W:=sample.world) f 40 = inl b
    /\ MatchFile (World:=sample.world) (GOOS p) (GOARCH p) (snd (path.Split (Name f))) b
       = Ret (true, None)
    /\ parser_ParseFile (World:=sample.world) (snd (path.Split (Name f))) b
       = Ret (parsed pf)
    /\ ast_Name pf = pkg_Name p.
Proof.
  eexists.
  destruct (package_is_named_by_a_matching_file (W:=sample.world) sample_rangeOrder
              [sample.file "m@v1/w/w.go" "+build windows;package w"] "w"
              (moduleInfoOf "m" "v1" ∅) _ None ltac:(vm_compute; reflexivity))
    as (f & b & pf & H).
  exists f, b, pf. split; [vm_compute; reflexivity|].
  split; [vm_compute; reflexivity | exact H].
Defined.

Lemma isVendored_below_witness :
  isVendored "example.com/m/vendor/x" = true
  /\ isVendored ("example.com/m/vendor/x" +:+ "/y/z") = true.
Proof.
  split; [vm_compute; reflexivity|].
  apply (isVendored_below "example.com/m/vendor/x" "/y/z"). vm_compute. reflexivity.
Defined.


(** ReadMe.md in a subdirectory is a README; README.go is not. *)
Lemma isReadme_contract_witness :
  isReadme ("m@v1/docs/" +:+ "ReadMe" +:+ ".md") = true
  /\ isReadme ("m@v1/" +:+ "README" +:+ ".go") = false.
Proof.
  split.
  - apply (isReadme_contract "m@v1/docs/" "ReadMe" ".md");
      [right; exists "m@v1/docs"; reflexivity | reflexivity | reflexivity
      | right; exists "md"; repeat split | discriminate].
  - apply (isReadme_contract "m@v1/" "README" ".go");
      [right; exists "m@v1"; reflexivity | reflexivity | reflexivity
      | right; exists "go"; repeat split | discriminate].
Defined.

Lemma GetModuleInfo_resolved_witness :
  ResolvedVersion
    (GetModuleInfo (W:=sample.world) (S:=sample_proxy.info) "github.com/module" "latest")
  = "v1.5.2"
  /\ proxy_GetZipSize (InfoSource:=sample_proxy.info) "github.com/module" "v1.5.2"
     = inl (ZipSize (GetModuleInfo (W:=sample.world) (S:=sample_proxy.info)
                       "github.com/module" "latest")).
Proof.
  split; [reflexivity|].
  apply (GetModuleInfo_resolved (W:=sample.world) (S:=sample_proxy.info)
           "github.com/module" "latest" ltac:(vm_compute; reflexivity)).
Defined.


(** The go.mod file of github.com/fork declares github.com/module: the
    fetch fails and the result carries the declared path. *)
Lemma FetchModule_reports_go_mod_path_witness :
  exists fr,
    FetchModule (W:=sample.world)
      {| ModulePath := "github.com/fork"; RequestedVersion := "latest";
         ResolvedVersion := "v1.0.0"; CommitTime := 0; ZipSize := 0;
         info_Error := None |} = Ret fr
    /\ fr_Module fr = None
    /\ GoModPath fr = "github.com/module".
Proof.
  eexists. split; [vm_compute; reflexivity|]. split; [reflexivity|].
  apply (proj1 (FetchModule_reports_go_mod_path (W:=sample.world)
                  {| ModulePath := "github.com/fork"; RequestedVersion := "latest";
                     ResolvedVersion := "v1.0.0"; CommitTime := 0; ZipSize := 0;
                     info_Error := None |} _
                  ltac:(vm_compute; reflexivity) ltac:(reflexivity))
           "module github.com/module"
           ltac:(discriminate) ltac:(vm_compute; reflexivity) ltac:(discriminate)).
Defined.

(** The proxy of the sample world answers the empty module path with a
    go.mod file that declares no path. *)
Lemma go_mod_without_module_path_witness :
  exists fr e,
    FetchModule (W:=sample.world)
      {| ModulePath := ""; RequestedVersion := "latest";
         ResolvedVersion := "v1.0.0"; CommitTime := 0; ZipSize := 0;
         info_Error := None |} = Ret fr
    /\ fr_Error fr = Some e
    /\ errors_Is e BadModule = true
    /\ fr_Status fr = 490
    /\ fr_Module fr = None
    /\ fr_PackageVersionStates fr = []
    /\ GoModPath fr = ""
    /\ fr_ResolvedVersion fr = "v1.0.0".
Proof.
  apply (go_mod_without_module_path (W:=sample.world)
           {| ModulePath := ""; RequestedVersion := "latest";
              ResolvedVersion := "v1.0.0"; CommitTime := 0; ZipSize := 0;
              info_Error := None |} "module ");
    [reflexivity | discriminate | vm_compute; reflexivity | vm_compute; reflexivity].
Defined.

(** The two directories of the mixed module, visited in the other order. *)
Lemma phase2_any_order_witness :
  exists st1 st2,
    phase2 (W:=sample.world) "example.com/mixed" "v1.0.0" None
      (moduleInfoOf "example.com/mixed" "v1.0.0" ∅)
      [("a", [sample.file "example.com/mixed@v1.0.0/a/a.go" "package a"]);
       ("b", [sample.file "example.com/mixed@v1.0.0/b/b.go" "+build plan9;package b"])]
      {| p2_incompleteDirs := ∅; p2_packageVersionStates := []; pkgs := [] |}
    = Ret (inl st1)
    /\ phase2 (W:=sample.world) "example.com/mixed" "v1.0.0" None
         (moduleInfoOf "example.com/mixed" "v1.0.0" ∅)
         [("b", [sample.file "example.com/mixed@v1.0.0/b/b.go" "+build plan9;package b"]);
          ("a", [sample.file "example.com/mixed@v1.0.0/a/a.go" "package a"])]
         {| p2_incompleteDirs := ∅; p2_packageVersionStates := []; pkgs := [] |}
       = Ret (inl st2)
    /\ sameResults st1 st2.
Proof.
  eexists.
  assert (Hperm :
    [("a", [sample.file "example.com/mixed@v1.0.0/a/a.go" "package a"]);
     ("b", [sample.file "example.com/mixed@v1.0.0/b/b.go" "+build plan9;package b"])]
    ≡ₚ [("b", [sample.file "example.com/mixed@v1.0.0/b/b.go" "+build plan9;package b"]);
        ("a", [sample.file "example.com/mixed@v1.0.0/a/a.go" "package a"])])
    by apply perm_swap.
  assert (Hnd : NoDup
    [("a", [sample.file "example.com/mixed@v1.0.0/a/a.go" "package a"]);
     ("b", [sample.file "example.com/mixed@v1.0.0/b/b.go" "+build plan9;package b"])].*1)
    by compute_done.
  pose proof (phase2_any_order (W:=sample.world) "example.com/mixed" "v1.0.0" None
              (moduleInfoOf "example.com/mixed" "v1.0.0" ∅) _ _ Hperm Hnd
              {| p2_incompleteDirs := ∅; p2_packageVersionStates := []; pkgs := [] |})
    as H.
  match goal with |- exists st2, ?run = Ret (inl ?st1) /\ _ =>
    assert (Hrun : run = Ret (inl st1)) by (vm_compute; reflexivity) end.
  destruct (H _ Hrun) as (st2 & Hrun2 & Hsame).
  exists st2.
  split; [exact Hrun|]. split; [exact Hrun2 | exact Hsame].
Defined.
